(** * SteamOS superimage repack: layout resolution and image replacement

    A shallow embedding of the decision logic of [repack_steamOS.py]
    (and of its twin [grepack_steamOS.py], whose helpers are the same
    line for line) together with the finalizers of [img2dsk.py] and
    [img2dsk_fedora.py].

    Conventions.
    - Python integers are unbounded: they are [Z]; [//] is floor division,
      which is [Z.div].
    - A mounted partition is seen through its top-level directory, an
      association list in [iterdir] order.
    - A Python exception is a value of [exn]; fallible code returns [res].
    - External programs ([file], [rsync], [mount], ...) are not part of the
      repository: what they answer is data of the model (the [magic] of a
      file, the outcome plan of a run), never computed here. *)

From Stdlib Require Import List String Ascii ZArith Lia Bool Arith.
From Stdlib.Strings Require Import Byte.
From Stdlib Require Import DecimalString RelationClasses.
Import ListNotations.
Set Warnings "-register-all".
Local Open Scope string_scope.
Local Open Scope Z_scope.

(* ================================================================== *)
(** * Strings *)

(** [str.lower()] on ASCII text. *)
Definition lower_ascii (c : ascii) : ascii :=
  let n := nat_of_ascii c in
  if (65 <=? n)%nat && (n <=? 90)%nat then ascii_of_nat (n + 32) else c.

Fixpoint lower (s : string) : string :=
  match s with
  | EmptyString => EmptyString
  | String c s' => String (lower_ascii c) (lower s')
  end.

(** [needle in hay]. *)
Fixpoint contains (needle hay : string) : bool :=
  String.prefix needle hay ||
  match hay with
  | EmptyString => false
  | String _ hay' => contains needle hay'
  end.

(* ================================================================== *)
(** * Exceptions and results *)

Inductive exn : Type :=
| FileNotFoundError (what : string)
| IsADirectoryError (what : string)
| PermissionError (what : string)
| OSError (what : string)
| SameFileError (what : string)
| IndexError
| RuntimeError (msg : string)
| CalledProcessError (cmd : list string).

Inductive res (A : Type) : Type :=
| Ok (a : A)
| Raise (e : exn).
Arguments Ok {A} a.
Arguments Raise {A} e.

Definition is_ok {A} (r : res A) : bool :=
  match r with Ok _ => true | Raise _ => false end.

(** [try: body except Exception: pass] for a body without a value. *)
Definition try_pass (body : res unit) : res unit :=
  match body with
  | Ok tt => Ok tt
  | Raise _ => Ok tt
  end.

(* ================================================================== *)
(** * State and exceptions *)

(** A computation over a state [S] that returns or raises; the state
    reached is kept in both cases, as side effects are in Python. *)
Definition St (S A : Type) : Type := S -> res A * S.

Definition ret {S A} (a : A) : St S A := fun s => (Ok a, s).
Definition raise {S A} (e : exn) : St S A := fun s => (Raise e, s).
Definition bind {S A B} (m : St S A) (k : A -> St S B) : St S B :=
  fun s =>
    match m s with
    | (Ok a, s') => k a s'
    | (Raise e, s') => (Raise e, s')
    end.
Definition gets {S A} (f : S -> A) : St S A := fun s => (Ok (f s), s).
Definition modify {S} (f : S -> S) : St S unit := fun s => (Ok tt, f s).

Declare Scope st_scope.
Delimit Scope st_scope with st.
Notation "x <- m ;; k" := (bind m (fun x => k))
  (at level 100, m at next level, right associativity) : st_scope.
Notation "m ;; k" := (bind m (fun _ => k))
  (at level 100, right associativity) : st_scope.
Local Open Scope st_scope.

(** [try: m except Exception: pass] *)
Definition try_except_pass {S} (m : St S unit) : St S unit :=
  fun s => let (r, s') := m s in (try_pass r, s').

(** [try: m finally: f], for a finalizer that does not raise. *)
Definition try_finally {S A} (m : St S A) (f : S -> S) : St S A :=
  fun s => let (r, s') := m s in (r, f s').

Definition when {S} (b : bool) (m : St S unit) : St S unit :=
  if b then m else ret tt.

(* ================================================================== *)
(** * Files and directories *)

(** A path inside the source tree, as its components below [root_tree]. *)
Definition srcpath := list string.

(** What a freshly formatted image has received: nothing yet, the whole
    of a source directory, or the beginning of one when rsync failed. *)
Inductive fill : Type :=
| Blank
| Filled (src : srcpath)
| HalfFilled (src : srcpath) (entries_done : nat).

(** What a regular file holds.  The code never reads file bytes; it
    creates files through external tools, so a file built by a tool is
    described by how it was made. *)
Inductive content : Type :=
| Bytes (b : list byte)                            (* an ordinary file *)
| Zeros (size : Z)                                 (* [f.truncate(size)] on a new file *)
| SquashfsOf (src : srcpath) (size : Z)            (* written by mksquashfs *)
| Ext4 (label : string) (size : Z) (f : fill)      (* formatted by mkfs.ext4 *)
| Partial (whole : content) (written : Z).         (* the first [written] bytes of [whole] *)

Definition content_size (c : content) : Z :=
  match c with
  | Bytes b => Z.of_nat (List.length b)
  | Zeros n => n
  | SquashfsOf _ n => n
  | Ext4 _ n _ => n
  | Partial _ k => k
  end.

(** A regular file: its content, and what [file -b] prints for it
    ([None] when running the tool raises). *)
Record file : Type := mkFile {
  body : content;
  magic : option string
}.

(** [p.stat().st_size] of a regular file. *)
Definition st_size (f : file) : Z := content_size (body f).

(** A directory entry: a regular file (or a symbolic link to one, which
    [is_file()] and [stat()] follow), a directory with its children, a
    symbolic link, with its target, that resolves to a directory
    ([is_dir()] follows it, [is_file()] is false), or something that is
    neither a file nor a directory (a device node, a fifo, a socket). *)
Inductive node : Type :=
| File (f : file)
| Dir (children : list (string * node))
| DirLink (target : string)
| Special.

Definition listing := list (string * node).

(** Directories and other tables keyed by name are association lists:
    the first entry of a name is the one a path resolves to. *)
Section Tables.
Context {A : Type}.

(** [mnt / nm] for a single-component name. *)
Fixpoint lookup (nm : string) (d : list (string * A)) : option A :=
  match d with
  | [] => None
  | (n, x) :: d' => if String.eqb n nm then Some x else lookup nm d'
  end.

Definition names (d : list (string * A)) : list string := map fst d.

Definition remove (nm : string) (d : list (string * A)) : list (string * A) :=
  filter (fun e => negb (String.eqb (fst e) nm)) d.

(** Write [x] under [nm]: in place when the name exists, else as a new
    last entry. *)
Fixpoint upsert (nm : string) (x : A) (d : list (string * A)) : list (string * A) :=
  match d with
  | [] => [(nm, x)]
  | (n, y) :: d' => if String.eqb n nm then (n, x) :: d' else (n, y) :: upsert nm x d'
  end.
End Tables.

(** [p.stat().st_size] of any entry (4096 for a directory inode). *)
Definition node_size (x : node) : Z :=
  match x with
  | File f => st_size f
  | Dir _ => 4096
  | DirLink _ => 4096
  | Special => 0
  end.

(* ================================================================== *)
(** * Content sniffing *)

Definition is_squashfs (f : file) : bool :=
  match magic f with
  | Some out => contains "squashfs" (lower out)
  | None => false
  end.

Definition is_ext_image (f : file) : bool :=
  match magic f with
  | Some out =>
      let out := lower out in
      existsb (fun t => contains t out) ["ext2"; "ext3"; "ext4"]
  | None => false
  end.

(* ================================================================== *)
(** * The helpers, on a mounted partition

    Each helper of the script mounts a partition on a fresh directory,
    works below it and unmounts in a [finally] clause.  This module has
    what happens in between, on the partition's file system. *)

Module Part.

(* ================================================================== *)
(** * Detection: [detect_existing_inner] *)

(** The loop over the preferred names: the first name that
    [exists() and is_file()]. *)
Fixpoint first_preferred (d : listing) (preferred_names : list string)
  : option (string * file) :=
  match preferred_names with
  | [] => None
  | nm :: rest =>
      match lookup nm d with
      | Some (File f) => Some (nm, f)
      | _ => first_preferred d rest
      end
  end.

(** [[p for p in mnt.iterdir() if p.is_file()]] *)
Fixpoint regular_files (d : listing) : list (string * file) :=
  match d with
  | [] => []
  | (n, File f) :: d' => (n, f) :: regular_files d'
  | _ :: d' => regular_files d'
  end.

(** [max(files, key=lambda p: p.stat().st_size)]: Python's [max] keeps the
    first of several maximal elements. *)
Fixpoint max_by_size (best : string * file) (l : list (string * file))
  : string * file :=
  match l with
  | [] => best
  | x :: l' =>
      max_by_size (if st_size (snd best) <? st_size (snd x) then x else best) l'
  end.

Definition largest_file (d : listing) : option (string * file) :=
  match regular_files d with
  | [] => None
  | x :: xs => Some (max_by_size x xs)
  end.

(** The body of [detect_existing_inner] between mount and unmount.  The
    returned path is the name of the file inside the partition. *)
Definition detect_existing_inner (d : listing) (preferred_names : list string)
  : option string * bool :=
  match first_preferred d preferred_names with
  | Some (nm, f) => (Some nm, is_squashfs f)
  | None =>
      match largest_file d with
      | Some (nm, f) =>
          if is_squashfs f || is_ext_image f
          then (Some nm, is_squashfs f)
          else (None, false)
      | None => (None, false)
      end
  end.

(** The three partition shapes, read off the returned pair as the callers
    do: a path means a nested image, the flag tells squashfs from ext. *)
Inductive PartitionShape : Type :=
| NestedSquashfs (path : string)
| NestedExtImage (path : string)
| DirectFilesystem.

Definition shape_of (r : option string * bool) : PartitionShape :=
  match r with
  | (Some p, true) => NestedSquashfs p
  | (Some p, false) => NestedExtImage p
  | (None, _) => DirectFilesystem
  end.

Definition classify (d : listing) (preferred_names : list string) : PartitionShape :=
  shape_of (detect_existing_inner d preferred_names).

Definition preferred_root_names : list string :=
  ["rootfs-A.img"; "rootfs.img"; "rootfs.squashfs"; "filesystem.squashfs"; "arch.squashfs"].
Definition preferred_var_names : list string := ["var-A.img"; "var.img"].
Definition preferred_home_names : list string := ["home.img"].

(* ================================================================== *)
(** * Target resolution of [replace_nested_image_in_partition] *)

Definition resolve_target (d : listing) (name_candidates : list string) : res string :=
  match first_preferred d name_candidates with
  | Some (nm, _) => Ok nm
  | None =>
      match largest_file d with
      | Some (nm, _) => Ok nm
      | None =>
          match name_candidates with
          | nm0 :: _ => Ok nm0
          | [] => Raise IndexError
          end
      end
  end.

(* ================================================================== *)
(** * A mounted partition *)

(** The file system of a partition while it is mounted read-write:
    its top-level directory, what [os.statvfs] reports for it, and the
    paths, relative to the top-level directory, that the kernel refuses
    to remove or replace (immutable or busy entries: [unlink], [rmdir]
    and [rename] fail on them). *)
Record part : Type := mkPart {
  entries : listing;
  f_bavail : Z;
  f_frsize : Z;
  statvfs_ok : bool;
  locked : list string
}.

Definition set_entries (d : listing) (p : part) : part :=
  mkPart d (f_bavail p) (f_frsize p) (statvfs_ok p) (locked p).

(** The entry at [path] itself is refused. *)
Definition path_locked (lk : list string) (path : string) : bool :=
  existsb (String.eqb path) lk.

(** The entry [nm], or something below it, is refused: it cannot be
    removed as a whole. *)
Definition locked_under (lk : list string) (path : string) : bool :=
  existsb (fun l => String.eqb path l || String.prefix (path ++ "/") l) lk.

Definition is_locked (nm : string) (p : part) : bool := locked_under (locked p) nm.

(** The components of a path. *)
Fixpoint components_from (acc s : string) : list string :=
  match s with
  | EmptyString => [acc]
  | String c s' =>
      if Ascii.eqb c "/" then acc :: components_from "" s'
      else components_from (acc ++ String c "") s'
  end.
Definition components (s : string) : list string := components_from "" s.

(** Whether a relative path leads to a directory, from the directory
    [cur] whose ancestors inside the partition are [up], nearest first.
    Links on the way are followed; a path that climbs above the top of
    the partition, or goes through a link with an absolute target, leaves
    the partition for a directory of the host, which the entries of the
    partition do not decide: it leads where it led.  [fuel] bounds the
    steps, as the kernel bounds path resolution. *)
Fixpoint leads_to_dir (fuel : nat) (up : list listing) (cur : listing)
  (comps : list string) : bool :=
  match fuel with
  | O => false
  | S fuel' =>
      match comps with
      | [] => true
      | c :: rest =>
          if String.eqb c "" || String.eqb c "." then leads_to_dir fuel' up cur rest
          else if String.eqb c ".." then
            match up with
            | [] => true
            | parent :: up' => leads_to_dir fuel' up' parent rest
            end
          else
            match lookup c cur with
            | Some (Dir children) => leads_to_dir fuel' (cur :: up) children rest
            | Some (DirLink t) =>
                if String.prefix "/" t then true
                else leads_to_dir fuel' up cur (components t ++ rest)
            | _ => false
            end
      end
  end.

(** Whether the target [t] of a top-level link still leads to a
    directory, in a partition some entries of which have been removed. *)
Definition resolves_dir (t : string) (top : listing) : bool :=
  if String.prefix "/" t then true
  else leads_to_dir 4096 [] top (components t).

(** [p.is_dir()] for a top-level name.  It follows links: a link of the
    listing led to a directory when the listing was read, and does so as
    long as its target is there. *)
Definition is_dir (nm : string) : St part bool :=
  gets (fun p =>
    match lookup nm (entries p) with
    | Some (Dir _) => true
    | Some (DirLink t) => resolves_dir t (entries p)
    | _ => false
    end).

(** [p.exists()] *)
Definition path_exists (nm : string) : St part bool :=
  gets (fun p => match lookup nm (entries p) with Some _ => true | None => false end).

(** [p.unlink()] *)
Definition unlink (nm : string) : St part unit :=
  fun p =>
    match lookup nm (entries p) with
    | None => (Raise (FileNotFoundError nm), p)
    | Some (Dir _) => (Raise (IsADirectoryError nm), p)
    | Some _ =>
        if is_locked nm p then (Raise (PermissionError nm), p)
        else (Ok tt, set_entries (remove nm (entries p)) p)
    end.

(** What [rmtree] with [ignore_errors=True] leaves of the entry at
    [path]: it removes what it can, children first; a directory goes
    when nothing is left in it and it is not refused itself.  Links
    inside the tree are unlinked, not followed. *)
Fixpoint prune (lk : list string) (path : string) (x : node) : option node :=
  match x with
  | Dir children =>
      let rest :=
        (fix go (l : listing) : listing :=
           match l with
           | [] => []
           | (n, y) :: l' =>
               match prune lk (path ++ "/" ++ n) y with
               | Some y' => (n, y') :: go l'
               | None => go l'
               end
           end) children in
      match rest with
      | [] => if path_locked lk path then Some (Dir []) else None
      | _ :: _ => Some (Dir rest)
      end
  | other => if path_locked lk path then Some other else None
  end.

(** [shutil.rmtree(p, ignore_errors=True)] on a top-level entry.
    [rmtree] refuses a symbolic link with an [OSError] and cannot scan
    what is not a directory; [ignore_errors] drops these errors like any
    other, and nothing is removed. *)
Definition rmtree_ignore_errors (nm : string) : St part unit :=
  fun p =>
    match lookup nm (entries p) with
    | Some (Dir c) =>
        match prune (locked p) nm (Dir c) with
        | None => (Ok tt, set_entries (remove nm (entries p)) p)
        | Some rest => (Ok tt, set_entries (upsert nm rest (entries p)) p)
        end
    | _ => (Ok tt, p)
    end.

(** What a copy interrupted after [k] bytes leaves behind. *)
Definition torn (a : file) (k : Z) : file := mkFile (Partial (body a) k) (magic a).

(** [shutil.copy2(new_inner, tmp)].  [new_inner] is the artifact on the
    host ([None]: no such file).  [cut = Some k] is a copy that stops
    after [k] bytes (no space left, I/O error, the process killed);
    [None] is a copy that runs to its end. *)
Definition copy2 (new_inner : option file) (dst : string) (cut : option Z)
  : St part unit :=
  match new_inner with
  | None => raise (FileNotFoundError "new_inner")
  | Some a =>
      match cut with
      | None => modify (fun p => set_entries (upsert dst (File a) (entries p)) p)
      | Some k =>
          modify (fun p => set_entries (upsert dst (File (torn a k)) (entries p)) p) ;;
          raise (OSError "copy2")
      end
  end.

(** [os.replace(src, dst)]: one atomic rename of a file over [dst]. *)
Definition os_replace (src dst : string) : St part unit :=
  fun p =>
    match lookup src (entries p) with
    | None => (Raise (FileNotFoundError src), p)
    | Some x =>
        match lookup dst (entries p) with
        | Some (Dir _) => (Raise (IsADirectoryError dst), p)
        | _ =>
            if is_locked dst p then (Raise (PermissionError dst), p)
            else (Ok tt, set_entries (upsert dst x (remove src (entries p))) p)
        end
    end.

(* ================================================================== *)
(** * [replace_nested_image_in_partition] *)

Definition tmp_name (target : string) : string := target ++ ".tmp".

(** The body of the [try] of the free-space check. *)
Definition space_probe (target : string) (new_inner : option file) : St part unit :=
  fun p =>
    if statvfs_ok p then
      let free_bytes := f_bavail p * f_frsize p in
      match new_inner with
      | None => (Raise (FileNotFoundError "new_inner"), p)
      | Some a =>
          let need := st_size a in
          let old_sz :=
            match lookup target (entries p) with
            | Some x => node_size x
            | None => 0
            end in
          if need >? free_bytes + old_sz
          then (Raise (RuntimeError "Not enough free space"), p)
          else (Ok tt, p)
      end
    else (Raise (OSError "statvfs"), p).

(** The check as written: the probe inside [try ... except Exception: pass]. *)
Definition ensure_free_space (target : string) (new_inner : option file) : St part unit :=
  try_except_pass (space_probe target new_inner).

(** The copy protocol: unlink a stale temporary, copy, rename. *)
Definition copy_atomically (target : string) (new_inner : option file) (cut : option Z)
  : St part unit :=
  let tmp := tmp_name target in
  stale <- path_exists tmp ;;
  when stale (unlink tmp) ;;
  copy2 new_inner tmp cut ;;
  os_replace tmp target.

(** The function between [mount_rw] and the [finally] clause. *)
Definition replace_nested_image_in_partition
  (name_candidates : list string) (new_inner : option file) (cut : option Z)
  : St part unit :=
  fun p =>
    match resolve_target (entries p) name_candidates with
    | Raise e => (Raise e, p)
    | Ok target_path =>
        (ensure_free_space target_path new_inner ;;
         copy_atomically target_path new_inner cut) p
    end.

(* ================================================================== *)
(** * [wipe_and_fill_partition_direct] *)

Definition recovery_dir : string := "lost+found".

(** One turn of the loop:
    [if child.is_dir(): shutil.rmtree(child, ignore_errors=True)
     else: try: child.unlink() except Exception: pass].
    [is_dir()] is asked when the entry is reached, of the directory as
    it is then. *)
Definition wipe_child (name : string) : St part unit :=
  d <- is_dir name ;;
  if d then rmtree_ignore_errors name else try_except_pass (unlink name).

(** The loop over [mnt.iterdir()], the entries the directory had when
    the loop began: everything but [lost+found] is removed, errors
    ignored. *)
Fixpoint wipe_loop (children : listing) : St part unit :=
  match children with
  | [] => ret tt
  | (name, _) :: rest =>
      if String.eqb name recovery_dir then wipe_loop rest
      else wipe_child name ;; wipe_loop rest
  end.

(** [rsync -aAXH src/ dst/] without [--delete], for the source entry [s]
    and what the destination has at [path]: a new entry is created,
    directories are merged, anything else is replaced by the source
    entry.  Creating a new entry is taken to succeed.  The replacement
    fails, and the old entry stays, when the kernel refuses it or when a
    directory that is not empty is in the way of a source entry that is
    not a directory.  The result is the entry left at [path], and
    whether every transfer went through.
    (rsync leaves alone a file it finds up to date; modification times
    are not part of the model, so a refused entry of the same name
    counts as a failed transfer.) *)
Fixpoint rsync_node (lk : list string) (path : string) (s : node) (d : option node)
  : node * bool :=
  let replace (old : node) :=
    if path_locked lk path then (old, false) else (s, true) in
  match d with
  | None => (s, true)
  | Some old =>
      match s with
      | Dir sc =>
          match old with
          | Dir dc =>
              let r :=
                (fix go (l : listing) (acc : listing * bool) : listing * bool :=
                   match l with
                   | [] => acc
                   | (n, x) :: l' =>
                       let (y, ok) :=
                         rsync_node lk (path ++ "/" ++ n) x (lookup n (fst acc)) in
                       go l' (upsert n y (fst acc), snd acc && ok)
                   end) sc (dc, true) in
              (Dir (fst r), snd r)
          | _ => replace old
          end
      | _ =>
          match old with
          | Dir (_ :: _) => (old, false)
          | _ => replace old
          end
      end
  end.

Fixpoint rsync_tree (lk : list string) (src dst : listing) : listing * bool :=
  match src with
  | [] => (dst, true)
  | (n, x) :: src' =>
      let (y, ok) := rsync_node lk n x (lookup n dst) in
      let (r, ok') := rsync_tree lk src' (upsert n y dst) in
      (r, ok && ok')
  end.

(** The rsync call with [check=True].  [src = None] is a source that is
    not a directory; [cut = Some k] is a run that is stopped after [k]
    top-level entries (a run stopped inside an entry is not modelled).
    rsync goes on after a transfer that fails and exits with a non-zero
    status at the end. *)
Definition rsync (src : option listing) (cut : option nat) : St part unit :=
  match src with
  | None => raise (CalledProcessError ["rsync"])
  | Some t =>
      fun p =>
        let sent := match cut with None => t | Some k => firstn k t end in
        let (d, ok) := rsync_tree (locked p) sent (entries p) in
        (match cut with
         | None => if ok then Ok tt else Raise (CalledProcessError ["rsync"])
         | Some _ => Raise (CalledProcessError ["rsync"])
         end, set_entries d p)
  end.

(** The function between [mount_rw] and the [finally] clause. *)
Definition wipe_and_fill_partition_direct (src_dir : option listing) (cut : option nat)
  : St part unit :=
  children <- gets entries ;;
  wipe_loop children ;;
  rsync src_dir cut.

End Part.
Import Part.

(* ================================================================== *)
(** * Sizing an ext4 image *)

Definition round_up (n block : Z) : Z := ((n + block - 1) / block) * block.

(** The three assignments to [size] in [build_ext4_image]. *)
Definition ext4_image_size (data : Z) : Z :=
  let size := data + data / 6 + Z.shiftl 64 20 in
  let size := Z.max size (Z.shiftl 256 20) in
  round_up size (Z.shiftl 64 20).

(** What [du -sb] adds up: the apparent size of every file and of every
    directory inode (taken as 4096); a symbolic link to a directory
    counts for the length of its target.  A link to a regular file, which
    a listing does not tell from the file, is counted as the file. *)
Fixpoint du_apparent (x : node) : Z :=
  match x with
  | Dir children =>
      4096 + (fix total (l : listing) : Z :=
                match l with
                | [] => 0
                | (_, y) :: l' => du_apparent y + total l'
                end) children
  | DirLink target => Z.of_nat (String.length target)
  | other => node_size other
  end.

(** The fallback walk of [du_bytes]: the sizes of the non-directories
    ([os.walk] lists a link to a directory among the directories and does
    not enter it). *)
Fixpoint walk_total (x : node) : Z :=
  match x with
  | Dir children =>
      (fix total (l : listing) : Z :=
         match l with
         | [] => 0
         | (_, y) :: l' => walk_total y + total l'
         end) children
  | DirLink _ => 0
  | other => node_size other
  end.

(* ================================================================== *)
(** * The host: files, loop devices, mounts *)

(** What lives at a host path: a directory tree, a partitioned disk
    image (partitions 1 and 2, the boot and EFI areas, are [boot]; the
    others are file systems by number), any other regular file, or the
    first part of an unfinished copy. *)
Inductive hobj : Type :=
| Tree (t : listing)
| Superimage (boot : list byte) (parts : list (nat * part))
| Plain (c : content)
| Cut (whole : hobj) (written : nat).

(** The commands that reach the kernel, in the order they are issued. *)
Inductive call : Type :=
| Mount (dev target : string)
| MountImage (file target : string)
| Umount (target : string)
| LosetupAttach (image : string)
| LosetupDetach (dev : string)
| Rmtree (dir : string).

(** The lists the finalizer closes over. *)
Record tracker : Type := mkTracker {
  workdir : string;
  mounts : list string;
  tloops : list string
}.

(** The machine a run sees.
    - [host]: files and directories by path (paths are canonical: two
      paths are the same file exactly when they are equal; a file written
      below a directory of the table is recorded under its own path, not
      in the tree of that directory);
    - [build]: the files of the private directory [workdir/build];
    - [loops]: attached loop devices with their backing file, newest first;
    - [next_loop]: what [losetup --find --show] prints, stripped;
    - [mounted]: active mount points with their source, newest first;
    - [plan]: how the successive fallible operations of the run end,
      [None] for success, [Some k] for a failure after [k] units of work;
      an exhausted plan means success;
    - [mksquashfs_size]: the size of what the compressor writes;
    - [seq]: the supply of fresh temporary names;
    - [stdout], [calls]: what is printed and what reaches the kernel;
    - [atexit]: the finalizer's lists once it is registered. *)
Record world : Type := mkWorld {
  host : list (string * hobj);
  build : list (string * file);
  loops : list (string * string);
  next_loop : string;
  mounted : list (string * string);
  plan : list (option nat);
  mksquashfs_size : Z;
  seq : nat;
  stdout : list string;
  calls : list call;
  atexit : option tracker
}.

Definition upd_host (f : list (string * hobj) -> list (string * hobj)) (w : world) : world :=
  mkWorld (f (host w)) (build w) (loops w) (next_loop w) (mounted w) (plan w)
          (mksquashfs_size w) (seq w) (stdout w) (calls w) (atexit w).
Definition upd_build (f : list (string * file) -> list (string * file)) (w : world) : world :=
  mkWorld (host w) (f (build w)) (loops w) (next_loop w) (mounted w) (plan w)
          (mksquashfs_size w) (seq w) (stdout w) (calls w) (atexit w).
Definition upd_loops (f : list (string * string) -> list (string * string)) (w : world) : world :=
  mkWorld (host w) (build w) (f (loops w)) (next_loop w) (mounted w) (plan w)
          (mksquashfs_size w) (seq w) (stdout w) (calls w) (atexit w).
Definition upd_mounted (f : list (string * string) -> list (string * string)) (w : world) : world :=
  mkWorld (host w) (build w) (loops w) (next_loop w) (f (mounted w)) (plan w)
          (mksquashfs_size w) (seq w) (stdout w) (calls w) (atexit w).
Definition set_plan (pl : list (option nat)) (w : world) : world :=
  mkWorld (host w) (build w) (loops w) (next_loop w) (mounted w) pl
          (mksquashfs_size w) (seq w) (stdout w) (calls w) (atexit w).
Definition set_seq (n : nat) (w : world) : world :=
  mkWorld (host w) (build w) (loops w) (next_loop w) (mounted w) (plan w)
          (mksquashfs_size w) n (stdout w) (calls w) (atexit w).
Definition upd_stdout (f : list string -> list string) (w : world) : world :=
  mkWorld (host w) (build w) (loops w) (next_loop w) (mounted w) (plan w)
          (mksquashfs_size w) (seq w) (f (stdout w)) (calls w) (atexit w).
Definition upd_calls (f : list call -> list call) (w : world) : world :=
  mkWorld (host w) (build w) (loops w) (next_loop w) (mounted w) (plan w)
          (mksquashfs_size w) (seq w) (stdout w) (f (calls w)) (atexit w).
Definition set_atexit (t : option tracker) (w : world) : world :=
  mkWorld (host w) (build w) (loops w) (next_loop w) (mounted w) (plan w)
          (mksquashfs_size w) (seq w) (stdout w) (calls w) t.

Definition is_some {A} (o : option A) : bool :=
  match o with Some _ => true | None => false end.

(** [print(line)] *)
Definition print (line : string) : St world unit :=
  modify (upd_stdout (fun l => (l ++ [line])%list)).

Definition issue (c : call) : St world unit :=
  modify (upd_calls (fun l => (l ++ [c])%list)).

(** How the next fallible operation ends. *)
Definition next_outcome : St world (option nat) :=
  fun w =>
    match plan w with
    | [] => (Ok None, w)
    | o :: rest => (Ok o, set_plan rest w)
    end.

(** [try: m finally: fin] *)
Definition try_finally_do {S A} (m : St S A) (fin : St S unit) : St S A :=
  fun s =>
    let (r, s1) := m s in
    match fin s1 with
    | (Ok _, s2) => (r, s2)
    | (Raise e, s2) => (Raise e, s2)
    end.

Fixpoint for_each {S A} (l : list A) (f : A -> St S unit) : St S unit :=
  match l with
  | [] => ret tt
  | x :: l' => f x ;; for_each l' f
  end.

(** [tempfile.mkdtemp(prefix=...)]: a directory that did not exist. *)
Fixpoint fresh_suffix (n : nat) : string :=
  match n with
  | O => "_"
  | S n' => String "x" (fresh_suffix n')
  end.

Definition mkdtemp (prefix : string) : St world string :=
  fun w => (Ok ("/tmp/" ++ prefix ++ fresh_suffix (seq w)), set_seq (S (seq w)) w).

(** The partition a device name [<loop>p<k>] stands for: the newest loop
    device whose name, followed by [p], starts the device name, and the
    partition of its backing image whose number completes it. *)
Definition decimal (k : nat) : string := NilEmpty.string_of_uint (Nat.to_uint k).

Definition loop_of (dev : string) (w : world) : option (string * string) :=
  find (fun l => String.prefix (fst l ++ "p") dev) (loops w).

Definition partition_of (l dev : string) (parts : list (nat * part)) : option (nat * part) :=
  find (fun kp => String.eqb dev (l ++ "p" ++ decimal (fst kp))) parts.

Definition get_part (dev : string) (w : world) : option part :=
  match loop_of dev w with
  | Some (l, img) =>
      match lookup img (host w) with
      | Some (Superimage _ parts) => option_map snd (partition_of l dev parts)
      | _ => None
      end
  | None => None
  end.

Fixpoint set_nth_part (k : nat) (p : part) (parts : list (nat * part)) : list (nat * part) :=
  match parts with
  | [] => []
  | (k', q) :: rest =>
      if Nat.eqb k' k then (k', p) :: rest else (k', q) :: set_nth_part k p rest
  end.

Definition put_part (dev : string) (p : part) (w : world) : world :=
  match loop_of dev w with
  | Some (l, img) =>
      match lookup img (host w) with
      | Some (Superimage boot parts) =>
          match partition_of l dev parts with
          | Some (k, _) => upd_host (upsert img (Superimage boot (set_nth_part k p parts))) w
          | None => w
          end
      | _ => w
      end
  | None => w
  end.

(** Run a computation on the file system of a mounted partition; what
    it writes is on the disk image whether it returns or raises. *)
Definition on_part {A} (dev : string) (body : St part A) : St world A :=
  fun w =>
    match get_part dev w with
    | Some p => let (r, p') := body p in (r, put_part dev p' w)
    | None => (Raise (OSError "not mounted"), w)
    end.

(** [mount_rw(dev, target)] for a partition device. *)
Definition mount_rw (dev target : string) : St world unit :=
  issue (Mount dev target) ;;
  o <- next_outcome ;;
  there <- gets (fun w => is_some (get_part dev w)) ;;
  match o with
  | None =>
      if there then modify (upd_mounted (cons (target, dev)))
      else raise (CalledProcessError ["mount"; "-o"; "rw"; dev; target])
  | Some _ => raise (CalledProcessError ["mount"; "-o"; "rw"; dev; target])
  end.

(** [mount_rw(img, target, loop=True)] for an image file of the build
    directory. *)
Definition mount_rw_loop (img target : string) : St world unit :=
  issue (MountImage img target) ;;
  o <- next_outcome ;;
  there <- gets (fun w => is_some (lookup img (build w))) ;;
  match o with
  | None =>
      if there then modify (upd_mounted (cons (target, img)))
      else raise (CalledProcessError ["mount"; "-o"; "rw,loop"; img; target])
  | Some _ => raise (CalledProcessError ["mount"; "-o"; "rw,loop"; img; target])
  end.

(** Drop the first entry of a name. *)
Fixpoint drop_first {A} (nm : string) (d : list (string * A)) : list (string * A) :=
  match d with
  | [] => []
  | (n, x) :: d' => if String.eqb n nm then d' else (n, x) :: drop_first nm d'
  end.

(** [umount(target)]: [subprocess.run] with [check=False]; on a target
    that is not mounted the command fails and nothing changes.  On a
    mounted target the command is taken to succeed: a busy target, which
    the real command would leave mounted, is not modelled. *)
Definition umount (target : string) : St world unit :=
  issue (Umount target) ;;
  modify (upd_mounted (drop_first target)).

(** [shutil.rmtree(mnt, ignore_errors=True)] on an unmounted, empty
    temporary directory, which is what [umount] as modelled above leaves
    behind. *)
Definition rmtree_tmp (dir : string) : St world unit :=
  issue (Rmtree dir).

(** The frame every partition helper shares:
    [mnt = mkdtemp(...); try: mount_rw(part_dev, mnt); body
     finally: umount(mnt); rmtree(mnt)]. *)
Definition in_partition {A} (prefix part_dev : string) (body : string -> St world A)
  : St world A :=
  mnt <- mkdtemp prefix ;;
  try_finally_do
    (mount_rw part_dev mnt ;; body mnt)
    (umount mnt ;; rmtree_tmp mnt).

(** The source directory [root_tree / sub...]. *)
Fixpoint descend (sub : srcpath) (x : node) : option node :=
  match sub with
  | [] => Some x
  | nm :: sub' =>
      match x with
      | Dir children =>
          match lookup nm children with
          | Some y => descend sub' y
          | None => None
          end
      | _ => None
      end
  end.

Definition source_node (root_tree : string) (sub : srcpath) (w : world) : option node :=
  match lookup root_tree (host w) with
  | Some (Tree t) => descend sub (Dir t)
  | _ => None
  end.

Definition source_listing (root_tree : string) (sub : srcpath) (w : world) : option listing :=
  match source_node root_tree sub w with
  | Some (Dir t) => Some t
  | _ => None
  end.

Module Run.

(** [detect_existing_inner(part_dev, preferred_names)]: the path found is
    returned as the mount point and the name below it. *)
Definition detect_existing_inner (part_dev : string) (preferred_names : list string)
  : St world (option (string * string) * bool) :=
  in_partition "detmnt_" part_dev (fun mnt =>
    on_part part_dev (fun p =>
      let (path, sq) := Part.detect_existing_inner (entries p) preferred_names in
      (Ok (option_map (fun nm => (mnt, nm)) path, sq), p))).

(** [replace_nested_image_in_partition(part_dev, name_candidates, new_inner)];
    how the copy ends is drawn from the plan. *)
Definition replace_nested_image_in_partition
  (part_dev : string) (name_candidates : list string) (new_inner : string)
  : St world unit :=
  in_partition "partmnt_" part_dev (fun _ =>
    artifact <- gets (fun w => lookup new_inner (build w)) ;;
    o <- next_outcome ;;
    on_part part_dev
      (Part.replace_nested_image_in_partition
         name_candidates artifact (option_map Z.of_nat o))).

(** [wipe_and_fill_partition_direct(part_dev, src_dir)]; how rsync ends
    is drawn from the plan. *)
Definition wipe_and_fill_partition_direct
  (part_dev : string) (root_tree : string) (sub : srcpath) : St world unit :=
  in_partition "partmnt_" part_dev (fun _ =>
    src <- gets (source_listing root_tree sub) ;;
    o <- next_outcome ;;
    on_part part_dev (Part.wipe_and_fill_partition_direct src o)).

(** [du_bytes(path)] *)
Definition du_bytes (root_tree : string) (sub : srcpath) : St world Z :=
  o <- next_outcome ;;
  x <- gets (source_node root_tree sub) ;;
  match o, x with
  | None, Some x => ret (du_apparent x)
  | _, Some (Dir t) => ret (walk_total (Dir t))
  | _, _ => ret 0
  end.

Definition squashfs_magic : option string :=
  Some "Squashfs filesystem, little endian, version 4.0, xz compressed".
Definition ext4_magic : option string :=
  Some "Linux rev 1.0 ext4 filesystem data (extents) (64bit) (large files)".

(** [tmp.rename(out_file)] in the build directory. *)
Definition rename (src dst : string) : St world unit :=
  fun w =>
    match lookup src (build w) with
    | Some f => (Ok tt, upd_build (fun b => upsert dst f (remove src b)) w)
    | None => (Raise (FileNotFoundError src), w)
    end.

(** [if tmp.exists(): tmp.unlink()] in the build directory. *)
Definition unlink_stale (tmp : string) : St world unit :=
  stale <- gets (fun w => is_some (lookup tmp (build w))) ;;
  when stale (modify (upd_build (remove tmp))).

Definition write (nm : string) (f : file) : St world unit :=
  modify (upd_build (upsert nm f)).

(** [sh(["mksquashfs", src_dir, tmp, "-comp", "xz", "-noappend"])] *)
Definition mksquashfs (root_tree : string) (sub : srcpath) (tmp : string) : St world unit :=
  o <- next_outcome ;;
  src <- gets (source_node root_tree sub) ;;
  size <- gets mksquashfs_size ;;
  match o, src with
  | None, Some _ => write tmp (mkFile (SquashfsOf sub size) squashfs_magic)
  | Some k, Some _ =>
      write tmp (mkFile (Partial (SquashfsOf sub size) (Z.of_nat k)) squashfs_magic) ;;
      raise (CalledProcessError ["mksquashfs"])
  | _, None => raise (CalledProcessError ["mksquashfs"])
  end.

(** [build_squashfs(src_dir, out_file)].  [out_file.parent.mkdir] finds
    the build directory in place. *)
Definition build_squashfs (root_tree : string) (src_dir : srcpath) (out_file : string)
  : St world unit :=
  let tmp := tmp_name out_file in
  unlink_stale tmp ;;
  mksquashfs root_tree src_dir tmp ;;
  rename tmp out_file.

(** [sh(mkfs_cmd)] on the pre-allocated file. *)
Definition mkfs_ext4 (label : string) (size : Z) (tmp : string) : St world unit :=
  o <- next_outcome ;;
  match o with
  | None => write tmp (mkFile (Ext4 label size Blank) ext4_magic)
  | Some _ => raise (CalledProcessError ["mkfs.ext4"])
  end.

(** [sh(["rsync", "-aAXH", "--numeric-ids", src_dir/, mnt/])] into the
    loop-mounted image. *)
Definition rsync_image (root_tree : string) (sub : srcpath) (label : string) (size : Z)
  (tmp : string) : St world unit :=
  o <- next_outcome ;;
  src <- gets (source_listing root_tree sub) ;;
  match o, src with
  | None, Some _ => write tmp (mkFile (Ext4 label size (Filled sub)) ext4_magic)
  | Some k, Some _ =>
      write tmp (mkFile (Ext4 label size (HalfFilled sub k)) ext4_magic) ;;
      raise (CalledProcessError ["rsync"])
  | _, None => raise (CalledProcessError ["rsync"])
  end.

(** [build_ext4_image(src_dir, out_file, label)].  The call of
    [tune2fs -m 0] has [check=False] and changes nothing that is recorded
    here, so it is left out. *)
Definition build_ext4_image (root_tree : string) (src_dir : srcpath) (out_file label : string)
  : St world unit :=
  data <- du_bytes root_tree src_dir ;;
  let size := ext4_image_size data in
  let tmp := tmp_name out_file in
  unlink_stale tmp ;;
  write tmp (mkFile (Zeros size) (Some "data")) ;;
  mkfs_ext4 label size tmp ;;
  mnt <- mkdtemp "extimg_" ;;
  try_finally_do
    (mount_rw_loop tmp mnt ;; rsync_image root_tree src_dir label size tmp)
    (umount mnt ;; rmtree_tmp mnt) ;;
  rename tmp out_file.

(** The finalizer. *)
Definition losetup_d (ld : string) : St world unit :=
  issue (LosetupDetach ld) ;;
  modify (upd_loops (drop_first ld)).

Definition rmtree_workdir (dir : string) : St world unit :=
  issue (Rmtree dir) ;;
  modify (upd_build (fun _ => [])).

Definition cleanup (t : tracker) : St world unit :=
  for_each (rev (mounts t)) (fun m => try_except_pass (umount m)) ;;
  for_each (rev (tloops t)) (fun ld => try_except_pass (losetup_d ld)) ;;
  rmtree_workdir (workdir t).

(** What [file -b] prints for a path that is gone. *)
Definition file_b_missing (path : string) : string :=
  "cannot open `" ++ path ++ "' (No such file or directory)".

(** [is_squashfs(exists_path)] and [is_ext_image(exists_path)] as
    [repack] calls them, once [detect_existing_inner] has unmounted and
    removed the mount point the path lies under. *)
Definition is_squashfs_gone (exists_path : string * string) : bool :=
  is_squashfs (mkFile (Bytes [])
                 (Some (file_b_missing (fst exists_path ++ "/" ++ snd exists_path)))).
Definition is_ext_image_gone (exists_path : string * string) : bool :=
  is_ext_image (mkFile (Bytes [])
                  (Some (file_b_missing (fst exists_path ++ "/" ++ snd exists_path)))).

(** [os.path.basename] *)
Fixpoint basename_from (acc s : string) : string :=
  match s with
  | EmptyString => acc
  | String c s' =>
      if Ascii.eqb c "/" then basename_from "" s'
      else basename_from (acc ++ String c "") s'
  end.
Definition basename (s : string) : string := basename_from "" s.

(** [shutil.copy2(old_img, out_img)] *)
Definition copy2 (src dst : string) : St world unit :=
  from <- gets (fun w => lookup src (host w)) ;;
  onto <- gets (fun w => lookup dst (host w)) ;;
  match from with
  | None => raise (FileNotFoundError src)
  | Some (Tree _) => raise (IsADirectoryError src)
  | Some f =>
      let dst := match onto with
                 | Some (Tree _) => dst ++ "/" ++ basename src
                 | _ => dst
                 end in
      if String.eqb src dst then raise (SameFileError src)
      else
        inside <- gets (fun w => lookup dst (host w)) ;;
        match inside with
        | Some (Tree _) => raise (IsADirectoryError dst)
        | _ =>
            o <- next_outcome ;;
            match o with
            | None => modify (upd_host (upsert dst f))
            | Some k =>
                modify (upd_host (upsert dst (Cut f k))) ;;
                raise (OSError "copy2")
            end
        end
  end.

(** [sh(["losetup", "--find", "--show", "-P", out_img]).stdout.strip()] *)
Definition losetup_attach (img : string) : St world string :=
  issue (LosetupAttach img) ;;
  o <- next_outcome ;;
  f <- gets (fun w => lookup img (host w)) ;;
  match o, f with
  | None, Some (Superimage _ _) | None, Some (Plain _) | None, Some (Cut _ _) =>
      dev <- gets next_loop ;;
      modify (upd_loops (cons (dev, img))) ;;
      ret dev
  | _, _ => raise (CalledProcessError ["losetup"; "--find"; "--show"; "-P"; img])
  end.

(** Step 3: the root file system, on partition 3. *)
Definition replace_rootfs (root_tree p3 : string) : St world unit :=
  print "[+] Replacing rootfs ..." ;;
  found <- detect_existing_inner p3 preferred_root_names ;;
  let exists_path := fst found in
  let was_squashfs := snd found in
  let new_root_inner :=
    match exists_path with Some ep => snd ep | None => "rootfs.squashfs" end in
  new_root_inner <-
    (if was_squashfs ||
        match exists_path with Some ep => is_squashfs_gone ep | None => false end
     then
       print "    - Detected squashfs root; rebuilding squashfs ..." ;;
       build_squashfs root_tree [] new_root_inner ;;
       ret new_root_inner
     else
       print "    - Using ext4 image for root; building ext4 ..." ;;
       let new_root_inner :=
         match exists_path with
         | Some ep => if is_ext_image_gone ep then snd ep else "rootfs-A.img"
         | None => "rootfs-A.img"
         end in
       build_ext4_image root_tree [] new_root_inner "rootfs-A" ;;
       ret new_root_inner) ;;
  match exists_path with
  | Some _ => replace_nested_image_in_partition p3 preferred_root_names new_root_inner
  | None =>
      print "    - Partition appears to be direct rootfs; replacing contents directly ..." ;;
      wipe_and_fill_partition_direct p3 root_tree []
  end.

(** Steps 4 and 5 share their shape: a subtree of the source, a
    partition, the candidate names, a default file name and a label. *)
Definition replace_subtree (sub part_dev : string) (preferred : list string)
  (default label : string) (banner : string) (root_tree : string) : St world unit :=
  print banner ;;
  found <- detect_existing_inner part_dev preferred ;;
  let v_exists := fst found in
  let new_inner := match v_exists with Some ep => snd ep | None => default end in
  build_ext4_image root_tree [sub] new_inner label ;;
  match v_exists with
  | Some _ => replace_nested_image_in_partition part_dev preferred new_inner
  | None => wipe_and_fill_partition_direct part_dev root_tree [sub]
  end.

(** Step 4: [/var], on partition 4. *)
Definition replace_var (include_var : bool) (root_tree p4 : string) : St world unit :=
  if include_var then
    var_src <- gets (source_node root_tree ["var"]) ;;
    match var_src with
    | None => print "    - WARNING: /var tree not found in root tree; skipping var"
    | Some _ =>
        replace_subtree "var" p4 preferred_var_names "var-A.img" "var-A"
                        "[+] Replacing /var ..." root_tree
    end
  else print "[+] Skipping /var (per --no-var)".

(** Step 5: [/home], on partition 5. *)
Definition replace_home (include_home : bool) (root_tree p5 : string) : St world unit :=
  if include_home then
    home_src <- gets (source_node root_tree ["home"]) ;;
    match home_src with
    | None => print "    - WARNING: /home tree not found; skipping home"
    | Some _ =>
        replace_subtree "home" p5 preferred_home_names "home.img" "home"
                        "[+] Replacing /home ..." root_tree
    end
  else print "[+] Skipping /home (per --no-home)".

Definition register (t : tracker) : St world unit := modify (set_atexit (Some t)).

(** [loops.append(loopdev)], seen by the registered finalizer. *)
Definition track_loop (ld : string) : St world unit :=
  modify (fun w =>
    match atexit w with
    | Some t => set_atexit (Some (mkTracker (workdir t) (mounts t) (tloops t ++ [ld])%list)) w
    | None => w
    end).

(** [repack(old_img, root_tree, out_img, include_var, include_home)].
    [ensure_dir(tmpdir)] and the two [sync] calls ([check=False]) change
    nothing that is recorded here; printed messages are cut to their
    fixed ASCII text. *)
Definition repack (old_img root_tree out_img : string) (include_var include_home : bool)
  : St world unit :=
  old_there <- gets (fun w => is_some (lookup old_img (host w))) ;;
  if negb old_there then raise (FileNotFoundError old_img) else
  root_there <- gets (fun w => is_some (lookup root_tree (host w))) ;;
  if negb root_there then raise (FileNotFoundError root_tree) else
  workdir <- mkdtemp "repack_" ;;
  modify (upd_build (fun _ => [])) ;;
  register (mkTracker workdir [] []) ;;
  print "[+] Copying base image:" ;;
  copy2 old_img out_img ;;
  loopdev <- losetup_attach out_img ;;
  if String.eqb loopdev "" then
    raise (RuntimeError "Failed to attach loop device for output image")
  else
  track_loop loopdev ;;
  let p3 := loopdev ++ "p3" in
  let p4 := loopdev ++ "p4" in
  let p5 := loopdev ++ "p5" in
  replace_rootfs root_tree p3 ;;
  replace_var include_var root_tree p4 ;;
  replace_home include_home root_tree p5 ;;
  print "[+] Sync and detach ..." ;;
  print "[OK] Repack complete:" ;;
  print "NOTE: ESP/EFI partitions were kept as-is from the old superimage.".

(** A whole process: [repack], then the finalizer if it was registered. *)
Definition at_exit : St world unit :=
  t <- gets atexit ;;
  match t with
  | Some t => cleanup t
  | None => ret tt
  end.

Definition main (old_img root_tree out_img : string) (include_var include_home : bool)
  : St world unit :=
  try_finally_do (repack old_img root_tree out_img include_var include_home) at_exit.

End Run.

(* ================================================================== *)
(** * Relations between the state before and after *)

(** [keeps R m]: whatever [m] does and however it ends, the state it
    leaves is related by [R] to the one it started from. *)
Definition keeps {S A} (R : S -> S -> Prop) (m : St S A) : Prop :=
  forall s, R s (snd (m s)).

(** One removal of the wipe loop, errors ignored: the named entry goes,
    stays or loses a part of what is below it; nothing else moves and
    nothing appears. *)
Definition removes_at_most (nm : string) (p q : part) : Prop :=
  locked q = locked p /\
  (forall n, n <> nm -> lookup n (entries q) = lookup n (entries p)) /\
  (lookup nm (entries p) = None -> lookup nm (entries q) = None).

(** An entry the wipe can remove: it is not the recovery directory,
    nothing at or below it is refused, and it is not a link to a
    directory. *)
Definition removable (nm : string) (p : part) : Prop :=
  nm <> recovery_dir /\ is_locked nm p = false /\
  forall t, lookup nm (entries p) <> Some (DirLink t).

(** Two states whose build directories agree outside the names [ns]. *)
Definition build_agrees_outside (ns : list string) (w w' : world) : Prop :=
  forall n, ~ In n ns -> lookup n (build w') = lookup n (build w).

(** Between two states no loop device came or went, and, if the loop
    device [ld] backed by [out] heads the table, the file [old] is what
    it was. *)
Definition old_safe (ld out old : string) (w w' : world) : Prop :=
  loops w' = loops w /\
  (hd_error (loops w) = Some (ld, out) -> lookup old (host w') = lookup old (host w)).

(** Starting with [ld] as the next free loop device, the commands issued
    between two states all satisfy [ok]. *)
Definition trace_within (ld : string) (ok : call -> Prop) (w w' : world) : Prop :=
  next_loop w = ld ->
  next_loop w' = ld /\
  exists extra, calls w' = (calls w ++ extra)%list /\ Forall ok extra.

(** A command that mounts no partition but [dev] and attaches or
    detaches no loop device. *)
Definition uses_only (dev : string) (c : call) : Prop :=
  match c with
  | Mount d _ => d = dev
  | LosetupAttach _ | LosetupDetach _ => False
  | _ => True
  end.

(** A command of the finalizer. *)
Definition teardown (c : call) : Prop :=
  match c with
  | Umount _ | LosetupDetach _ | Rmtree _ => True
  | _ => False
  end.

(** A command that is on the output image: it attaches [out], or mounts
    a partition of the loop device [ld]. *)
Definition on_output (ld out : string) (c : call) : Prop :=
  match c with
  | Mount d _ => exists s, d = ld ++ String "p" s
  | LosetupAttach img => img = out
  | _ => True
  end.

(** A command that leaves the device [dev] alone. *)
Definition avoids (dev : string) (c : call) : Prop :=
  match c with
  | Mount d _ => d <> dev
  | _ => True
  end.

(** [T] holds between two states, and [I] still holds in the second,
    provided [I] held in the first. *)
Definition guarded (I : world -> Prop) (T : world -> world -> Prop) (w w' : world) : Prop :=
  I w -> I w' /\ T w w'.

(** The step for the subtree [sub] is to be skipped: it is switched off,
    or the source tree has no such subtree. *)
Definition absent (include : bool) (root_tree : string) (sub : srcpath) (w : world) : Prop :=
  include = false \/ source_node root_tree sub w = None.

(** Between two states no loop device came or went, and, if the loop
    device [ld] backed by [out] heads the table, the partition behind
    the device name [ld ++ "p" ++ s] is what it was. *)
Definition part_same (ld out s : string) (w w' : world) : Prop :=
  loops w' = loops w /\
  (hd_error (loops w) = Some (ld, out) ->
   get_part (ld ++ String "p" s) w' = get_part (ld ++ String "p" s) w).

(** The steps of [build_ext4_image] before the rename. *)
Definition ext4_steps (root : string) (sub : srcpath) (out label : string) : St world unit :=
  data <- Run.du_bytes root sub ;;
  Run.unlink_stale (tmp_name out) ;;
  Run.write (tmp_name out) (mkFile (Zeros (ext4_image_size data)) (Some "data")) ;;
  Run.mkfs_ext4 label (ext4_image_size data) (tmp_name out) ;;
  mnt <- mkdtemp "extimg_" ;;
  try_finally_do
    (mount_rw_loop (tmp_name out) mnt ;;
     Run.rsync_image root sub label (ext4_image_size data) (tmp_name out))
    (umount mnt ;; rmtree_tmp mnt).

(* ================================================================== *)
(** * Further definitions: scopes, visits, the choice of the extractor, the log *)

(** The directory the next [mkdtemp(prefix=...)] returns. *)
Definition next_tmp (prefix : string) (w : world) : string :=
  "/tmp/" ++ prefix ++ fresh_suffix (seq w).

(** Between two states no command was issued, nothing was printed, and
    the mounts, the loop devices, the supply of temporary names and the
    registered finalizer are the same: only files and the plan of
    outcomes may differ. *)
Definition files_only (w w' : world) : Prop :=
  calls w' = calls w /\ mounted w' = mounted w /\ loops w' = loops w /\
  seq w' = seq w /\ atexit w' = atexit w /\
  next_loop w' = next_loop w /\ stdout w' = stdout w.

(** A visit of a mount point: the mount of a partition or of an image
    file on a directory, then the unmount and the removal of that
    directory. *)
Definition visit (cs : list call) : Prop :=
  exists m,
    (exists dev, cs = [Mount dev m; Umount m; Rmtree m]) \/
    (exists img, cs = [MountImage img m; Umount m; Rmtree m]).

(** Between two states the finalizer's lists and the next loop device
    are the same, and the commands issued are a sequence of visits. *)
Definition visits_only (w w' : world) : Prop :=
  atexit w' = atexit w /\ next_loop w' = next_loop w /\
  exists vs, Forall visit vs /\ calls w' = (calls w ++ List.concat vs)%list.

(** Between two states no file of the host changed, no loop device came
    or went, and at most one thing happened to the mounts: the image
    [img] was mounted on the next temporary directory, which was then
    unmounted and removed. *)
Definition one_image_mount (img : string) (w w' : world) : Prop :=
  host w' = host w /\ loops w' = loops w /\ atexit w' = atexit w /\
  next_loop w' = next_loop w /\ stdout w' = stdout w /\
  (seq w <= seq w')%nat /\
  (lookup (next_tmp "extimg_" w) (mounted w) = None -> mounted w' = mounted w) /\
  (calls w' = calls w \/
   calls w' = (calls w ++ [MountImage img (next_tmp "extimg_" w);
                           Umount (next_tmp "extimg_" w);
                           Rmtree (next_tmp "extimg_" w)])%list).

(** The image at [img] keeps its boot area and its partition numbers. *)
Definition same_layout (img : string) (w w' : world) : Prop :=
  forall boot parts,
    lookup img (host w) = Some (Superimage boot parts) ->
    exists parts',
      lookup img (host w') = Some (Superimage boot parts') /\
      map fst parts' = map fst parts.

(** [sorted(files, key=lambda x: x.stat().st_size, reverse=True)]: Python's
    sort is stable, also with [reverse=True], so files of equal size stay
    in [iterdir] order. *)
Fixpoint insert_by_size (x : string * file) (l : list (string * file))
  : list (string * file) :=
  match l with
  | [] => [x]
  | y :: l' =>
      if st_size (snd x) <? st_size (snd y) then y :: insert_by_size x l' else x :: l
  end.

Definition sorted_by_size_desc (files : list (string * file)) : list (string * file) :=
  fold_right insert_by_size [] files.

(** How the extractor reads a partition: by unpacking a squashfs file,
    by loop-mounting an ext image, or by copying the partition's own
    tree. *)
Inductive extraction : Type :=
| Unsquash (inner : string)
| LoopMount (inner : string)
| CopyPartition.

(** The candidate of [extract_all] for the root partition. *)
Definition inner_root (d : listing) : option (string * file) :=
  match first_preferred d preferred_root_names with
  | Some c => Some c
  | None => largest_file d
  end.

(** The three-way branch of [extract_all] on the root partition. *)
Definition root_source (d : listing) : extraction :=
  match inner_root d with
  | Some (nm, f) =>
      if is_squashfs f then Unsquash nm
      else if is_ext_image f then LoopMount nm
      else CopyPartition
  | None => CopyPartition
  end.

(** The branch of [_extract_into_subdir] on the var and home partitions. *)
Definition subdir_source (d : listing) : extraction :=
  match sorted_by_size_desc (regular_files d) with
  | (nm, f) :: _ => if is_ext_image f then LoopMount nm else CopyPartition
  | [] => CopyPartition
  end.

(** [append_log] of the two Tk front ends of [img2dsk_fedora.py] and
    [grepack_steamOS.py]: the text of the label after one more line.  A
    string is the list of its characters. *)
Definition tail_limit : nat := Z.to_nat 25000.
Definition head_limit : nat := Z.to_nat 20000.

(** [prev + ("\n" if prev else "") + line] *)
Definition joined {A} (newline : A) (prev line : list A) : list A :=
  (prev ++ (match prev with [] => [] | _ => [newline] end) ++ line)%list.

(** [s[-25000:]] *)
Definition append_log {A} (newline : A) (prev line : list A) : list A :=
  let s := joined newline prev line in
  skipn (List.length s - tail_limit) s.

(** [append_log] of [img2dsk_gui.py], which keeps the head of the text. *)
Definition append_log_head {A} (newline : A) (prev line : list A) : list A :=
  firstn head_limit (joined newline prev line).

(* ================================================================== *)
(** * Sample files and partitions *)

Module Samples.
Definition plain_text : file :=
  mkFile (Bytes [x68; x69]) (Some "ASCII text").
Definition squash_image : file :=
  mkFile (Bytes [x68; x73; x71; x73])
         (Some "Squashfs filesystem, little endian, version 4.0, xz compressed").
Definition ext_image : file :=
  mkFile (Bytes [x00; x00; x53; xef; x00])
         (Some "Linux rev 1.0 ext4 filesystem data, UUID=0 (extents) (64bit)").
Definition new_image : file :=
  mkFile (Ext4 "rootfs-A" 268435456 (Filled []))
         (Some "Linux rev 1.0 ext4 filesystem data, UUID=1 (extents) (64bit)").

(** A root partition whose [rootfs.img] is not a file system image. *)
Definition odd_root : listing := [("rootfs.img", File plain_text)].

(** A root partition with a nested ext image, a stale temporary next
    to it, and a directory. *)
Definition nested_root : listing :=
  [("lost+found", Dir []);
   ("rootfs-A.img", File ext_image);
   ("rootfs-A.img.tmp", File plain_text)].

(** A partition whose only image goes by an unexpected name. *)
Definition renamed_root : listing :=
  [("notes.txt", File plain_text); ("system.sqfs", File squash_image)].

(** A var partition that is a file system of its own, and a source
    tree to fill it with. *)
Definition direct_var : listing :=
  [("lost+found", Dir []);
   ("journal.log", File plain_text);
   ("cache", Dir [("a", File plain_text)])].
Definition new_tree : listing :=
  [("lib", Dir [("state", File plain_text)]); ("log", Dir [])].

(** A superimage, a source tree, and the host they live on. *)
Definition superimage : hobj :=
  Superimage [x45; x46; x49]
    [(3%nat, mkPart nested_root 1048576 4096 true []);
     (4%nat, mkPart direct_var 1048576 4096 true []);
     (5%nat, mkPart [("home.img", File ext_image)] 1048576 4096 true [])].
Definition steamos_tree : listing :=
  [("etc", Dir [("os-release", File plain_text)]);
   ("var", Dir new_tree);
   ("home", Dir [("deck", Dir [])])].
Definition machine (outcomes : list (option nat)) : world :=
  mkWorld [("steamdeck.img", superimage); ("/mnt/steamOS", Tree steamos_tree)]
          [] [] "/dev/loop0" [] outcomes 1000 0 [] [] None.

(** A run on which [du] answers and [mkfs.ext4] then fails. *)
Definition mkfs_fails : world := machine [None; Some 0%nat].

(** An extraction in flight: the image attached, the root partition
    mounted and the image nested in it loop-mounted on top. *)
Definition tracked : tracker :=
  mkTracker "/tmp/img2dsk__"
            ["/tmp/img2dsk__/root_part"; "/tmp/img2dsk__/root_inner"]
            ["/dev/loop0"].
Definition extracting : world :=
  mkWorld [("steamdeck.img", superimage)] [] [("/dev/loop0", "steamdeck.img")] "/dev/loop1"
          [("/tmp/img2dsk__/root_inner", "/tmp/img2dsk__/root_part/rootfs-A.img");
           ("/tmp/img2dsk__/root_part", "/dev/loop0p3")]
          [] 1000 1 [] [] (Some tracked).

(** The same directory on a partition with no free block, and on one
    with room to spare. *)
Definition full_part (d : listing) : part := mkPart d 0 4096 true [].
Definition roomy_part (d : listing) : part := mkPart d 1048576 4096 true [].
End Samples.

(* ================================================================== *)
(** * Facts on strings and directories *)

Lemma length_append (s t : string) :
  String.length (s ++ t) = (String.length s + String.length t)%nat.
Proof. induction s as [|c s IH]; simpl; [reflexivity | now rewrite IH]. Qed.

Lemma tmp_name_fresh (target : string) : tmp_name target <> target.
Proof.
  unfold tmp_name. intro H. apply (f_equal String.length) in H.
  rewrite length_append in H. simpl in H. lia.
Qed.

Lemma lookup_remove_same {A} nm (d : list (string * A)) : lookup nm (remove nm d) = None.
Proof.
  induction d as [|[n x] d IH]; simpl; [reflexivity|].
  destruct (String.eqb_spec n nm) as [->|Hne]; simpl; [exact IH|].
  destruct (String.eqb_spec n nm); [contradiction | exact IH].
Qed.

Lemma lookup_remove_other {A} nm n (d : list (string * A)) :
  n <> nm -> lookup n (remove nm d) = lookup n d.
Proof.
  intros Hne. induction d as [|[m x] d IH]; simpl; [reflexivity|].
  destruct (String.eqb_spec m nm) as [->|Hm]; simpl.
  - destruct (String.eqb_spec nm n); [congruence | exact IH].
  - destruct (String.eqb_spec m n); [reflexivity | exact IH].
Qed.

Lemma lookup_upsert_same {A} nm (x : A) d : lookup nm (upsert nm x d) = Some x.
Proof.
  induction d as [|[m y] d IH]; simpl.
  - now rewrite String.eqb_refl.
  - destruct (String.eqb_spec m nm) as [->|Hm]; simpl.
    + now rewrite String.eqb_refl.
    + destruct (String.eqb_spec m nm); [contradiction | exact IH].
Qed.

Lemma lookup_upsert_other {A} nm n (x : A) d :
  n <> nm -> lookup n (upsert nm x d) = lookup n d.
Proof.
  intros Hne. induction d as [|[m y] d IH]; simpl.
  - destruct (String.eqb_spec nm n); [congruence | reflexivity].
  - destruct (String.eqb_spec m nm) as [->|Hm]; simpl.
    + destruct (String.eqb_spec nm n); [congruence | reflexivity].
    + destruct (String.eqb_spec m n); [reflexivity | exact IH].
Qed.

Lemma lookup_None_notin {A} nm (d : list (string * A)) :
  lookup nm d = None <-> ~ In nm (names d).
Proof.
  induction d as [|[m y] d IH]; simpl.
  - tauto.
  - destruct (String.eqb_spec m nm) as [->|Hm].
    + split; [discriminate | intros H; exfalso; apply H; now left].
    + rewrite IH. tauto.
Qed.

(** A file found by either tier of the search is a regular file of the
    directory, under its own name. *)
Lemma first_preferred_lookup d nms nm f :
  first_preferred d nms = Some (nm, f) -> lookup nm d = Some (File f) /\ In nm nms.
Proof.
  induction nms as [|n nms IH]; simpl; [discriminate|].
  destruct (lookup n d) as [[g| | |]|] eqn:E; intros H;
    try (destruct (IH H) as [H1 H2]; now auto).
  inversion H; subst. auto.
Qed.

Lemma regular_files_In d nm f :
  In (nm, f) (regular_files d) -> In (nm, File f) d.
Proof.
  induction d as [|[m [g| | |]] d IH]; simpl; intros H; try tauto.
  destruct H as [H|H]; [inversion H; subst; now left | right; auto].
Qed.

Lemma max_by_size_In best l : In (max_by_size best l) (best :: l).
Proof.
  revert best. induction l as [|x l IH]; intros best; simpl; [now left|].
  destruct (IH (if st_size (snd best) <? st_size (snd x) then x else best)) as [H|H].
  - destruct (st_size (snd best) <? st_size (snd x)); rewrite <- H; auto.
  - auto.
Qed.

Lemma largest_file_In d nm f :
  largest_file d = Some (nm, f) -> In (nm, File f) d.
Proof.
  unfold largest_file. destruct (regular_files d) as [|x xs] eqn:E; [discriminate|].
  intros H. inversion H as [H1]. apply regular_files_In. rewrite E, <- H1.
  apply max_by_size_In.
Qed.

(* ================================================================== *)
(** * Detection and target resolution *)

(** C1 (as the code has it): a candidate found by the largest-file
    fallback whose probe matches neither squashfs nor ext2/3/4 makes the
    partition a direct file system, and a candidate of either tier that
    probes as squashfs is reported as a nested squashfs, one that probes
    as ext2/3/4 (and not squashfs) as a nested ext image.  A candidate
    found under a preferred name is never probed for ext: it is returned
    as the nested image whatever its content, with the squashfs flag. *)
Theorem detect_existing_inner_classification :
  forall (d : listing) (preferred_names : list string) (nm : string) (f : file),
    first_preferred d preferred_names = Some (nm, f) \/
    (first_preferred d preferred_names = None /\ largest_file d = Some (nm, f)) ->
    (is_squashfs f = true ->
       classify d preferred_names = NestedSquashfs nm) /\
    (is_squashfs f = false -> is_ext_image f = true ->
       classify d preferred_names = NestedExtImage nm) /\
    (is_squashfs f = false -> is_ext_image f = false ->
       first_preferred d preferred_names = None ->
       classify d preferred_names = DirectFilesystem) /\
    (is_squashfs f = false ->
       first_preferred d preferred_names = Some (nm, f) ->
       classify d preferred_names = NestedExtImage nm).
Proof.
  intros d nms nm f Hc. unfold classify, detect_existing_inner.
  destruct Hc as [Hp | [Hp Hl]]; rewrite Hp.
  - repeat split; intros; try discriminate;
      match goal with H : is_squashfs f = _ |- _ => rewrite H end; reflexivity.
  - rewrite Hl. repeat split; intros Hs; intros;
      rewrite Hs; simpl; try discriminate; try reflexivity;
      match goal with H : is_ext_image f = _ |- _ => rewrite H end; reflexivity.
Qed.

Lemma detect_existing_inner_classification_witness :
  classify Samples.renamed_root preferred_root_names = NestedSquashfs "system.sqfs".
Proof.
  apply (detect_existing_inner_classification
           Samples.renamed_root preferred_root_names "system.sqfs" Samples.squash_image).
  - right. split; reflexivity.
  - reflexivity.
Defined.

(** C1, as stated, fails: a file present under a preferred name is the
    candidate, its type is neither squashfs nor ext2/3/4, and the answer
    still carries its path. *)
Lemma detect_existing_inner_unprobed_name :
  first_preferred Samples.odd_root preferred_root_names
    = Some ("rootfs.img", Samples.plain_text) /\
  is_squashfs Samples.plain_text = false /\
  is_ext_image Samples.plain_text = false /\
  detect_existing_inner Samples.odd_root preferred_root_names
    = (Some "rootfs.img", false) /\
  classify Samples.odd_root preferred_root_names <> DirectFilesystem.
Proof. repeat split; try reflexivity. discriminate. Qed.

(** C6: whenever [detect_existing_inner] names a nested file, the target
    resolution of [replace_nested_image_in_partition] on the same
    directory and names picks that file; and with no regular file in the
    directory the target is the first name of the list. *)
Theorem resolve_target_matches_detection :
  forall (d : listing) (names : list string) (nm0 : string) (rest : list string),
    names = nm0 :: rest ->
    (forall p sq, detect_existing_inner d names = (Some p, sq) ->
                  resolve_target d names = Ok p) /\
    (regular_files d = [] -> resolve_target d names = Ok nm0).
Proof.
  intros d nms nm0 rest Hn. split.
  - intros p sq. unfold detect_existing_inner, resolve_target.
    destruct (first_preferred d nms) as [[n f]|]; [intros H; now inversion H|].
    destruct (largest_file d) as [[n f]|]; [|discriminate].
    destruct (is_squashfs f || is_ext_image f); [intros H; now inversion H | discriminate].
  - intros Hr. unfold resolve_target.
    destruct (first_preferred d nms) as [[n f]|] eqn:Hp.
    + apply first_preferred_lookup in Hp. destruct Hp as [Hp _].
      exfalso. revert Hr Hp. clear. induction d as [|[m [g| | |]] d IH]; simpl;
        try discriminate; intros Hr; destruct (String.eqb m n); try discriminate; auto.
    + unfold largest_file. rewrite Hr, Hn. reflexivity.
Qed.

Lemma resolve_target_matches_detection_witness :
  resolve_target Samples.renamed_root preferred_root_names = Ok "system.sqfs" /\
  resolve_target [("lost+found", Dir [])] preferred_root_names = Ok "rootfs-A.img".
Proof.
  split.
  - apply (proj1 (resolve_target_matches_detection
                    Samples.renamed_root preferred_root_names
                    "rootfs-A.img" (tl preferred_root_names) eq_refl)
             "system.sqfs" true).
    reflexivity.
  - apply (proj2 (resolve_target_matches_detection
                    [("lost+found", Dir [])] preferred_root_names
                    "rootfs-A.img" (tl preferred_root_names) eq_refl)).
    reflexivity.
Defined.

(* ================================================================== *)
(** * Replacing a nested image *)

Lemma detect_names_target d nms p sq :
  detect_existing_inner d nms = (Some p, sq) -> resolve_target d nms = Ok p.
Proof.
  unfold detect_existing_inner, resolve_target.
  destruct (first_preferred d nms) as [[n f]|]; [intros H; now inversion H|].
  destruct (largest_file d) as [[n f]|]; [|discriminate].
  destruct (is_squashfs f || is_ext_image f); [intros H; now inversion H | discriminate].
Qed.

(** Whatever the probe finds, the check hands control on, the partition
    untouched. *)
Lemma ensure_free_space_passes target new_inner p :
  ensure_free_space target new_inner p = (Ok tt, p).
Proof.
  unfold ensure_free_space, try_except_pass, space_probe.
  destruct (statvfs_ok p); [|reflexivity].
  destruct new_inner as [a|]; [|reflexivity].
  destruct (st_size a >? _); reflexivity.
Qed.

(** The frame of the copy protocol, for a copy that ends or is cut. *)
Lemma copy_atomically_frame target art cut p :
  let r := fst (copy_atomically target (Some art) cut p) in
  let d' := entries (snd (copy_atomically target (Some art) cut p)) in
  (forall n, n <> target -> n <> tmp_name target -> lookup n d' = lookup n (entries p)) /\
  (r = Ok tt -> lookup target d' = Some (File art) /\ lookup (tmp_name target) d' = None) /\
  (r <> Ok tt -> lookup target d' = lookup target (entries p)).
Proof.
  pose proof (tmp_name_fresh target) as Hfresh.
  assert (Hfresh' : target <> tmp_name target) by congruence.
  (* the directory once a stale temporary is out of the way *)
  assert (Hstep : forall q,
    lookup (tmp_name target) (entries q) = None \/ entries q = remove (tmp_name target) (entries p) ->
    (forall n, n <> tmp_name target -> lookup n (entries q) = lookup n (entries p)) ->
    let r := fst ((copy2 (Some art) (tmp_name target) cut ;; os_replace (tmp_name target) target) q) in
    let d' := entries (snd ((copy2 (Some art) (tmp_name target) cut ;; os_replace (tmp_name target) target) q)) in
    (forall n, n <> target -> n <> tmp_name target -> lookup n d' = lookup n (entries p)) /\
    (r = Ok tt -> lookup target d' = Some (File art) /\ lookup (tmp_name target) d' = None) /\
    (r <> Ok tt -> lookup target d' = lookup target (entries p))).
  { intros q _ Hq. unfold copy2, bind, modify, raise. destruct cut as [k|]; simpl.
    - repeat split.
      + intros n H1 H2. rewrite lookup_upsert_other by assumption. now apply Hq.
      + discriminate.
      + discriminate.
      + intros _. rewrite lookup_upsert_other by assumption. now apply Hq.
    - unfold os_replace; simpl. rewrite lookup_upsert_same.
      rewrite (lookup_upsert_other _ target) by assumption.
      destruct (lookup target (entries q)) as [[g|c|t|]|] eqn:Et; simpl;
        try (destruct (is_locked target _) eqn:El; simpl);
        repeat split; try discriminate; try congruence;
        try (intros n H1 H2; rewrite ?lookup_upsert_other, ?lookup_remove_other,
               ?lookup_upsert_other by assumption; now apply Hq);
        try (intros _; rewrite ?lookup_upsert_other by assumption; now apply Hq);
        try (rewrite lookup_upsert_same; reflexivity);
        try (rewrite lookup_upsert_other by assumption; apply lookup_remove_same). }
  assert (Heq : copy_atomically target (Some art) cut p =
    match lookup (tmp_name target) (entries p) with
    | Some _ =>
        match unlink (tmp_name target) p with
        | (Ok _, q) =>
            (copy2 (Some art) (tmp_name target) cut ;; os_replace (tmp_name target) target) q
        | (Raise e, q) => (Raise e, q)
        end
    | None => (copy2 (Some art) (tmp_name target) cut ;; os_replace (tmp_name target) target) p
    end).
  { unfold copy_atomically, path_exists, gets, when, bind, ret.
    destruct (lookup (tmp_name target) (entries p)); [|reflexivity].
    destruct (unlink (tmp_name target) p) as [[u|e] q]; reflexivity. }
  rewrite Heq. clear Heq.
  destruct (lookup (tmp_name target) (entries p)) as [x|] eqn:Etmp.
  - unfold unlink. rewrite Etmp.
    assert (Hrm : forall n, n <> tmp_name target ->
              lookup n (remove (tmp_name target) (entries p)) = lookup n (entries p))
      by (intros n Hn; now apply lookup_remove_other).
    destruct x as [g|c|t|]; try destruct (is_locked (tmp_name target) p);
      try (cbn [fst snd]; repeat split; try discriminate; reflexivity);
      (apply Hstep; simpl; [now right | exact Hrm]).
  - apply Hstep; [now left | reflexivity].
Qed.

(** C2 (the code at the failing input): on a partition with no free
    block, holding a five-byte image, the probe runs and raises the
    not-enough-space error for a 256 MiB artifact; the enclosing
    [except Exception: pass] swallows it, and the call goes on to copy
    and rename the artifact and returns normally. *)
Theorem insufficient_space_error_is_swallowed :
  let p := Samples.full_part [("rootfs-A.img", File Samples.ext_image)] in
  st_size Samples.new_image > f_bavail p * f_frsize p + st_size Samples.ext_image /\
  fst (space_probe "rootfs-A.img" (Some Samples.new_image) p)
    = Raise (RuntimeError "Not enough free space") /\
  fst (ensure_free_space "rootfs-A.img" (Some Samples.new_image) p) = Ok tt /\
  replace_nested_image_in_partition preferred_root_names (Some Samples.new_image) None p
    = (Ok tt, set_entries [("rootfs-A.img", File Samples.new_image)] p).
Proof. repeat split. Qed.

(** C3 (as the code has it): on a partition classified as holding a
    nested image, a call changes nothing outside the resolved target and
    the temporary name [<target>.tmp] next to it; a call that returns
    leaves the whole artifact at the target and nothing at the temporary
    name; a call that raises, and in particular one whose copy is cut
    short, leaves the target exactly as it was. *)
Theorem replace_nested_image_frame :
  forall (p : part) (names : list string) (target : string) (sq : bool)
         (art : file) (cut : option Z),
    detect_existing_inner (entries p) names = (Some target, sq) ->
    let r := fst (replace_nested_image_in_partition names (Some art) cut p) in
    let d' := entries (snd (replace_nested_image_in_partition names (Some art) cut p)) in
    (forall n, n <> target -> n <> tmp_name target ->
               lookup n d' = lookup n (entries p)) /\
    (r = Ok tt ->
       lookup target d' = Some (File art) /\ lookup (tmp_name target) d' = None) /\
    (r <> Ok tt -> lookup target d' = lookup target (entries p)) /\
    (cut <> None -> r <> Ok tt).
Proof.
  intros p nms target sq art cut Hd.
  apply detect_names_target in Hd.
  assert (Heq : replace_nested_image_in_partition nms (Some art) cut p
                 = copy_atomically target (Some art) cut p).
  { unfold replace_nested_image_in_partition. rewrite Hd.
    unfold bind at 1. now rewrite ensure_free_space_passes. }
  rewrite Heq. clear Heq.
  pose proof (copy_atomically_frame target art cut p) as (H1 & H2 & H3).
  cbv zeta in *.
  split; [exact H1|]. split; [exact H2|]. split; [exact H3|].
  intros Hcut Hok. destruct cut as [k|]; [|congruence].
  revert Hok. clear. unfold copy_atomically, path_exists, gets, when, bind, ret, copy2, modify, raise.
  destruct (lookup (tmp_name target) (entries p)); simpl.
  - destruct (unlink (tmp_name target) p) as [[u|e] q]; simpl; discriminate.
  - discriminate.
Qed.

Lemma replace_nested_image_frame_witness :
  lookup "lost+found"
    (entries (snd (replace_nested_image_in_partition preferred_root_names
                     (Some Samples.new_image) None
                     (Samples.roomy_part Samples.nested_root))))
  = Some (Dir []).
Proof.
  apply (proj1 (replace_nested_image_frame
                  (Samples.roomy_part Samples.nested_root) preferred_root_names
                  "rootfs-A.img" false Samples.new_image None eq_refl) "lost+found");
    discriminate.
Defined.

(** C3, as stated, fails: the call completes on a partition classified
    as a nested ext image, and a file other than the target, the stale
    [rootfs-A.img.tmp], is gone afterwards. *)
Lemma replace_nested_image_unlinks_stale_tmp :
  let p := Samples.roomy_part Samples.nested_root in
  let p' := snd (replace_nested_image_in_partition preferred_root_names
                   (Some Samples.new_image) None p) in
  classify (entries p) preferred_root_names = NestedExtImage "rootfs-A.img" /\
  fst (replace_nested_image_in_partition preferred_root_names
         (Some Samples.new_image) None p) = Ok tt /\
  lookup "rootfs-A.img.tmp" (entries p) = Some (File Samples.plain_text) /\
  lookup "rootfs-A.img.tmp" (entries p') = None.
Proof. repeat split. Qed.

(* ================================================================== *)
(** * Wiping and refilling a direct partition *)

Lemma append_assoc (a b c : string) : ((a ++ b) ++ c)%string = (a ++ (b ++ c))%string.
Proof. induction a as [|x a IH]; simpl; [reflexivity | now rewrite IH]. Qed.

Lemma prefix_append (a b : string) : String.prefix a (a ++ b) = true.
Proof.
  induction a as [|x a IH]; [now destruct b|]. cbn.
  destruct (ascii_dec x x); [exact IH | congruence].
Qed.

Lemma prefix_weaken (a b l : string) :
  String.prefix (a ++ b) l = true -> String.prefix a l = true.
Proof.
  revert l. induction a as [|x a IH]; intros l H; [now destruct l|].
  destruct l as [|y l]; [discriminate H|]. cbn in H |- *.
  destruct (ascii_dec x y); [now apply IH | discriminate].
Qed.

(** Nothing refused at or below a path: nothing refused at or below
    its children, nor at the path itself. *)
Lemma locked_under_child lk path n :
  locked_under lk path = false -> locked_under lk (path ++ "/" ++ n) = false.
Proof.
  unfold locked_under. induction lk as [|l lk IH]; cbn [existsb]; [reflexivity|].
  intros H. apply orb_false_iff in H as [H1 H2]. rewrite (IH H2), orb_false_r.
  apply orb_false_iff in H1 as [_ Hp].
  apply orb_false_iff. split.
  - destruct (String.eqb_spec (path ++ "/" ++ n) l) as [<-|]; [|reflexivity].
    rewrite <- append_assoc, prefix_append in Hp. discriminate.
  - destruct (String.prefix ((path ++ "/" ++ n) ++ "/") l) eqn:E; [|reflexivity].
    rewrite <- append_assoc, append_assoc in E. apply prefix_weaken in E. congruence.
Qed.

Lemma locked_under_path lk path :
  locked_under lk path = false -> path_locked lk path = false.
Proof.
  unfold locked_under, path_locked. induction lk as [|l lk IH]; cbn [existsb]; [reflexivity|].
  intros H. apply orb_false_iff in H as [H1 H2]. rewrite (IH H2), orb_false_r.
  now apply orb_false_iff in H1.
Qed.

Lemma node_nested_ind (P : node -> Prop) :
  (forall f, P (File f)) ->
  (forall c, Forall (fun e => P (snd e)) c -> P (Dir c)) ->
  (forall t, P (DirLink t)) ->
  P Special ->
  forall x, P x.
Proof.
  intros HF HD HL HS. fix IH 1. intros [f|c|t|].
  - apply HF.
  - apply HD. induction c as [|[n y] c IHc]; constructor; [apply IH | exact IHc].
  - apply HL.
  - apply HS.
Qed.

(** [rmtree] removes the whole of an entry with nothing refused at or
    below it. *)
Lemma prune_unlocked lk x :
  forall path, locked_under lk path = false -> prune lk path x = None.
Proof.
  induction x as [f|c IH|t|] using node_nested_ind; intros path H;
    pose proof (locked_under_path lk path H) as Hp; cbn [prune]; rewrite ?Hp; try reflexivity.
  assert (E : (fix go (l : listing) : listing :=
                 match l with
                 | [] => []
                 | (n, y) :: l' =>
                     match prune lk (path ++ "/" ++ n) y with
                     | Some y' => (n, y') :: go l'
                     | None => go l'
                     end
                 end) c = []).
  { induction IH as [|[n y] c Hy _ IHc]; [reflexivity|]. cbn [snd] in Hy.
    rewrite (Hy _ (locked_under_child lk path n H)). exact IHc. }
  rewrite E. reflexivity.
Qed.

(** One turn of the wipe loop. *)
Lemma wipe_child_step name p :
  exists q, wipe_child name p = (Ok tt, q) /\ removes_at_most name p q /\
            (is_locked name p = false ->
             (forall t, lookup name (entries p) <> Some (DirLink t)) ->
             lookup name (entries q) = None).
Proof.
  unfold wipe_child, try_except_pass, bind, is_dir, gets, rmtree_ignore_errors, unlink,
    removes_at_most.
  destruct (lookup name (entries p)) as [[g|c|t|]|] eqn:E.
  - rewrite E. destruct (is_locked name p) eqn:El; cbn [try_pass];
      eexists; (split; [reflexivity|]); cbn [entries locked set_entries];
      repeat split; try discriminate; try congruence;
      try (intros; now apply lookup_remove_other);
      try (intros; apply lookup_remove_same).
  - rewrite E. unfold is_locked.
    destruct (prune (locked p) name (Dir c)) as [rest|] eqn:Ep; cbn [try_pass];
      eexists; (split; [reflexivity|]); cbn [entries locked set_entries];
      repeat split; try congruence;
      try (intros; now apply lookup_remove_other);
      try (intros; now apply lookup_upsert_other);
      try (intros; apply lookup_remove_same).
    intros Hl _. rewrite prune_unlocked in Ep by exact Hl. discriminate.
  - destruct (resolves_dir t (entries p)).
    + rewrite E. cbn [try_pass]. eexists; (split; [reflexivity|]).
      repeat split; try congruence; intros _ H; now destruct (H t).
    + rewrite E. destruct (is_locked name p) eqn:El; cbn [try_pass];
        eexists; (split; [reflexivity|]); cbn [entries locked set_entries];
        repeat split; try discriminate; try congruence;
        try (intros; now apply lookup_remove_other);
        try (intros; apply lookup_remove_same).
  - rewrite E. destruct (is_locked name p) eqn:El; cbn [try_pass];
      eexists; (split; [reflexivity|]); cbn [entries locked set_entries];
      repeat split; try discriminate; try congruence;
      try (intros; now apply lookup_remove_other);
      try (intros; apply lookup_remove_same).
  - rewrite E. cbn [try_pass]. eexists; (split; [reflexivity|]).
    repeat split; auto.
Qed.

Lemma wipe_loop_cons name child rest p q :
  String.eqb name recovery_dir = false ->
  wipe_child name p = (Ok tt, q) ->
  wipe_loop ((name, child) :: rest) p = wipe_loop rest q.
Proof.
  intros Hn Hq. simpl. rewrite Hn. unfold bind. now rewrite Hq.
Qed.

(** The wipe returns; it changes no lock and adds no name. *)
Lemma wipe_loop_returns children p :
  exists q, wipe_loop children p = (Ok tt, q) /\ locked q = locked p /\
            forall n, lookup n (entries p) = None -> lookup n (entries q) = None.
Proof.
  revert p. induction children as [|[name child] rest IH]; intros p.
  - exists p. simpl. auto.
  - destruct (String.eqb name recovery_dir) eqn:En.
    + simpl. rewrite En. apply IH.
    + destruct (wipe_child_step name p) as (q & Hq & (Hl & Hother & Hnone) & _).
      rewrite (wipe_loop_cons name child rest p q En Hq).
      destruct (IH q) as (q' & Hq' & Hl' & Hlook).
      exists q'. split; [exact Hq'|]. split; [congruence|].
      intros n Hn. apply Hlook.
      destruct (String.eqb_spec n name) as [->|Hne]; [now apply Hnone|].
      now rewrite Hother.
Qed.

(** The wipe keeps the recovery directory. *)
Lemma wipe_loop_keeps children p :
  lookup recovery_dir (entries (snd (wipe_loop children p)))
  = lookup recovery_dir (entries p).
Proof.
  revert p. induction children as [|[name child] rest IH]; intros p.
  - reflexivity.
  - destruct (String.eqb name recovery_dir) eqn:En.
    + simpl. rewrite En. apply IH.
    + destruct (wipe_child_step name p) as (q & Hq & (_ & Hother & _) & _).
      rewrite (wipe_loop_cons name child rest p q En Hq), IH.
      apply Hother. intros H. subst name. now rewrite String.eqb_refl in En.
Qed.

(** The wipe removes every entry of its snapshot that can be removed. *)
Lemma wipe_loop_removes children p n :
  removable n p ->
  In n (names children) ->
  lookup n (entries (snd (wipe_loop children p))) = None.
Proof.
  intros (Hrec & Hl & Hlink). revert p Hl Hlink.
  induction children as [|[name child] rest IH]; intros p Hl Hlink Hin; [destruct Hin|].
  assert (Hgone : forall q, lookup n (entries q) = None ->
                            lookup n (entries (snd (wipe_loop rest q))) = None).
  { intros q Hq. destruct (wipe_loop_returns rest q) as (q' & E & _ & Hlook).
    rewrite E. now apply Hlook. }
  destruct (String.eqb_spec name n) as [->|Hne].
  - assert (En : String.eqb n recovery_dir = false) by now apply String.eqb_neq.
    destruct (wipe_child_step n p) as (q & Hq & _ & Hrm).
    rewrite (wipe_loop_cons n child rest p q En Hq). apply Hgone, Hrm; assumption.
  - destruct Hin as [Hin|Hin]; [contradiction|].
    destruct (String.eqb name recovery_dir) eqn:En.
    + simpl. rewrite En. now apply IH.
    + destruct (wipe_child_step name p) as (q & Hq & (Hlq & Hother & _) & _).
      rewrite (wipe_loop_cons name child rest p q En Hq).
      apply IH; try assumption.
      * unfold is_locked in *. now rewrite Hlq.
      * intros t. rewrite (Hother n) by congruence. apply Hlink.
Qed.

(** After the wipe a removable name is free, whether or not the
    partition had it. *)
Lemma wipe_loop_frees p n :
  removable n p -> lookup n (entries (snd (wipe_loop (entries p) p))) = None.
Proof.
  intros Hr. destruct (lookup n (entries p)) as [x|] eqn:E.
  - apply wipe_loop_removes; [exact Hr|].
    clear -E. induction (entries p) as [|[m y] d IH]; [discriminate|].
    simpl in *. destruct (String.eqb_spec m n); [now left | right; auto].
  - destruct (wipe_loop_returns (entries p) p) as (q & Eq & _ & Hlook).
    rewrite Eq. now apply Hlook.
Qed.

Lemma rsync_node_fresh lk path x : rsync_node lk path x None = (x, true).
Proof. destruct x; reflexivity. Qed.

(** What rsync leaves under a name the source does not have, and under
    a name that was free. *)
Lemma rsync_tree_other lk src d n :
  lookup n src = None -> lookup n (fst (rsync_tree lk src d)) = lookup n d.
Proof.
  revert d. induction src as [|[m x] src IH]; intros d H; simpl in *; [reflexivity|].
  destruct (String.eqb_spec m n) as [->|Hne]; [discriminate|].
  destruct (rsync_node lk m x (lookup m d)) as [y ok].
  specialize (IH (upsert m y d) H).
  destruct (rsync_tree lk src (upsert m y d)) as [r ok']. cbn [fst] in *.
  rewrite IH. now apply lookup_upsert_other.
Qed.

Lemma rsync_tree_fresh lk src d n :
  NoDup (names src) ->
  lookup n d = None ->
  lookup n (fst (rsync_tree lk src d)) = lookup n src.
Proof.
  revert d. induction src as [|[m x] src IH]; intros d Hnd Hd; simpl; [exact Hd|].
  inversion Hnd as [|? ? Hm Hnd']; subst.
  destruct (rsync_node lk m x (lookup m d)) as [y ok] eqn:Ey.
  destruct (String.eqb_spec m n) as [->|Hne].
  - rewrite Hd, rsync_node_fresh in Ey. inversion Ey; subst.
    pose proof (rsync_tree_other lk src (upsert n y d) n) as H.
    destruct (rsync_tree lk src (upsert n y d)) as [r ok']. cbn [fst] in *.
    rewrite H by now apply lookup_None_notin. apply lookup_upsert_same.
  - specialize (IH (upsert m y d) Hnd').
    destruct (rsync_tree lk src (upsert m y d)) as [r ok']. cbn [fst] in *.
    apply IH. now rewrite lookup_upsert_other.
Qed.

(** rsync takes no name away. *)
Lemma rsync_tree_keeps_names lk src d n :
  lookup n d <> None -> lookup n (fst (rsync_tree lk src d)) <> None.
Proof.
  revert d. induction src as [|[m x] src IH]; intros d H; simpl; [exact H|].
  destruct (rsync_node lk m x (lookup m d)) as [y ok].
  specialize (IH (upsert m y d)).
  destruct (rsync_tree lk src (upsert m y d)) as [r ok']. cbn [fst] in *.
  apply IH. destruct (String.eqb_spec m n) as [->|Hne].
  - rewrite lookup_upsert_same. discriminate.
  - now rewrite lookup_upsert_other.
Qed.

(** rsync succeeds when every name of the source is free. *)
Lemma rsync_tree_ok lk src d :
  NoDup (names src) ->
  (forall n, In n (names src) -> lookup n d = None) ->
  snd (rsync_tree lk src d) = true.
Proof.
  revert d. induction src as [|[m x] src IH]; intros d Hnd Hfree; simpl; [reflexivity|].
  inversion Hnd as [|? ? Hm Hnd']; subst.
  rewrite (Hfree m (or_introl eq_refl)), rsync_node_fresh.
  specialize (IH (upsert m x d) Hnd').
  destruct (rsync_tree lk src (upsert m x d)) as [r ok']. cbn [snd] in *.
  apply IH. intros n Hn. rewrite lookup_upsert_other; [apply Hfree; now right|].
  intros ->. contradiction.
Qed.

(** The call, once the wipe is through. *)
Lemma wipe_and_fill_unfolded src_dir cut p :
  wipe_and_fill_partition_direct src_dir cut p =
  rsync src_dir cut (snd (wipe_loop (entries p) p)).
Proof.
  unfold wipe_and_fill_partition_direct, bind, gets.
  destruct (wipe_loop_returns (entries p) p) as (q & E & _). now rewrite E.
Qed.

(** C7 (as the code has it): the wipe ignores its removal errors and
    rsync runs without [--delete].  A call whose rsync is not stopped
    and whose source names can all be removed from the partition returns
    normally.  After a call that returned, every name that could be
    removed (it is not [lost+found], nothing at or below it is refused,
    it is not a link to a directory) holds exactly what the source tree
    has under it, nothing when the source lacks the name; so a partition
    on which every removal succeeds holds exactly the source tree plus
    its [lost+found].  The wipe leaves [lost+found] as it is; however
    the call ends, the name is still there, and it holds what it held
    unless the source has a [lost+found] of its own. *)
Theorem wipe_and_fill_partition_direct_contents :
  forall (p : part) (src : listing) (cut : option nat),
    NoDup (names src) ->
    let r := wipe_and_fill_partition_direct (Some src) cut p in
    (cut = None -> (forall n, In n (names src) -> removable n p) -> fst r = Ok tt) /\
    (fst r = Ok tt ->
     forall n, removable n p -> lookup n (entries (snd r)) = lookup n src) /\
    lookup recovery_dir (entries (snd (wipe_loop (entries p) p)))
    = lookup recovery_dir (entries p) /\
    (lookup recovery_dir (entries p) <> None ->
     lookup recovery_dir (entries (snd r)) <> None) /\
    (lookup recovery_dir src = None ->
     lookup recovery_dir (entries (snd r)) = lookup recovery_dir (entries p)) /\
    (fst r = Ok tt ->
     (forall n, n <> recovery_dir -> removable n p) ->
     lookup recovery_dir src = None ->
     forall n, lookup n (entries (snd r)) =
               if String.eqb n recovery_dir then lookup n (entries p) else lookup n src).
Proof.
  intros p src cut Hnd. cbv zeta. rewrite wipe_and_fill_unfolded.
  set (q := snd (wipe_loop (entries p) p)).
  assert (Hkeep : lookup recovery_dir (entries q) = lookup recovery_dir (entries p))
    by apply wipe_loop_keeps.
  assert (Hfree : forall n, removable n p -> lookup n (entries q) = None)
    by (intros n; apply wipe_loop_frees).
  assert (Hnone : cut = None ->
            rsync (Some src) cut q =
            (if snd (rsync_tree (locked q) src (entries q)) then Ok tt
             else Raise (CalledProcessError ["rsync"]),
             set_entries (fst (rsync_tree (locked q) src (entries q))) q)).
  { intros ->. unfold rsync. now destruct (rsync_tree (locked q) src (entries q)). }
  assert (Hok : fst (rsync (Some src) cut q) = Ok tt -> cut = None).
  { unfold rsync. destruct cut as [k|]; [|reflexivity].
    destruct (rsync_tree (locked q) (firstn k src) (entries q)). discriminate. }
  assert (Hrm : fst (rsync (Some src) cut q) = Ok tt ->
                forall n, removable n p ->
                          lookup n (entries (snd (rsync (Some src) cut q))) = lookup n src).
  { intros Hr n Hn. rewrite (Hnone (Hok Hr)). cbn [snd entries set_entries].
    apply rsync_tree_fresh; [exact Hnd | now apply Hfree]. }
  assert (Hrec : lookup recovery_dir src = None ->
                 lookup recovery_dir (entries (snd (rsync (Some src) cut q)))
                 = lookup recovery_dir (entries p)).
  { intros Hno. rewrite <- Hkeep. unfold rsync.
    destruct cut as [k|].
    - pose proof (rsync_tree_other (locked q) (firstn k src) (entries q) recovery_dir) as H.
      destruct (rsync_tree (locked q) (firstn k src) (entries q)). cbn [fst snd entries set_entries] in *.
      apply H. clear -Hno. revert k. induction src as [|[m x] src IH]; intros [|k]; simpl in *;
        try reflexivity. destruct (String.eqb m recovery_dir); [discriminate | now apply IH].
    - pose proof (rsync_tree_other (locked q) src (entries q) recovery_dir Hno) as H.
      destruct (rsync_tree (locked q) src (entries q)). exact H. }
  assert (Hstill : lookup recovery_dir (entries p) <> None ->
                   lookup recovery_dir (entries (snd (rsync (Some src) cut q))) <> None).
  { intros Hthere. rewrite <- Hkeep in Hthere. unfold rsync.
    destruct cut as [k|].
    - pose proof (rsync_tree_keeps_names (locked q) (firstn k src) (entries q)
                    recovery_dir Hthere) as H.
      destruct (rsync_tree (locked q) (firstn k src) (entries q)). exact H.
    - pose proof (rsync_tree_keeps_names (locked q) src (entries q)
                    recovery_dir Hthere) as H.
      destruct (rsync_tree (locked q) src (entries q)). exact H. }
  split; [|split; [exact Hrm | split; [exact Hkeep | split; [exact Hstill | split; [exact Hrec|]]]]].
  - intros Hc Hsrc. rewrite (Hnone Hc). cbn [fst].
    rewrite rsync_tree_ok; [reflexivity | exact Hnd |].
    intros n Hn. now apply Hfree, Hsrc.
  - intros Hr Hall Hno n. destruct (String.eqb_spec n recovery_dir) as [->|Hn].
    + now apply Hrec.
    + now apply Hrm, Hall.
Qed.

Lemma wipe_and_fill_partition_direct_contents_witness :
  fst (wipe_and_fill_partition_direct (Some Samples.new_tree) None
         (Samples.roomy_part Samples.direct_var)) = Ok tt.
Proof.
  apply (wipe_and_fill_partition_direct_contents
           (Samples.roomy_part Samples.direct_var) Samples.new_tree None).
  - repeat constructor; simpl; intuition discriminate.
  - reflexivity.
  - intros n [<-|[<-|[]]]; repeat split; try discriminate; intros t; vm_compute; discriminate.
Defined.

(** C7, as stated, fails: the call returns normally, yet an entry that
    was there before, is not the recovery directory and is not in the
    source tree, has not been deleted, because its removal failed and the
    failure was ignored. *)
Lemma wipe_and_fill_partition_direct_keeps_locked :
  let p := mkPart Samples.direct_var 1048576 4096 true ["journal.log"] in
  let r := wipe_and_fill_partition_direct (Some Samples.new_tree) None p in
  fst r = Ok tt /\
  lookup "journal.log" (entries p) = Some (File Samples.plain_text) /\
  lookup "journal.log" Samples.new_tree = None /\
  lookup "journal.log" (entries (snd r)) = Some (File Samples.plain_text).
Proof. repeat split. Qed.

(** A top-level link to a directory, such as the [bin] of a merged-usr
    root, is judged when the loop reaches it.  Met while its target is
    still there, [is_dir()] sends it to [rmtree], which refuses links,
    and it stays; met after its target has been removed, it is unlinked
    like a file. *)
Example wipe_judges_links_when_reached :
  let before := Samples.roomy_part
                  [("lost+found", Dir []); ("bin", DirLink "usr/bin");
                   ("usr", Dir [("bin", Dir [])])] in
  let after := Samples.roomy_part
                 [("lost+found", Dir []); ("usr", Dir [("bin", Dir [])]);
                  ("bin", DirLink "usr/bin")] in
  lookup "bin" (entries (snd (wipe_loop (entries before) before)))
  = Some (DirLink "usr/bin") /\
  lookup "bin" (entries (snd (wipe_loop (entries after) after))) = None /\
  lookup "usr" (entries (snd (wipe_loop (entries before) before))) = None.
Proof. vm_compute. repeat split. Qed.

(** [rmtree] removes what it can: below a directory that holds a
    refused file, everything else goes and the path to the file stays. *)
Example rmtree_removes_what_it_can :
  let p := mkPart [("cache", Dir [("a", File Samples.plain_text);
                                  ("d", Dir [("k", File Samples.plain_text);
                                             ("z", Special)])])]
                  1048576 4096 true ["cache/d/k"] in
  entries (snd (rmtree_ignore_errors "cache" p))
  = [("cache", Dir [("d", Dir [("k", File Samples.plain_text)])])].
Proof. reflexivity. Qed.

(* ================================================================== *)
(** * Rounding up *)

Lemma round_up_spec n block :
  0 < block ->
  (exists q, round_up n block = q * block) /\
  n <= round_up n block < n + block.
Proof.
  intros Hb. unfold round_up. split; [eexists; reflexivity|].
  pose proof (Z.div_mod (n + block - 1) block ltac:(lia)) as Hdm.
  pose proof (Z.mod_pos_bound (n + block - 1) block Hb) as Hm.
  nia.
Qed.


(* ================================================================== *)
(** * Relating the state before and after a computation *)

Section Keeps.
Context {S : Type} (R : S -> S -> Prop) {HR : PreOrder R}.

Lemma keeps_ret {A} (a : A) : keeps R (ret a).
Proof. intros s. simpl. reflexivity. Qed.

Lemma keeps_raise {A} e : keeps R (@raise S A e).
Proof. intros s. simpl. reflexivity. Qed.

Lemma keeps_gets {A} (f : S -> A) : keeps R (gets f).
Proof. intros s. simpl. reflexivity. Qed.

Lemma keeps_modify (f : S -> S) : (forall s, R s (f s)) -> keeps R (modify f).
Proof. intros H s. simpl. apply H. Qed.

Lemma keeps_bind {A B} (m : St S A) (k : A -> St S B) :
  keeps R m -> (forall a, keeps R (k a)) -> keeps R (bind m k).
Proof.
  intros Hm Hk s. unfold bind. specialize (Hm s).
  destruct (m s) as [[a|e] s1]; simpl in *; [|exact Hm].
  etransitivity; [exact Hm | apply Hk].
Qed.

Lemma keeps_when (b : bool) (m : St S unit) : keeps R m -> keeps R (when b m).
Proof. destruct b; simpl; [auto | intros _; apply keeps_ret]. Qed.

Lemma keeps_try_except_pass (m : St S unit) : keeps R m -> keeps R (try_except_pass m).
Proof.
  intros Hm s. unfold try_except_pass. specialize (Hm s).
  destruct (m s) as [r s1]. exact Hm.
Qed.

Lemma keeps_try_finally_do {A} (m : St S A) (fin : St S unit) :
  keeps R m -> keeps R fin -> keeps R (try_finally_do m fin).
Proof.
  intros Hm Hf s. unfold try_finally_do. specialize (Hm s).
  destruct (m s) as [r s1]. specialize (Hf s1).
  destruct (fin s1) as [[u|e] s2]; simpl in *; etransitivity; eassumption.
Qed.

Lemma keeps_for_each {A} (l : list A) (f : A -> St S unit) :
  (forall x, keeps R (f x)) -> keeps R (for_each l f).
Proof.
  intros Hf. induction l as [|x l IH]; simpl; [apply keeps_ret|].
  apply keeps_bind; auto.
Qed.
End Keeps.

(** Take a computation apart along its binds and case distinctions;
    [prim] closes what is left. *)
Ltac keeps_split prim :=
  repeat first
    [ apply keeps_ret; exact _
    | apply keeps_raise; exact _
    | apply keeps_gets; exact _
    | prim
    | apply keeps_bind; [ exact _ | | intros ? ]
    | apply keeps_when; [ exact _ | ]
    | apply keeps_try_except_pass
    | apply keeps_try_finally_do; [ exact _ | | ]
    | apply keeps_for_each; [ exact _ | intros ? ]
    | match goal with
      | |- keeps _ (match ?x with _ => _ end) => destruct x eqn:?
      | |- keeps _ (let _ := _ in _) => cbv zeta
      end ].

(* ================================================================== *)
(** * The image builders *)


Lemma build_agrees_outside_preorder ns : PreOrder (build_agrees_outside ns).
Proof.
  split.
  - intros w n _. reflexivity.
  - intros a b c Hab Hbc n Hn. rewrite (Hbc n Hn). now apply Hab.
Qed.
#[local] Existing Instance build_agrees_outside_preorder.

Ltac build_prim :=
  first
    [ apply keeps_modify; intros ? ? ?; reflexivity
    | match goal with
      | |- keeps _ next_outcome =>
          let w := fresh "w" in
          intros w; unfold next_outcome; destruct (plan w); intros ? ?; reflexivity
      | |- keeps _ (mkdtemp _) => intros ? ? ?; reflexivity
      end ].

Lemma build_agrees_write ns nm f :
  In nm ns -> keeps (build_agrees_outside ns) (Run.write nm f).
Proof.
  intros Hin. apply keeps_modify. intros w n Hn. simpl.
  apply lookup_upsert_other. intros ->. contradiction.
Qed.

Lemma build_agrees_unlink_stale ns nm :
  In nm ns -> keeps (build_agrees_outside ns) (Run.unlink_stale nm).
Proof.
  intros Hin. unfold Run.unlink_stale. keeps_split build_prim.
  apply keeps_modify. intros w n Hn. simpl.
  apply lookup_remove_other. intros ->. contradiction.
Qed.

(** Everything in a builder before the final rename writes to the
    temporary name only. *)
Lemma build_agrees_mksquashfs root sub tmp :
  keeps (build_agrees_outside [tmp]) (Run.mksquashfs root sub tmp).
Proof.
  unfold Run.mksquashfs.
  keeps_split ltac:(first [build_prim | apply build_agrees_write; now left]).
Qed.

Lemma build_agrees_ext4_steps root sub label size tmp mnt :
  keeps (build_agrees_outside [tmp])
        (try_finally_do
           (mount_rw_loop tmp mnt ;; Run.rsync_image root sub label size tmp)
           (umount mnt ;; rmtree_tmp mnt)).
Proof.
  unfold mount_rw_loop, Run.rsync_image, umount, rmtree_tmp, issue.
  keeps_split ltac:(first [build_prim | apply build_agrees_write; now left]).
Qed.

(** A rename that raises has changed nothing; one that returns has moved
    the temporary file to the final name. *)
Lemma rename_outcome src dst w :
  src <> dst ->
  match Run.rename src dst w with
  | (Ok _, w') =>
      lookup dst (build w') = lookup src (build w) /\
      lookup src (build w') = None /\
      (forall n, n <> src -> n <> dst -> lookup n (build w') = lookup n (build w))
  | (Raise _, w') => w' = w
  end.
Proof.
  intros Hne. unfold Run.rename.
  destruct (lookup src (build w)) as [f|] eqn:E; [|reflexivity].
  simpl. repeat split.
  - apply lookup_upsert_same.
  - rewrite lookup_upsert_other by assumption. apply lookup_remove_same.
  - intros n H1 H2. rewrite lookup_upsert_other by assumption.
    now apply lookup_remove_other.
Qed.

(** A builder is some steps that write the temporary name, then the
    rename. *)
Lemma commit_last {A} (steps : St world A) (out : string) (w : world) :
  keeps (build_agrees_outside [tmp_name out]) steps ->
  let r := (steps ;; Run.rename (tmp_name out) out) w in
  (forall n, n <> out -> n <> tmp_name out ->
             lookup n (build (snd r)) = lookup n (build w)) /\
  (fst r <> Ok tt -> lookup out (build (snd r)) = lookup out (build w)) /\
  (fst r = Ok tt ->
     exists w1 a, steps w = (Ok a, w1) /\
       lookup out (build (snd r)) = lookup (tmp_name out) (build w1) /\
       lookup (tmp_name out) (build w1) <> None /\
       lookup (tmp_name out) (build (snd r)) = None).
Proof.
  intros Hk. pose proof (tmp_name_fresh out) as Hfresh.
  assert (Hout : ~ In out [tmp_name out]) by (simpl; intuition congruence).
  cbv zeta. unfold bind. specialize (Hk w).
  destruct (steps w) as [[a|e] w1]; simpl in Hk.
  - pose proof (rename_outcome (tmp_name out) out w1 Hfresh) as Hr.
    destruct (Run.rename (tmp_name out) out w1) as [[[]|e] w2] eqn:Er; cbn [fst snd].
    + destruct Hr as (H1 & H2 & H3). repeat split.
      * intros n Hn1 Hn2. rewrite H3 by assumption. apply Hk. simpl. intuition congruence.
      * congruence.
      * intros _. exists w1, a. repeat split; auto.
        unfold Run.rename in Er. destruct (lookup (tmp_name out) (build w1)); [|discriminate].
        discriminate.
    + subst w2. repeat split.
      * intros n Hn1 Hn2. apply Hk. simpl. intuition congruence.
      * intros _. now apply Hk.
      * discriminate.
  - cbn [fst snd]. repeat split.
    + intros n Hn1 Hn2. apply Hk. simpl. intuition congruence.
    + intros _. now apply Hk.
    + discriminate.
Qed.

Lemma bind_assoc {S A B C} (m : St S A) (k : A -> St S B) (h : B -> St S C) s :
  bind (bind m k) h s = bind m (fun a => bind (k a) h) s.
Proof. unfold bind. destruct (m s) as [[a|e] s1]; reflexivity. Qed.

Lemma bind_ext {S A B} (m : St S A) (k k' : A -> St S B) s :
  (forall a s', k a s' = k' a s') -> bind m k s = bind m k' s.
Proof. intros H. unfold bind. destruct (m s) as [[a|e] s1]; [apply H | reflexivity]. Qed.

Lemma build_squashfs_commits root sub out w :
  Run.build_squashfs root sub out w =
  ((Run.unlink_stale (tmp_name out) ;; Run.mksquashfs root sub (tmp_name out)) ;;
   Run.rename (tmp_name out) out) w.
Proof. unfold Run.build_squashfs. now rewrite bind_assoc. Qed.


Lemma build_ext4_image_commits root sub out label w :
  Run.build_ext4_image root sub out label w =
  (ext4_steps root sub out label ;; Run.rename (tmp_name out) out) w.
Proof.
  unfold Run.build_ext4_image, ext4_steps. symmetry. revert w.
  repeat (intros ?; rewrite bind_assoc; apply bind_ext; intros ?).
  reflexivity.
Qed.

Lemma ext4_steps_write_tmp root sub out label :
  keeps (build_agrees_outside [tmp_name out]) (ext4_steps root sub out label).
Proof.
  unfold ext4_steps.
  apply keeps_bind; [exact _ | | intros data].
  { unfold Run.du_bytes. keeps_split ltac:(build_prim). }
  apply keeps_bind; [exact _ | apply build_agrees_unlink_stale; now left | intros _].
  apply keeps_bind; [exact _ | apply build_agrees_write; now left | intros _].
  apply keeps_bind; [exact _ | | intros _].
  { unfold Run.mkfs_ext4.
    keeps_split ltac:(first [build_prim | apply build_agrees_write; now left]). }
  apply keeps_bind; [exact _ | build_prim | intros mnt].
  apply build_agrees_ext4_steps.
Qed.

Lemma squashfs_steps_write_tmp root sub out :
  keeps (build_agrees_outside [tmp_name out])
        (Run.unlink_stale (tmp_name out) ;; Run.mksquashfs root sub (tmp_name out)).
Proof.
  apply keeps_bind; [exact _ | apply build_agrees_unlink_stale; now left | intros _].
  apply build_agrees_mksquashfs.
Qed.

Lemma bind_ok {S A B} (m : St S A) (k : A -> St S B) s b s2 :
  bind m k s = (Ok b, s2) -> exists a s1, m s = (Ok a, s1) /\ k a s1 = (Ok b, s2).
Proof.
  unfold bind. destruct (m s) as [[a|e] s1]; [|discriminate].
  intros H. now exists a, s1.
Qed.

Lemma try_finally_do_ok {S A} (m : St S A) (fin : St S unit) s a s2 :
  try_finally_do m fin s = (Ok a, s2) ->
  exists s1, m s = (Ok a, s1) /\ snd (fin s1) = s2.
Proof.
  unfold try_finally_do. destruct (m s) as [r s1].
  destruct (fin s1) as [[u|e] s3] eqn:E; [|discriminate].
  intros H. inversion H; subst. exists s1. now rewrite E.
Qed.

(** Unmounting and removing a mount point leaves the build directory,
    the host files and the loop devices alone. *)
Lemma teardown_frame mnt s :
  let s' := snd ((umount mnt ;; rmtree_tmp mnt) s) in
  build s' = build s /\ host s' = host s /\ loops s' = loops s.
Proof. cbv zeta. repeat split. Qed.

Lemma rsync_image_ok root sub label size tmp s a s1 :
  Run.rsync_image root sub label size tmp s = (Ok a, s1) ->
  lookup tmp (build s1) = Some (mkFile (Ext4 label size (Filled sub)) Run.ext4_magic).
Proof.
  unfold Run.rsync_image, bind, next_outcome, gets.
  destruct (plan s) as [|[k|] rest]; simpl;
    match goal with
    | |- context [source_listing ?r ?p ?w] => destruct (source_listing r p w)
    end; simpl; try discriminate;
    intros H; inversion H; subst; simpl; apply lookup_upsert_same.
Qed.

Lemma mksquashfs_ok root sub tmp s a s1 :
  Run.mksquashfs root sub tmp s = (Ok a, s1) ->
  lookup tmp (build s1)
  = Some (mkFile (SquashfsOf sub (mksquashfs_size s)) Run.squashfs_magic).
Proof.
  unfold Run.mksquashfs, bind, next_outcome, gets.
  destruct (plan s) as [|[k|] rest]; simpl;
    match goal with
    | |- context [source_node ?r ?p ?w] => destruct (source_node r p w)
    end; simpl; try discriminate;
    intros H; inversion H; subst; simpl; apply lookup_upsert_same.
Qed.

(** When the steps of [build_ext4_image] all succeed, the temporary file
    is the formatted image of the computed size, filled from the source. *)
Lemma ext4_steps_ok root sub out label w a w1 :
  ext4_steps root sub out label w = (Ok a, w1) ->
  exists D,
    fst (Run.du_bytes root sub w) = Ok D /\
    lookup (tmp_name out) (build w1)
    = Some (mkFile (Ext4 label (ext4_image_size D) (Filled sub)) Run.ext4_magic).
Proof.
  unfold ext4_steps. intros H.
  apply bind_ok in H as (D & s0 & Hdu & H). exists D. split; [now rewrite Hdu|].
  do 3 (apply bind_ok in H as (? & ? & _ & H)).
  apply bind_ok in H as (mnt & ? & _ & H).
  apply try_finally_do_ok in H as (s1 & Hbody & Hfin).
  apply bind_ok in Hbody as (? & ? & _ & Hrs).
  apply rsync_image_ok in Hrs.
  destruct (teardown_frame mnt s1) as (Hb & _). cbv zeta in Hb.
  rewrite Hfin in Hb. now rewrite Hb.
Qed.

Lemma squashfs_steps_ok root sub out w a w1 :
  (Run.unlink_stale (tmp_name out) ;; Run.mksquashfs root sub (tmp_name out)) w = (Ok a, w1) ->
  lookup (tmp_name out) (build w1)
  = Some (mkFile (SquashfsOf sub (mksquashfs_size w)) Run.squashfs_magic).
Proof.
  intros H. apply bind_ok in H as (u & s0 & Hu & H).
  apply mksquashfs_ok in H. rewrite H.
  assert (Hsz : mksquashfs_size s0 = mksquashfs_size w).
  { revert Hu. unfold Run.unlink_stale, bind, gets, when, modify, ret.
    destruct (is_some (lookup (tmp_name out) (build w))); intros Hu; inversion Hu; reflexivity. }
  now rewrite Hsz.
Qed.

(** A tool that fails makes the builder raise. *)
Lemma build_squashfs_tool_failure root sub out w k rest :
  plan w = Some k :: rest ->
  is_ok (fst (Run.build_squashfs root sub out w)) = false.
Proof.
  intros Hp. unfold Run.build_squashfs, Run.unlink_stale, Run.mksquashfs.
  unfold bind, gets, when, modify, ret, next_outcome, raise, Run.write, modify.
  destruct (is_some (lookup (tmp_name out) (build w))); simpl; rewrite Hp; simpl;
    match goal with
    | |- context [source_node ?r ?p ?w] => destruct (source_node r p w)
    end; reflexivity.
Qed.

Lemma build_ext4_image_tool_failure root sub out label w d o2 o3 o4 rest :
  plan w = d :: o2 :: o3 :: o4 :: rest ->
  o2 <> None \/ o3 <> None \/ o4 <> None ->
  is_ok (fst (Run.build_ext4_image root sub out label w)) = false.
Proof.
  intros Hp Hf.
  destruct (Run.build_ext4_image root sub out label w) as [[[]|e] w'] eqn:E; [|reflexivity].
  exfalso. rewrite build_ext4_image_commits in E.
  apply bind_ok in E as (u & w1 & E & _). unfold ext4_steps in E.
  apply bind_ok in E as (D & s0 & Hdu & E).
  assert (H0 : plan s0 = o2 :: o3 :: o4 :: rest).
  { revert Hdu. unfold Run.du_bytes, bind, next_outcome, gets. rewrite Hp. simpl.
    destruct d; destruct (source_node root sub _) as [[?|?|?|]|];
      intros H; inversion H; reflexivity. }
  apply bind_ok in E as (? & s1 & Hu & E).
  assert (H1 : plan s1 = plan s0).
  { revert Hu. unfold Run.unlink_stale, bind, gets, when, modify, ret.
    destruct (is_some _); intros H; inversion H; reflexivity. }
  apply bind_ok in E as (? & s2 & Hw & E).
  assert (H2 : plan s2 = plan s1) by (inversion Hw; reflexivity).
  apply bind_ok in E as (? & s3 & Hm & E).
  assert (H3 : o2 = None /\ plan s3 = o3 :: o4 :: rest).
  { revert Hm. unfold Run.mkfs_ext4, bind, next_outcome, Run.write, modify, raise.
    rewrite H2, H1, H0. destruct o2; simpl; [discriminate|].
    intros H; inversion H; auto. }
  destruct H3 as [-> H3].
  apply bind_ok in E as (mnt & s4 & Hd & E).
  assert (H4 : plan s4 = plan s3) by (inversion Hd; reflexivity).
  apply try_finally_do_ok in E as (s5 & E & _).
  apply bind_ok in E as (? & s6 & Hmo & E).
  assert (H6 : o3 = None /\ plan s6 = o4 :: rest).
  { revert Hmo. unfold mount_rw_loop, bind, issue, modify, next_outcome, gets, raise.
    simpl. rewrite H4, H3. simpl. destruct o3; [discriminate|].
    destruct (is_some _); [|discriminate]. intros H; inversion H; auto. }
  destruct H6 as [-> H6].
  assert (H7 : o4 = None).
  { revert E. unfold Run.rsync_image, bind, next_outcome, gets, raise, Run.write, modify.
    rewrite H6. simpl. destruct o4; [|reflexivity].
    destruct (source_listing _ _ _); discriminate. }
  subst. intuition congruence.
Qed.

(** What a successful [build_ext4_image] leaves at the final path. *)
Lemma build_ext4_image_result root sub out label w :
  fst (Run.build_ext4_image root sub out label w) = Ok tt ->
  exists D, fst (Run.du_bytes root sub w) = Ok D /\
    lookup out (build (snd (Run.build_ext4_image root sub out label w)))
    = Some (mkFile (Ext4 label (ext4_image_size D) (Filled sub)) Run.ext4_magic).
Proof.
  intros Hok.
  pose proof (commit_last _ out w (ext4_steps_write_tmp root sub out label)) as He.
  cbv zeta in He. rewrite <- build_ext4_image_commits in He.
  destruct He as (_ & _ & He). destruct (He Hok) as (w1 & a & Hst & Hout & _).
  apply ext4_steps_ok in Hst. destruct Hst as (D & HD & Hf).
  exists D. split; [exact HD | now rewrite Hout].
Qed.

(** C4: for every data size D the size computed for the image is the
    multiple of 64 MiB next at or above max(D + D/6 + 64 MiB, 256 MiB),
    with D/6 the floor quotient; for D = 0 it is exactly 256 MiB, never
    zero; and the image file a successful [build_ext4_image] produces has
    exactly that size, D being what [du_bytes] returned. *)
Theorem ext4_image_size_next_multiple :
  forall D : Z,
    let MiB := 1048576 in
    let floor := Z.max (D + D / 6 + 64 * MiB) (256 * MiB) in
    (exists q, ext4_image_size D = q * (64 * MiB)) /\
    floor <= ext4_image_size D < floor + 64 * MiB /\
    ext4_image_size 0 = 256 * MiB /\
    0 < ext4_image_size D /\
    (forall w root_tree src_dir out_file label,
        fst (Run.du_bytes root_tree src_dir w) = Ok D ->
        fst (Run.build_ext4_image root_tree src_dir out_file label w) = Ok tt ->
        exists f,
          lookup out_file (build (snd (Run.build_ext4_image root_tree src_dir out_file label w)))
          = Some f /\
          st_size f = ext4_image_size D).
Proof.
  intros D MiB floor.
  assert (Hs : ext4_image_size D = round_up floor (64 * MiB)) by reflexivity.
  destruct (round_up_spec floor (64 * MiB) ltac:(unfold MiB; lia)) as [Hq Hb].
  split; [now rewrite Hs|]. split; [now rewrite Hs|]. split; [reflexivity|].
  split; [rewrite Hs; unfold floor, MiB in *; lia|].
  intros w root sub out label HD Hok.
  destruct (build_ext4_image_result root sub out label w Hok) as (D' & HD' & Hf).
  rewrite HD in HD'. inversion HD'; subst D'.
  eexists. split; [exact Hf | reflexivity].
Qed.

Lemma ext4_image_size_next_multiple_witness :
  exists f,
    lookup "var-A.img"
      (build (snd (Run.build_ext4_image "/mnt/steamOS" ["var"] "var-A.img" "var-A"
                     (Samples.machine []))))
    = Some f /\
    st_size f = 268435456.
Proof.
  destruct (ext4_image_size_next_multiple 12290) as (_ & _ & _ & _ & H).
  apply (H (Samples.machine []) "/mnt/steamOS" ["var"] "var-A.img" "var-A");
    vm_compute; reflexivity.
Defined.

Lemma not_ok_false {A} (r : res A) : is_ok r = false -> forall a, r <> Ok a.
Proof. destruct r; simpl; congruence. Qed.

(** C5: both builders write to [<out_file>.tmp], a name other than the
    final one, and rename it to the final path as their last step.  A
    failing compressor, formatter, mount or populate-copy makes the
    builder raise; a builder that raises leaves the final path as it was;
    nothing but the temporary and the final name ever changes; and a
    builder that returns leaves the whole artifact at the final path and
    nothing at the temporary one. *)
Theorem builders_rename_only_on_success :
  forall (w : world) (root_tree : string) (src_dir : srcpath) (out_file label : string),
    let tmp := tmp_name out_file in
    let sq := Run.build_squashfs root_tree src_dir out_file w in
    let ext := Run.build_ext4_image root_tree src_dir out_file label w in
    tmp <> out_file /\
    (forall k rest, plan w = Some k :: rest -> fst sq <> Ok tt) /\
    (forall d o2 o3 o4 rest,
        plan w = d :: o2 :: o3 :: o4 :: rest ->
        o2 <> None \/ o3 <> None \/ o4 <> None -> fst ext <> Ok tt) /\
    (fst sq <> Ok tt -> lookup out_file (build (snd sq)) = lookup out_file (build w)) /\
    (fst ext <> Ok tt -> lookup out_file (build (snd ext)) = lookup out_file (build w)) /\
    (forall n, n <> out_file -> n <> tmp ->
               lookup n (build (snd sq)) = lookup n (build w) /\
               lookup n (build (snd ext)) = lookup n (build w)) /\
    (fst sq = Ok tt ->
       lookup out_file (build (snd sq))
       = Some (mkFile (SquashfsOf src_dir (mksquashfs_size w)) Run.squashfs_magic) /\
       lookup tmp (build (snd sq)) = None) /\
    (fst ext = Ok tt ->
       exists D, fst (Run.du_bytes root_tree src_dir w) = Ok D /\
         lookup out_file (build (snd ext))
         = Some (mkFile (Ext4 label (ext4_image_size D) (Filled src_dir)) Run.ext4_magic) /\
         lookup tmp (build (snd ext)) = None).
Proof.
  intros w root sub out label. cbv zeta.
  pose proof (commit_last _ out w (squashfs_steps_write_tmp root sub out)) as Hsq.
  pose proof (commit_last _ out w (ext4_steps_write_tmp root sub out label)) as Hext.
  cbv zeta in Hsq, Hext.
  rewrite <- build_squashfs_commits in Hsq.
  rewrite <- build_ext4_image_commits in Hext.
  destruct Hsq as (Hs1 & Hs2 & Hs3). destruct Hext as (He1 & He2 & He3).
  split; [apply tmp_name_fresh|].
  split; [intros k rest Hp; now apply not_ok_false, (build_squashfs_tool_failure _ _ _ _ k rest)|].
  split; [intros d o2 o3 o4 rest Hp Hf;
          now apply not_ok_false, (build_ext4_image_tool_failure _ _ _ _ _ d o2 o3 o4 rest)|].
  split; [exact Hs2|]. split; [exact He2|].
  split; [intros n H1 H2; split; [now apply Hs1 | now apply He1]|].
  split.
  - intros Hok. destruct (Hs3 Hok) as (w1 & a & Hst & Hout & _ & Htmp).
    split; [|exact Htmp]. rewrite Hout. now apply squashfs_steps_ok in Hst.
  - intros Hok. destruct (He3 Hok) as (w1 & a & Hst & Hout & _ & Htmp).
    apply ext4_steps_ok in Hst. destruct Hst as (D & HD & Hf).
    exists D. repeat split; [exact HD | now rewrite Hout | exact Htmp].
Qed.

Lemma builders_rename_only_on_success_witness :
  lookup "rootfs-A.img" (build (snd (Run.build_ext4_image "/mnt/steamOS" [] "rootfs-A.img"
                                      "rootfs-A" Samples.mkfs_fails)))
  = lookup "rootfs-A.img" (build Samples.mkfs_fails).
Proof.
  destruct (builders_rename_only_on_success Samples.mkfs_fails "/mnt/steamOS" []
              "rootfs-A.img" "rootfs-A") as (_ & _ & _ & _ & H & _).
  apply H. intros E. vm_compute in E. discriminate E.
Defined.

(* ================================================================== *)
(** * The finalizer *)

Lemma drop_first_absent {A} nm (d : list (string * A)) :
  lookup nm d = None -> drop_first nm d = d.
Proof.
  induction d as [|[n x] d IH]; simpl; [reflexivity|].
  destruct (String.eqb n nm); [discriminate|]. intros H. now rewrite IH.
Qed.

(** The loop over the tracked mount points: one [umount] each, in the
    order of the list, whatever is or is not mounted. *)
Lemma umount_each l w :
  let r := for_each l (fun m => try_except_pass (umount m)) w in
  fst r = Ok tt /\
  calls (snd r) = (calls w ++ map Umount l)%list /\
  loops (snd r) = loops w /\ build (snd r) = build w /\ host (snd r) = host w /\
  ((forall m, In m l -> lookup m (mounted w) = None) -> mounted (snd r) = mounted w).
Proof.
  revert w. induction l as [|m l IH]; intros w; cbv zeta.
  - simpl. rewrite app_nil_r. auto 10.
  - change (for_each (m :: l) (fun m => try_except_pass (umount m)) w)
      with (for_each l (fun m => try_except_pass (umount m))
              (upd_mounted (drop_first m) (upd_calls (fun c => (c ++ [Umount m])%list) w))).
    destruct (IH (upd_mounted (drop_first m) (upd_calls (fun c => (c ++ [Umount m])%list) w)))
      as (H1 & H2 & H3 & H4 & H5 & H6).
    split; [exact H1|]. split; [rewrite H2; simpl; now rewrite <- app_assoc|].
    split; [exact H3|]. split; [exact H4|]. split; [exact H5|].
    intros Habs. simpl in H6.
    rewrite (drop_first_absent m (mounted w)) in H6 by (apply Habs; now left).
    apply H6. intros m' Hm'. apply Habs. now right.
Qed.

(** The loop over the tracked loop devices. *)
Lemma detach_each l w :
  let r := for_each l (fun ld => try_except_pass (Run.losetup_d ld)) w in
  fst r = Ok tt /\
  calls (snd r) = (calls w ++ map LosetupDetach l)%list /\
  mounted (snd r) = mounted w /\ build (snd r) = build w /\ host (snd r) = host w /\
  ((forall ld, In ld l -> lookup ld (loops w) = None) -> loops (snd r) = loops w).
Proof.
  revert w. induction l as [|ld l IH]; intros w; cbv zeta.
  - simpl. rewrite app_nil_r. auto 10.
  - change (for_each (ld :: l) (fun ld => try_except_pass (Run.losetup_d ld)) w)
      with (for_each l (fun ld => try_except_pass (Run.losetup_d ld))
              (upd_loops (drop_first ld) (upd_calls (fun c => (c ++ [LosetupDetach ld])%list) w))).
    destruct (IH (upd_loops (drop_first ld) (upd_calls (fun c => (c ++ [LosetupDetach ld])%list) w)))
      as (H1 & H2 & H3 & H4 & H5 & H6).
    split; [exact H1|]. split; [rewrite H2; simpl; now rewrite <- app_assoc|].
    split; [exact H3|]. split; [exact H4|]. split; [exact H5|].
    intros Habs. simpl in H6.
    rewrite (drop_first_absent ld (loops w)) in H6 by (apply Habs; now left).
    apply H6. intros l' Hl'. apply Habs. now right.
Qed.

(** The finalizer as one state change. *)
Lemma cleanup_unfolded t w :
  Run.cleanup t w =
  Run.rmtree_workdir (workdir t)
    (snd (for_each (rev (tloops t)) (fun ld => try_except_pass (Run.losetup_d ld))
       (snd (for_each (rev (mounts t)) (fun m => try_except_pass (umount m)) w)))).
Proof.
  unfold Run.cleanup, bind.
  destruct (umount_each (rev (mounts t)) w) as (H1 & _).
  destruct (for_each (rev (mounts t)) _ w) as [r1 w1]. simpl in H1. subst r1.
  cbn [snd]. destruct (detach_each (rev (tloops t)) w1) as (H2 & _).
  destruct (for_each (rev (tloops t)) _ w1) as [r2 w2]. simpl in H2. subst r2.
  reflexivity.
Qed.

(** One run of the finalizer. *)
Lemma cleanup_once t w :
  let r := Run.cleanup t w in
  fst r = Ok tt /\
  calls (snd r) =
    (calls w ++ map Umount (rev (mounts t)) ++ map LosetupDetach (rev (tloops t))
             ++ [Rmtree (workdir t)])%list /\
  build (snd r) = [] /\ host (snd r) = host w /\
  ((forall m, In m (mounts t) -> lookup m (mounted w) = None) ->
   (forall ld, In ld (tloops t) -> lookup ld (loops w) = None) ->
   mounted (snd r) = mounted w /\ loops (snd r) = loops w).
Proof.
  cbv zeta. rewrite cleanup_unfolded.
  destruct (umount_each (rev (mounts t)) w) as (_ & Hc1 & Hl1 & _ & Hh1 & Hm1).
  set (w1 := snd (for_each (rev (mounts t)) _ w)) in *.
  destruct (detach_each (rev (tloops t)) w1) as (_ & Hc2 & Hm2 & _ & Hh2 & Hl2).
  set (w2 := snd (for_each (rev (tloops t)) _ w1)) in *.
  cbn [Run.rmtree_workdir bind issue modify fst snd upd_build upd_calls
       build host calls mounted loops].
  split; [reflexivity|]. split; [rewrite Hc2, Hc1; now rewrite <- !app_assoc|].
  split; [reflexivity|]. split; [congruence|].
  intros Hm Hl. split.
  - rewrite Hm2. apply Hm1. intros m Hin. apply Hm. now apply in_rev.
  - rewrite Hl2; [exact Hl1|]. intros ld Hin. rewrite Hl1. apply Hl. now apply in_rev.
Qed.

(** C9: on every invocation and in every state the finalizer issues
    exactly these commands, in this order: an unmount for every tracked
    mount point, last registered first; a detach for every tracked loop
    device, last registered first; the removal of the working directory.
    No step raises and none is skipped, whether or not an earlier one
    found its target.  Running it again after a run that released
    everything it tracked issues the same commands and changes neither
    the mounts, nor the loop devices, nor any file. *)
Theorem cleanup_tears_down_in_reverse :
  forall (t : tracker) (w : world),
    let r := Run.cleanup t w in
    let again := Run.cleanup t (snd r) in
    fst r = Ok tt /\
    calls (snd r) =
      (calls w ++ map Umount (rev (mounts t)) ++ map LosetupDetach (rev (tloops t))
               ++ [Rmtree (workdir t)])%list /\
    build (snd r) = [] /\ host (snd r) = host w /\
    fst again = Ok tt /\
    ((forall m, In m (mounts t) -> lookup m (mounted (snd r)) = None) ->
     (forall ld, In ld (tloops t) -> lookup ld (loops (snd r)) = None) ->
     mounted (snd again) = mounted (snd r) /\ loops (snd again) = loops (snd r) /\
     build (snd again) = build (snd r) /\ host (snd again) = host (snd r)).
Proof.
  intros t w. cbv zeta.
  destruct (cleanup_once t w) as (H1 & H2 & H3 & H4 & _).
  destruct (cleanup_once t (snd (Run.cleanup t w))) as (G1 & _ & G3 & G4 & G5).
  repeat split; auto; try (now apply G5); congruence.
Qed.

Lemma cleanup_tears_down_in_reverse_witness :
  loops (snd (Run.cleanup Samples.tracked (snd (Run.cleanup Samples.tracked Samples.extracting))))
  = loops (snd (Run.cleanup Samples.tracked Samples.extracting)).
Proof.
  destruct (cleanup_tears_down_in_reverse Samples.tracked Samples.extracting)
    as (_ & _ & _ & _ & _ & H).
  apply H; simpl; intros x Hx; repeat (destruct Hx as [<-|Hx]; [reflexivity|]); destruct Hx.
Defined.

(* ================================================================== *)
(** * What a run leaves alone *)

Lemma prefix_refl_app (a b : string) : String.prefix a (a ++ b) = true.
Proof.
  induction a as [|c a IH]; simpl; [now destruct b|].
  destruct (ascii_dec c c); [exact IH | contradiction].
Qed.

Lemma prefix_loop_p (l s : string) : String.prefix (l ++ "p") (l ++ String "p" s) = true.
Proof.
  induction l as [|c l IH]; simpl.
  - now destruct s.
  - destruct (ascii_dec c c); [exact IH | contradiction].
Qed.

(** With the loop device of the run at the head of the table, the
    partitions the run names are those of its own image. *)
Lemma loop_of_head ld img s w :
  hd_error (loops w) = Some (ld, img) ->
  loop_of (ld ++ String "p" s) w = Some (ld, img).
Proof.
  unfold loop_of. destruct (loops w) as [|[l i] rest]; simpl; [discriminate|].
  intros H. inversion H; subst. now rewrite prefix_loop_p.
Qed.

Lemma host_old_preorder old :
  PreOrder (fun w w' : world => lookup old (host w') = lookup old (host w)).
Proof. split; [intros w; reflexivity | intros a b c H1 H2; congruence]. Qed.
#[local] Existing Instance host_old_preorder.

Lemma old_safe_preorder ld out old : PreOrder (old_safe ld out old).
Proof.
  split.
  - intros w. split; [reflexivity | intros _; reflexivity].
  - intros a b c [L1 H1] [L2 H2]. split; [congruence|].
    intros Hhd. rewrite H2 by (now rewrite L1). now apply H1.
Qed.
#[local] Existing Instance old_safe_preorder.

Lemma old_safe_on_part {A} ld out old s (body : St part A) :
  old <> out -> keeps (old_safe ld out old) (on_part (ld ++ String "p" s) body).
Proof.
  intros Hne w. unfold on_part.
  destruct (get_part (ld ++ String "p" s) w) as [p|]; [|apply old_safe_preorder].
  destruct (body p) as [r p']. cbn [snd]. unfold put_part.
  split.
  - destruct (loop_of _ w) as [[l img]|]; [|reflexivity].
    destruct (lookup img (host w)) as [[?|boot parts|?|? ?]|]; try reflexivity.
    destruct (partition_of l _ parts) as [[k q]|]; reflexivity.
  - intros Hhd. rewrite (loop_of_head ld out s w Hhd).
    destruct (lookup out (host w)) as [[?|boot parts|?|? ?]|]; try reflexivity.
    destruct (partition_of ld _ parts) as [[k q]|]; [|reflexivity].
    simpl. apply lookup_upsert_other. exact Hne.
Qed.

Ltac old_prim ld out old Hne :=
  idtac;
  match goal with
  | |- keeps _ (modify _) =>
      apply keeps_modify; intros ?; split; [reflexivity | intros _; reflexivity]
  | |- keeps _ next_outcome =>
      let w := fresh "w" in
      intros w; unfold next_outcome; destruct (plan w);
      (split; [reflexivity | intros _; reflexivity])
  | |- keeps _ (mkdtemp _) => intros ?; split; [reflexivity | intros _; reflexivity]
  | |- keeps _ (on_part _ _) => apply (old_safe_on_part ld out old); exact Hne
  | |- keeps _ (Run.write _ _) => unfold Run.write
  | |- keeps _ (print _) => unfold print
  | |- keeps _ (issue _) => unfold issue
  | |- keeps _ (Run.rename _ _) =>
      let w := fresh "w" in
      intros w; unfold Run.rename; destruct (lookup _ (build w));
      (split; [reflexivity | intros _; reflexivity])
  end.

Ltac unfold_helpers :=
  unfold Run.detect_existing_inner, Run.replace_nested_image_in_partition,
    Run.wipe_and_fill_partition_direct, Run.build_squashfs, Run.build_ext4_image,
    Run.du_bytes, Run.unlink_stale, Run.write, Run.mksquashfs, Run.mkfs_ext4,
    Run.rsync_image, in_partition, mount_rw, mount_rw_loop, umount, rmtree_tmp,
    print, issue.

(** The three replacement steps write to the image of the run only. *)
Lemma replace_rootfs_safe ld out old root :
  old <> out -> keeps (old_safe ld out old) (Run.replace_rootfs root (ld ++ "p3")).
Proof.
  intros Hne. unfold Run.replace_rootfs. unfold_helpers.
  keeps_split ltac:(old_prim ld out old Hne).
Qed.

Lemma replace_subtree_safe ld out old sub s preferred default label banner root :
  old <> out ->
  keeps (old_safe ld out old)
        (Run.replace_subtree sub (ld ++ String "p" s) preferred default label banner root).
Proof.
  intros Hne. unfold Run.replace_subtree. unfold_helpers.
  keeps_split ltac:(old_prim ld out old Hne).
Qed.

Lemma steps_after_attach_safe ld out old root iv ih :
  old <> out ->
  keeps (old_safe ld out old)
        (Run.replace_rootfs root (ld ++ "p3") ;;
         Run.replace_var iv root (ld ++ "p4") ;;
         Run.replace_home ih root (ld ++ "p5") ;;
         print "[+] Sync and detach ..." ;;
         print "[OK] Repack complete:" ;;
         print "NOTE: ESP/EFI partitions were kept as-is from the old superimage.").
Proof.
  intros Hne.
  apply keeps_bind; [exact _ | now apply replace_rootfs_safe | intros _].
  apply keeps_bind; [exact _ | | intros _].
  { unfold Run.replace_var.
    keeps_split ltac:(first [old_prim ld out old Hne | now apply replace_subtree_safe]). }
  apply keeps_bind; [exact _ | | intros _].
  { unfold Run.replace_home.
    keeps_split ltac:(first [old_prim ld out old Hne | now apply replace_subtree_safe]). }
  keeps_split ltac:(old_prim ld out old Hne).
Qed.

(** Copying a file onto itself is refused before anything is written. *)
Lemma copy2_same_file old w : is_ok (fst (Run.copy2 old old w)) = false.
Proof.
  unfold Run.copy2, bind, gets, raise.
  destruct (lookup old (host w)) as [[t|boot parts|c|whole k]|]; cbn [fst snd is_ok];
    try reflexivity; now rewrite String.eqb_refl.
Qed.

(** The copy writes one file, which is not its source. *)
Lemma copy2_keeps_source old out :
  keeps (fun w w' => lookup old (host w') = lookup old (host w)) (Run.copy2 old out).
Proof.
  unfold Run.copy2.
  keeps_split ltac:(idtac;
    match goal with
    | |- keeps _ next_outcome =>
        let w := fresh "w" in
        intros w; unfold next_outcome; destruct (plan w); reflexivity
    | H : String.eqb old ?dst = false |- keeps _ (modify (upd_host (upsert ?dst _))) =>
        apply keeps_modify; intros ?; simpl; apply lookup_upsert_other;
        now apply String.eqb_neq
    end).
Qed.

Lemma keeps_bind_ok {S A B} (R : S -> S -> Prop) {HR : PreOrder R}
      (m : St S A) (k : A -> St S B) :
  keeps R m ->
  (forall a s s1, m s = (Ok a, s1) -> R s1 (snd (k a s1))) ->
  keeps R (bind m k).
Proof.
  intros Hm Hk s. unfold bind. specialize (Hm s).
  destruct (m s) as [[a|e] s1] eqn:E; simpl in *; [|exact Hm].
  etransitivity; [exact Hm | now apply (Hk a s)].
Qed.

Lemma rel_bind_at {S A B} (R : S -> S -> Prop) {HR : PreOrder R}
      (m : St S A) (k : A -> St S B) s :
  R s (snd (m s)) ->
  (forall a s1, m s = (Ok a, s1) -> R s1 (snd (k a s1))) ->
  R s (snd (bind m k s)).
Proof.
  intros Hm Hk. unfold bind.
  destruct (m s) as [[a|e] s1] eqn:E; simpl in *; [|exact Hm].
  etransitivity; [exact Hm | now apply Hk].
Qed.

(** A successful attach puts the new device, backed by the image, at
    the head of the table, and writes no file. *)
Lemma losetup_attach_head img w dev w1 :
  Run.losetup_attach img w = (Ok dev, w1) ->
  hd_error (loops w1) = Some (dev, img) /\ host w1 = host w.
Proof.
  unfold Run.losetup_attach, bind, issue, modify, next_outcome, gets, raise, ret.
  cbn [fst snd plan host upd_calls].
  destruct (plan w) as [|[k|] rest]; cbn [fst snd plan host upd_calls set_plan];
    destruct (lookup img (host w)) as [[?|? ?|?|? ?]|];
    try discriminate; intros H; inversion H; subst; split; reflexivity.
Qed.

Ltac host_prim :=
  idtac;
  match goal with
  | |- keeps _ (modify _) => apply keeps_modify; intros ?; reflexivity
  | |- keeps _ next_outcome =>
      let w := fresh "w" in
      intros w; unfold next_outcome; destruct (plan w); reflexivity
  | |- keeps _ (mkdtemp _) => intros ?; reflexivity
  | |- keeps _ (print _) => unfold print
  | |- keeps _ (issue _) => unfold issue
  | |- keeps _ (Run.register _) => unfold Run.register
  | |- keeps _ (Run.copy2 _ _) => apply copy2_keeps_source
  end.

Lemma losetup_attach_keeps_host old img :
  keeps (fun w w' => lookup old (host w') = lookup old (host w)) (Run.losetup_attach img).
Proof. unfold Run.losetup_attach. keeps_split host_prim. Qed.

Lemma track_loop_frame ld w :
  host (snd (Run.track_loop ld w)) = host w /\ loops (snd (Run.track_loop ld w)) = loops w.
Proof. unfold Run.track_loop, modify. simpl. destruct (atexit w); auto. Qed.

(** What it takes for a relation to hold across [repack]: it holds
    across the steps up to the attach, and from a state in which the
    copy has succeeded and the attach has just returned the device, to
    the end. *)
Lemma repack_keeps (R : world -> world -> Prop) {HR : PreOrder R} old root out iv ih :
  (forall prefix, keeps R (mkdtemp prefix)) ->
  (forall f, keeps R (modify (upd_build f))) ->
  (forall t, keeps R (modify (set_atexit t))) ->
  (forall line, keeps R (print line)) ->
  keeps R (Run.copy2 old out) ->
  keeps R (Run.losetup_attach out) ->
  (forall s0 u s dev s1,
      Run.copy2 old out s0 = (Ok u, s) ->
      Run.losetup_attach out s = (Ok dev, s1) ->
      R s1 (snd ((Run.track_loop dev ;;
                  Run.replace_rootfs root (dev ++ "p3") ;;
                  Run.replace_var iv root (dev ++ "p4") ;;
                  Run.replace_home ih root (dev ++ "p5") ;;
                  print "[+] Sync and detach ..." ;;
                  print "[OK] Repack complete:" ;;
                  print "NOTE: ESP/EFI partitions were kept as-is from the old superimage.")
                   s1))) ->
  keeps R (Run.repack old root out iv ih).
Proof.
  intros Htmp Hbuild Hreg Hprint Hcopy Hattach Hrest. unfold Run.repack.
  apply keeps_bind; [exact _ | apply keeps_gets; exact _ | intros old_there].
  destruct (negb old_there); [apply keeps_raise; exact _|].
  apply keeps_bind; [exact _ | apply keeps_gets; exact _ | intros root_there].
  destruct (negb root_there); [apply keeps_raise; exact _|].
  apply keeps_bind; [exact _ | apply Htmp | intros workdir].
  apply keeps_bind; [exact _ | apply Hbuild | intros _].
  apply keeps_bind; [exact _ | apply Hreg | intros _].
  apply keeps_bind; [exact _ | apply Hprint | intros _].
  apply keeps_bind_ok; [exact _ | apply Hcopy | intros u s0 s Hc].
  apply rel_bind_at; [exact _ | apply Hattach | intros dev s1 Hat].
  destruct (String.eqb dev ""); [cbn [raise snd]; reflexivity|].
  now apply (Hrest s0 u s dev s1).
Qed.

Lemma main_keeps (R : world -> world -> Prop) {HR : PreOrder R} old root out iv ih :
  keeps R (Run.repack old root out iv ih) ->
  (forall t, keeps R (Run.cleanup t)) ->
  keeps R (Run.main old root out iv ih).
Proof.
  intros Hr Hc. unfold Run.main, Run.at_exit.
  apply keeps_try_finally_do; [exact _ | exact Hr |].
  apply keeps_bind; [exact _ | apply keeps_gets; exact _ | intros [t|]];
    [apply Hc | apply keeps_ret; exact _].
Qed.

(** The whole run, finalizer included, leaves the old image as it was. *)
Lemma main_keeps_old old root out iv ih :
  keeps (fun w w' => lookup old (host w') = lookup old (host w))
        (Run.main old root out iv ih).
Proof.
  apply main_keeps; [exact _ | |].
  - apply repack_keeps;
      [ exact _ | intros; host_prim | intros; host_prim | intros; host_prim
      | intros; keeps_split host_prim | apply copy2_keeps_source
      | apply losetup_attach_keeps_host | ].
    intros s0 u s dev s1 Hc Hat.
    destruct (String.eqb_spec old out) as [<-|Hne].
    + pose proof (copy2_same_file old s0) as Hf. rewrite Hc in Hf. discriminate Hf.
    + destruct (losetup_attach_head _ _ _ _ Hat) as [Hhd _].
      destruct (track_loop_frame dev s1) as [Hh Hl].
      unfold bind at 1.
      destruct (Run.track_loop dev s1) as [[[]|e] s2] eqn:Et; cbn [snd] in *;
        [|now rewrite Hh].
      destruct (steps_after_attach_safe dev out old root iv ih Hne s2) as [_ Hs].
      rewrite Hs; [now rewrite Hh | now rewrite Hl].
  - intros t w. destruct (cleanup_once t w) as (_ & _ & _ & H & _). now rewrite H.
Qed.

(* ================================================================== *)
(** * The commands a run issues *)

Lemma trace_within_preorder ld ok : PreOrder (trace_within ld ok).
Proof.
  split.
  - intros w H. split; [exact H|]. exists []. split; [now rewrite app_nil_r | constructor].
  - intros a b c Hab Hbc Ha. destruct (Hab Ha) as (Hb & e1 & E1 & F1).
    destruct (Hbc Hb) as (Hc & e2 & E2 & F2). split; [exact Hc|].
    exists (e1 ++ e2)%list. split; [rewrite E2, E1; now rewrite app_assoc|].
    apply Forall_app. now split.
Qed.
#[local] Existing Instance trace_within_preorder.

Lemma trace_within_silent {A} ld ok (m : St world A) :
  (forall w, calls (snd (m w)) = calls w /\ next_loop (snd (m w)) = next_loop w) ->
  keeps (trace_within ld ok) m.
Proof.
  intros H w Hl. destruct (H w) as [Hc Hn]. split; [congruence|].
  exists []. split; [now rewrite app_nil_r | constructor].
Qed.

Lemma trace_within_issue ld (ok : call -> Prop) c :
  ok c -> keeps (trace_within ld ok) (issue c).
Proof.
  intros Hok w Hl. split; [exact Hl|]. exists [c]. split; [reflexivity|].
  constructor; [exact Hok | constructor].
Qed.

Lemma on_part_silent {A} dev (body : St part A) w :
  calls (snd (on_part dev body w)) = calls w /\
  next_loop (snd (on_part dev body w)) = next_loop w.
Proof.
  unfold on_part. destruct (get_part dev w) as [p|]; [|auto].
  destruct (body p) as [r p']. cbn [snd]. unfold put_part.
  destruct (loop_of dev w) as [[l img]|]; [|auto].
  destruct (lookup img (host w)) as [[?|boot parts|?|? ?]|]; auto.
  destruct (partition_of l dev parts) as [[k q]|]; auto.
Qed.

(** [solve_ok] proves that a call is allowed. *)
Ltac trace_prim solve_ok :=
  idtac;
  match goal with
  | |- keeps _ (issue _) => apply trace_within_issue; solve_ok
  | |- keeps _ (modify _) => apply trace_within_silent; intros ?; split; reflexivity
  | |- keeps _ next_outcome =>
      let w := fresh "w" in
      apply trace_within_silent; intros w; unfold next_outcome;
      destruct (plan w); split; reflexivity
  | |- keeps _ (mkdtemp _) => apply trace_within_silent; intros ?; split; reflexivity
  | |- keeps _ (on_part _ _) => apply trace_within_silent; intros ?; apply on_part_silent
  | |- keeps _ (Run.rename _ _) =>
      let w := fresh "w" in
      apply trace_within_silent; intros w; unfold Run.rename;
      destruct (lookup _ (build w)); split; reflexivity
  | |- keeps _ (Run.write _ _) => unfold Run.write
  | |- keeps _ (print _) => unfold print
  | |- keeps _ (Run.register _) => unfold Run.register
  | |- keeps _ (Run.track_loop _) =>
      let w := fresh "w" in
      apply trace_within_silent; intros w; unfold Run.track_loop, modify;
      cbn [snd]; destruct (atexit w); split; reflexivity
  end.

Ltac unfold_helpers_keep_issue :=
  unfold Run.detect_existing_inner, Run.replace_nested_image_in_partition,
    Run.wipe_and_fill_partition_direct, Run.build_squashfs, Run.build_ext4_image,
    Run.du_bytes, Run.unlink_stale, Run.write, Run.mksquashfs, Run.mkfs_ext4,
    Run.rsync_image, in_partition, mount_rw, mount_rw_loop, umount, rmtree_tmp,
    print.

Ltac solve_uses Hok := apply Hok; simpl; auto.

(** A replacement step mounts no partition but its own and attaches or
    detaches no loop device. *)
Lemma replace_rootfs_trace ld (ok : call -> Prop) root dev :
  (forall c, uses_only dev c -> ok c) ->
  keeps (trace_within ld ok) (Run.replace_rootfs root dev).
Proof.
  intros Hok. unfold Run.replace_rootfs. unfold_helpers_keep_issue.
  keeps_split ltac:(trace_prim ltac:(solve_uses Hok)).
Qed.

Lemma replace_subtree_trace ld (ok : call -> Prop) sub dev preferred default label banner root :
  (forall c, uses_only dev c -> ok c) ->
  keeps (trace_within ld ok)
        (Run.replace_subtree sub dev preferred default label banner root).
Proof.
  intros Hok. unfold Run.replace_subtree. unfold_helpers_keep_issue.
  keeps_split ltac:(trace_prim ltac:(solve_uses Hok)).
Qed.

Lemma replace_var_trace ld (ok : call -> Prop) iv root dev :
  (forall c, uses_only dev c -> ok c) ->
  keeps (trace_within ld ok) (Run.replace_var iv root dev).
Proof.
  intros Hok. unfold Run.replace_var.
  keeps_split ltac:(first [trace_prim ltac:(solve_uses Hok)
                          | now apply replace_subtree_trace]).
Qed.

Lemma replace_home_trace ld (ok : call -> Prop) ih root dev :
  (forall c, uses_only dev c -> ok c) ->
  keeps (trace_within ld ok) (Run.replace_home ih root dev).
Proof.
  intros Hok. unfold Run.replace_home.
  keeps_split ltac:(first [trace_prim ltac:(solve_uses Hok)
                          | now apply replace_subtree_trace]).
Qed.

Lemma cleanup_trace ld (ok : call -> Prop) t :
  (forall c, teardown c -> ok c) ->
  keeps (trace_within ld ok) (Run.cleanup t).
Proof.
  intros Hok. unfold Run.cleanup, Run.losetup_d, Run.rmtree_workdir, umount.
  keeps_split ltac:(trace_prim ltac:(apply Hok; exact I)).
Qed.

Lemma copy2_trace ld ok old out : keeps (trace_within ld ok) (Run.copy2 old out).
Proof. unfold Run.copy2. keeps_split ltac:(trace_prim ltac:(fail)). Qed.

(** A successful attach returns the device that was next. *)
Lemma losetup_attach_dev img w dev w1 :
  Run.losetup_attach img w = (Ok dev, w1) ->
  dev = next_loop w /\ next_loop w1 = next_loop w.
Proof.
  unfold Run.losetup_attach, bind, issue, modify, next_outcome, gets, raise, ret.
  cbn [fst snd plan host upd_calls next_loop].
  destruct (plan w) as [|[k|] rest]; cbn [fst snd plan host upd_calls set_plan next_loop];
    destruct (lookup img (host w)) as [[?|? ?|?|? ?]|];
    try discriminate; intros H; inversion H; subst; split; reflexivity.
Qed.

Lemma losetup_attach_trace ld (ok : call -> Prop) img :
  ok (LosetupAttach img) -> keeps (trace_within ld ok) (Run.losetup_attach img).
Proof.
  intros Hok. unfold Run.losetup_attach.
  keeps_split ltac:(trace_prim ltac:(exact Hok)).
Qed.

(** The commands of a whole run, given what the three replacement steps
    issue on the device the attach returned. *)
Lemma main_trace ld (ok : call -> Prop) old root out iv ih :
  ok (LosetupAttach out) ->
  (forall c, teardown c -> ok c) ->
  keeps (trace_within ld ok) (Run.replace_rootfs root (ld ++ "p3")) ->
  keeps (trace_within ld ok) (Run.replace_var iv root (ld ++ "p4")) ->
  keeps (trace_within ld ok) (Run.replace_home ih root (ld ++ "p5")) ->
  keeps (trace_within ld ok) (Run.main old root out iv ih).
Proof.
  intros Hat Htd Hroot Hvar Hhome.
  apply main_keeps; [exact _ | | intros t; now apply cleanup_trace].
  apply repack_keeps;
    [ exact _ | intros; trace_prim ltac:(fail) | intros; trace_prim ltac:(fail)
    | intros; trace_prim ltac:(fail) | intros; keeps_split ltac:(trace_prim ltac:(fail))
    | apply copy2_trace | now apply losetup_attach_trace | ].
  intros s0 u s dev s1 _ Hdev.
  assert (Hk : keeps (trace_within ld ok)
                 (Run.track_loop ld ;;
                  Run.replace_rootfs root (ld ++ "p3") ;;
                  Run.replace_var iv root (ld ++ "p4") ;;
                  Run.replace_home ih root (ld ++ "p5") ;;
                  print "[+] Sync and detach ..." ;;
                  print "[OK] Repack complete:" ;;
                  print "NOTE: ESP/EFI partitions were kept as-is from the old superimage."))
    by keeps_split ltac:(first [exact Hroot | exact Hvar | exact Hhome
                               | trace_prim ltac:(fail)]).
  intro Hnl. destruct (losetup_attach_dev _ _ _ _ Hdev) as [Hd Hn].
  rewrite Hd. replace (next_loop s) with ld by congruence. exact (Hk s1 Hnl).
Qed.



(** A copy that returns has written its source to the destination. *)
Lemma copy2_copies old out w u w1 :
  Run.copy2 old out w = (Ok u, w1) ->
  (forall t, lookup out (host w) <> Some (Tree t)) ->
  lookup out (host w1) = lookup old (host w) /\ old <> out.
Proof.
  intros Hc Hnd.
  assert (Hne : old <> out).
  { intros <-. pose proof (copy2_same_file old w) as Hf. rewrite Hc in Hf. discriminate. }
  split; [|exact Hne]. revert Hc.
  unfold Run.copy2, bind, gets, raise, next_outcome, modify. cbn [fst snd].
  destruct (lookup old (host w)) as [[t|boot parts|c|whole k]|]; try discriminate;
    (destruct (lookup out (host w)) as [[t'|boot' parts'|c'|whole' k']|] eqn:Eo;
     [exfalso; now apply (Hnd t')| | | |]);
    (destruct (String.eqb_spec old out) as [|_]; [contradiction|]);
    cbn [fst snd host]; rewrite ?Eo; cbn [fst snd host];
    destruct (plan w) as [|[j|] rest]; cbn [fst snd host upd_host set_plan];
    try discriminate; intros H; inversion H; subst; cbn [host upd_host set_plan];
    apply lookup_upsert_same.
Qed.

(** C10: a whole run, finalizer included, leaves the file of the old
    image exactly as it was, whether it returns or raises.  The copy
    writes the old image's content to the output path and refuses an
    output that is the input; the one loop device the run attaches is
    backed by the output file; and every partition the run mounts is a
    partition of that device. *)
Theorem repack_never_writes_old_image :
  forall (w : world) (old_img root_tree out_img : string) (include_var include_home : bool),
    let r := Run.main old_img root_tree out_img include_var include_home w in
    lookup old_img (host (snd r)) = lookup old_img (host w) /\
    (exists extra,
        calls (snd r) = (calls w ++ extra)%list /\
        Forall (on_output (next_loop w) out_img) extra) /\
    (forall s u s1,
        Run.copy2 old_img out_img s = (Ok u, s1) ->
        (forall t, lookup out_img (host s) <> Some (Tree t)) ->
        lookup out_img (host s1) = lookup old_img (host s) /\ old_img <> out_img) /\
    (forall s dev s1,
        Run.losetup_attach out_img s = (Ok dev, s1) ->
        hd_error (loops s1) = Some (dev, out_img) /\ host s1 = host s).
Proof.
  intros w old root out iv ih. cbv zeta.
  split; [apply main_keeps_old|].
  split.
  - assert (Hok : forall s c, uses_only (next_loop w ++ String "p" s) c ->
                              on_output (next_loop w) out c).
    { intros s [d m|f m|m|img|d|d]; simpl; try tauto. intros ->. now exists s. }
    apply (main_trace (next_loop w) (on_output (next_loop w) out) old root out iv ih);
      try reflexivity.
    + now intros [d m|f m|m|img|d|d].
    + apply replace_rootfs_trace, Hok.
    + apply replace_var_trace, Hok.
    + apply replace_home_trace, Hok.
  - split; [intros s u s1; apply copy2_copies | intros s dev s1; apply losetup_attach_head].
Qed.

Lemma repack_never_writes_old_image_witness :
  lookup "steamdeck.img"
    (host (snd (Run.main "steamdeck.img" "/mnt/steamOS" "new.img" true true
                  (Samples.machine []))))
  = Some Samples.superimage.
Proof.
  rewrite (proj1 (repack_never_writes_old_image (Samples.machine [])
                    "steamdeck.img" "/mnt/steamOS" "new.img" true true)).
  reflexivity.
Defined.

(* ================================================================== *)
(** * A step that is skipped *)

Lemma guarded_preorder (I : world -> Prop) (T : world -> world -> Prop) :
  PreOrder T -> PreOrder (guarded I T).
Proof.
  intros HT. split.
  - intros w Hw. split; [exact Hw | reflexivity].
  - intros a b c Hab Hbc Ha. destruct (Hab Ha) as [Hb Tab].
    destruct (Hbc Hb) as [Hc Tbc]. split; [exact Hc | etransitivity; eassumption].
Qed.
#[local] Existing Instance guarded_preorder.

Lemma keeps_guarded {A} I T (m : St world A) :
  keeps (guarded I (fun _ _ => True)) m -> keeps T m -> keeps (guarded I T) m.
Proof. intros HI HT w Hw. split; [now apply (HI w) | apply HT]. Qed.

Lemma always_preorder : PreOrder (fun _ _ : world => True).
Proof. split; [intros w; exact I | intros a b c _ _; exact I]. Qed.
#[local] Existing Instance always_preorder.

(** No step ever writes a directory to the host, so a subtree that is
    missing from the source tree stays missing. *)
Lemma source_node_upsert root sub dst (x : hobj) w :
  (forall t, x <> Tree t) ->
  source_node root sub w = None ->
  source_node root sub (upd_host (upsert dst x) w) = None.
Proof.
  intros Hx. unfold source_node. cbn [host upd_host].
  destruct (String.eqb_spec root dst) as [->|Hne].
  - rewrite lookup_upsert_same. destruct x; try reflexivity. now destruct (Hx t).
  - now rewrite lookup_upsert_other.
Qed.

Lemma absent_on_part {A} iv root sub dev (body : St part A) :
  keeps (guarded (absent iv root sub) (fun _ _ => True)) (on_part dev body).
Proof.
  intros w Hw. split; [|exact I]. unfold on_part.
  destruct (get_part dev w) as [p|]; [|exact Hw].
  destruct (body p) as [r p']. cbn [snd]. unfold put_part.
  destruct (loop_of dev w) as [[l img]|]; [|exact Hw].
  destruct (lookup img (host w)) as [[?|boot parts|?|? ?]|]; try exact Hw.
  destruct (partition_of l dev parts) as [[k q]|]; [|exact Hw].
  destruct Hw as [Hw|Hw]; [now left | right].
  apply source_node_upsert; [discriminate | exact Hw].
Qed.

Ltac absent_prim :=
  idtac;
  match goal with
  | |- keeps _ (modify (upd_host (upsert _ _))) =>
      apply keeps_modify; intros ? [?|?]; (split; [|exact I]); [now left | right];
      apply source_node_upsert; [discriminate | assumption]
  | |- keeps _ (modify _) => apply keeps_modify; intros ? ?; split; [assumption | exact I]
  | |- keeps _ next_outcome =>
      let w := fresh "w" in
      intros w ?; unfold next_outcome; destruct (plan w); (split; [assumption | exact I])
  | |- keeps _ (mkdtemp _) => intros ? ?; split; [assumption | exact I]
  | |- keeps _ (on_part _ _) => apply absent_on_part
  | |- keeps _ (Run.rename _ _) =>
      let w := fresh "w" in
      intros w ?; unfold Run.rename; destruct (lookup _ (build w));
      (split; [assumption | exact I])
  | |- keeps _ (Run.write _ _) => unfold Run.write
  | |- keeps _ (print _) => unfold print
  | |- keeps _ (issue _) => unfold issue
  | |- keeps _ (Run.register _) => unfold Run.register
  | |- keeps _ (Run.track_loop _) =>
      let w := fresh "w" in
      intros w ?; unfold Run.track_loop, modify; cbn [snd]; destruct (atexit w);
      (split; [assumption | exact I])
  end.

Lemma absent_replace_rootfs iv root sub root' dev :
  keeps (guarded (absent iv root sub) (fun _ _ => True)) (Run.replace_rootfs root' dev).
Proof. unfold Run.replace_rootfs. unfold_helpers. keeps_split absent_prim. Qed.

Lemma absent_replace_subtree iv root sub sub' dev preferred default label banner root' :
  keeps (guarded (absent iv root sub) (fun _ _ => True))
        (Run.replace_subtree sub' dev preferred default label banner root').
Proof. unfold Run.replace_subtree. unfold_helpers. keeps_split absent_prim. Qed.

Lemma absent_replace_var iv root sub iv' root' dev :
  keeps (guarded (absent iv root sub) (fun _ _ => True)) (Run.replace_var iv' root' dev).
Proof.
  unfold Run.replace_var.
  keeps_split ltac:(first [absent_prim | apply absent_replace_subtree]).
Qed.

Lemma absent_replace_home iv root sub ih' root' dev :
  keeps (guarded (absent iv root sub) (fun _ _ => True)) (Run.replace_home ih' root' dev).
Proof.
  unfold Run.replace_home.
  keeps_split ltac:(first [absent_prim | apply absent_replace_subtree]).
Qed.

Lemma absent_copy2 iv root sub old out :
  keeps (guarded (absent iv root sub) (fun _ _ => True)) (Run.copy2 old out).
Proof. unfold Run.copy2. keeps_split absent_prim. Qed.

Lemma absent_losetup_attach iv root sub img :
  keeps (guarded (absent iv root sub) (fun _ _ => True)) (Run.losetup_attach img).
Proof. unfold Run.losetup_attach. keeps_split absent_prim. Qed.

Lemma absent_cleanup iv root sub t :
  keeps (guarded (absent iv root sub) (fun _ _ => True)) (Run.cleanup t).
Proof.
  unfold Run.cleanup, Run.losetup_d, Run.rmtree_workdir, umount.
  keeps_split absent_prim.
Qed.

(** A skipped step prints one line and does nothing else. *)
Lemma replace_var_skipped iv root dev w :
  absent iv root ["var"] w ->
  exists line, Run.replace_var iv root dev w = (Ok tt, upd_stdout (fun l => (l ++ [line])%list) w).
Proof.
  intros [->|Hw]; unfold Run.replace_var; [eexists; reflexivity|].
  destruct iv; [|eexists; reflexivity].
  unfold bind, gets. rewrite Hw. eexists; reflexivity.
Qed.

Lemma replace_home_skipped ih root dev w :
  absent ih root ["home"] w ->
  exists line, Run.replace_home ih root dev w = (Ok tt, upd_stdout (fun l => (l ++ [line])%list) w).
Proof.
  intros [->|Hw]; unfold Run.replace_home; [eexists; reflexivity|].
  destruct ih; [|eexists; reflexivity].
  unfold bind, gets. rewrite Hw. eexists; reflexivity.
Qed.

Lemma append_inj_l (l a b : string) : l ++ a = l ++ b -> a = b.
Proof. induction l as [|c l IH]; simpl; intros H; [exact H | inversion H; auto]. Qed.

Lemma part_same_preorder ld out s : PreOrder (part_same ld out s).
Proof.
  split.
  - intros w. split; [reflexivity | intros _; reflexivity].
  - intros a b c [L1 H1] [L2 H2]. split; [congruence|].
    intros Hhd. rewrite H2 by (now rewrite L1). now apply H1.
Qed.
#[local] Existing Instance part_same_preorder.

(** Writing the partition found under one device name leaves the one
    found under another name alone. *)
Lemma partition_of_set_other l d3 d4 k q p' parts :
  partition_of l d3 parts = Some (k, q) ->
  d3 <> d4 ->
  option_map snd (partition_of l d4 (set_nth_part k p' parts))
  = option_map snd (partition_of l d4 parts).
Proof.
  intros Hf Hne.
  assert (Hk : String.eqb d4 (l ++ "p" ++ decimal k) = false).
  { apply find_some in Hf. destruct Hf as [_ Hf]. cbn [fst] in Hf.
    apply String.eqb_eq in Hf. apply String.eqb_neq.
    intros E. apply Hne. now rewrite E. }
  clear Hf. unfold partition_of.
  set (named := fun kp : nat * part => String.eqb d4 (l ++ "p" ++ decimal (fst kp))).
  assert (Hk' : forall x, named (k, x) = false) by (intros x; exact Hk).
  clearbody named.
  induction parts as [|[k' q'] parts IH]; cbn [set_nth_part find]; [reflexivity|].
  destruct (Nat.eqb_spec k' k) as [->|Hne'].
  - cbn [find]. now rewrite !Hk'.
  - cbn [find]. destruct (named (k', q')); [reflexivity | exact IH].
Qed.

Lemma part_same_on_part {A} ld out s3 s4 (body : St part A) :
  s3 <> s4 ->
  keeps (part_same ld out s4) (on_part (ld ++ String "p" s3) body).
Proof.
  intros Hne w. unfold on_part.
  destruct (get_part (ld ++ String "p" s3) w) as [p|]; [|apply part_same_preorder].
  destruct (body p) as [r p']. cbn [snd]. unfold put_part.
  split.
  - destruct (loop_of _ w) as [[l img]|]; [|reflexivity].
    destruct (lookup img (host w)) as [[?|boot parts|?|? ?]|]; try reflexivity.
    destruct (partition_of l _ parts) as [[k q]|]; reflexivity.
  - intros Hhd. rewrite (loop_of_head ld out s3 w Hhd).
    destruct (lookup out (host w)) as [[?|boot parts|?|? ?]|] eqn:Eo; try reflexivity.
    destruct (partition_of ld _ parts) as [[k q]|] eqn:Ep; [|reflexivity].
    unfold get_part.
    assert (Hl : loop_of (ld ++ String "p" s4)
                   (upd_host (upsert out (Superimage boot (set_nth_part k p' parts))) w)
                 = Some (ld, out)) by (apply loop_of_head; exact Hhd).
    rewrite Hl, (loop_of_head ld out s4 w Hhd). cbn [host upd_host].
    rewrite lookup_upsert_same, Eo.
    apply (partition_of_set_other ld _ _ k q p' parts Ep).
    intros H. apply append_inj_l in H. inversion H. contradiction.
Qed.

Ltac same_prim Hne :=
  idtac;
  match goal with
  | |- keeps _ (modify _) =>
      apply keeps_modify; intros ?; split; [reflexivity | intros _; reflexivity]
  | |- keeps _ next_outcome =>
      let w := fresh "w" in
      intros w; unfold next_outcome; destruct (plan w);
      (split; [reflexivity | intros _; reflexivity])
  | |- keeps _ (mkdtemp _) => intros ?; split; [reflexivity | intros _; reflexivity]
  | |- keeps _ (on_part _ _) => apply part_same_on_part; exact Hne
  | |- keeps _ (Run.rename _ _) =>
      let w := fresh "w" in
      intros w; unfold Run.rename; destruct (lookup _ (build w));
      (split; [reflexivity | intros _; reflexivity])
  | |- keeps _ (Run.write _ _) => unfold Run.write
  | |- keeps _ (print _) => unfold print
  | |- keeps _ (issue _) => unfold issue
  | |- keeps _ (Run.track_loop _) =>
      let w := fresh "w" in
      intros w; unfold Run.track_loop, modify; cbn [snd]; destruct (atexit w);
      (split; [reflexivity | intros _; reflexivity])
  end.

Lemma part_same_replace_rootfs ld out s root :
  "3" <> s -> keeps (part_same ld out s) (Run.replace_rootfs root (ld ++ "p3")).
Proof.
  intros Hne. unfold Run.replace_rootfs. unfold_helpers.
  keeps_split ltac:(same_prim Hne).
Qed.

Lemma part_same_replace_subtree ld out s s' sub preferred default label banner root :
  s' <> s ->
  keeps (part_same ld out s)
        (Run.replace_subtree sub (ld ++ String "p" s') preferred default label banner root).
Proof.
  intros Hne. unfold Run.replace_subtree. unfold_helpers.
  keeps_split ltac:(same_prim Hne).
Qed.

Lemma part_same_replace_var ld out s iv root :
  "4" <> s -> keeps (part_same ld out s) (Run.replace_var iv root (ld ++ "p4")).
Proof.
  intros Hne. unfold Run.replace_var.
  keeps_split ltac:(first [same_prim Hne | now apply part_same_replace_subtree]).
Qed.

Lemma part_same_replace_home ld out s ih root :
  "5" <> s -> keeps (part_same ld out s) (Run.replace_home ih root (ld ++ "p5")).
Proof.
  intros Hne. unfold Run.replace_home.
  keeps_split ltac:(first [same_prim Hne | now apply part_same_replace_subtree]).
Qed.

Lemma keeps_guarded_at {A} (I : world -> Prop) (T : world -> world -> Prop) (m : St world A) :
  (forall w, I w -> I (snd (m w)) /\ T w (snd (m w))) -> keeps (guarded I T) m.
Proof. intros H w Hw. now apply H. Qed.

Lemma trace_within_nothing ld ok w line :
  trace_within ld ok w (upd_stdout (fun l => (l ++ [line])%list) w).
Proof. intros Hl. split; [exact Hl|]. exists []. split; [now rewrite app_nil_r | constructor]. Qed.

Lemma part_same_nothing ld out s w line :
  part_same ld out s w (upd_stdout (fun l => (l ++ [line])%list) w).
Proof. split; [reflexivity | intros _; reflexivity]. Qed.

(** The steps after the attach, when the var step is to be skipped:
    nothing mounts partition 4, and partition 4 is not written. *)
Lemma steps_skipping_var ld out root iv ih :
  keeps (guarded (absent iv root ["var"])
           (fun w w' => trace_within ld (avoids (ld ++ "p4")) w w' /\ part_same ld out "4" w w'))
        (Run.track_loop ld ;;
         Run.replace_rootfs root (ld ++ "p3") ;;
         Run.replace_var iv root (ld ++ "p4") ;;
         Run.replace_home ih root (ld ++ "p5") ;;
         print "[+] Sync and detach ..." ;;
         print "[OK] Repack complete:" ;;
         print "NOTE: ESP/EFI partitions were kept as-is from the old superimage.").
Proof.
  assert (HT : PreOrder (fun w w' => trace_within ld (avoids (ld ++ "p4")) w w' /\
                                     part_same ld out "4" w w')).
  { split; [intros w; split; reflexivity|].
    intros a b c [T1 P1] [T2 P2]. split; etransitivity; eassumption. }
  assert (Hsplit : forall (m : St world unit),
    keeps (guarded (absent iv root ["var"]) (fun _ _ => True)) m ->
    keeps (trace_within ld (avoids (ld ++ "p4"))) m ->
    keeps (part_same ld out "4") m ->
    keeps (guarded (absent iv root ["var"])
             (fun w w' => trace_within ld (avoids (ld ++ "p4")) w w' /\
                          part_same ld out "4" w w')) m).
  { intros m H1 H2 H3. apply keeps_guarded; [exact H1|]. intros w. split; [apply H2 | apply H3]. }
  assert (Hother : forall s, String "p" s <> "p4" ->
                    forall c, uses_only (ld ++ String "p" s) c -> avoids (ld ++ "p4") c).
  { intros s Hs [d m|f m|m|img|d|d]; simpl; try tauto.
    intros -> E. apply append_inj_l in E. contradiction. }
  assert (Hprint : forall line,
    keeps (guarded (absent iv root ["var"])
             (fun w w' => trace_within ld (avoids (ld ++ "p4")) w w' /\
                          part_same ld out "4" w w')) (print line)).
  { intros line. apply Hsplit; unfold print.
    - absent_prim.
    - trace_prim ltac:(fail).
    - same_prim I. }
  apply keeps_bind; [exact _ | | intros _].
  { apply Hsplit; [absent_prim | trace_prim ltac:(fail) | same_prim I]. }
  apply keeps_bind; [exact _ | | intros _].
  { apply Hsplit; [apply absent_replace_rootfs
                  | apply replace_rootfs_trace, (Hother "3"); discriminate
                  | apply part_same_replace_rootfs; discriminate]. }
  apply keeps_bind; [exact _ | | intros _].
  { apply keeps_guarded_at. intros w Hw.
    destruct (replace_var_skipped iv root (ld ++ "p4") w Hw) as [line ->]. cbn [snd].
    split; [exact Hw|]. split; [apply trace_within_nothing | apply part_same_nothing]. }
  apply keeps_bind; [exact _ | | intros _].
  { apply Hsplit; [apply absent_replace_home
                  | apply replace_home_trace, (Hother "5"); discriminate
                  | apply part_same_replace_home; discriminate]. }
  apply keeps_bind; [exact _ | apply Hprint | intros _].
  apply keeps_bind; [exact _ | apply Hprint | intros _].
  apply Hprint.
Qed.

(** The same when the home step is to be skipped, for partition 5. *)
Lemma steps_skipping_home ld out root iv ih :
  keeps (guarded (absent ih root ["home"])
           (fun w w' => trace_within ld (avoids (ld ++ "p5")) w w' /\ part_same ld out "5" w w'))
        (Run.track_loop ld ;;
         Run.replace_rootfs root (ld ++ "p3") ;;
         Run.replace_var iv root (ld ++ "p4") ;;
         Run.replace_home ih root (ld ++ "p5") ;;
         print "[+] Sync and detach ..." ;;
         print "[OK] Repack complete:" ;;
         print "NOTE: ESP/EFI partitions were kept as-is from the old superimage.").
Proof.
  assert (HT : PreOrder (fun w w' => trace_within ld (avoids (ld ++ "p5")) w w' /\
                                     part_same ld out "5" w w')).
  { split; [intros w; split; reflexivity|].
    intros a b c [T1 P1] [T2 P2]. split; etransitivity; eassumption. }
  assert (Hsplit : forall (m : St world unit),
    keeps (guarded (absent ih root ["home"]) (fun _ _ => True)) m ->
    keeps (trace_within ld (avoids (ld ++ "p5"))) m ->
    keeps (part_same ld out "5") m ->
    keeps (guarded (absent ih root ["home"])
             (fun w w' => trace_within ld (avoids (ld ++ "p5")) w w' /\
                          part_same ld out "5" w w')) m).
  { intros m H1 H2 H3. apply keeps_guarded; [exact H1|]. intros w. split; [apply H2 | apply H3]. }
  assert (Hother : forall s, String "p" s <> "p5" ->
                    forall c, uses_only (ld ++ String "p" s) c -> avoids (ld ++ "p5") c).
  { intros s Hs [d m|f m|m|img|d|d]; simpl; try tauto.
    intros -> E. apply append_inj_l in E. contradiction. }
  assert (Hprint : forall line,
    keeps (guarded (absent ih root ["home"])
             (fun w w' => trace_within ld (avoids (ld ++ "p5")) w w' /\
                          part_same ld out "5" w w')) (print line)).
  { intros line. apply Hsplit; unfold print.
    - absent_prim.
    - trace_prim ltac:(fail).
    - same_prim I. }
  apply keeps_bind; [exact _ | | intros _].
  { apply Hsplit; [absent_prim | trace_prim ltac:(fail) | same_prim I]. }
  apply keeps_bind; [exact _ | | intros _].
  { apply Hsplit; [apply absent_replace_rootfs
                  | apply replace_rootfs_trace, (Hother "3"); discriminate
                  | apply part_same_replace_rootfs; discriminate]. }
  apply keeps_bind; [exact _ | | intros _].
  { apply Hsplit; [apply absent_replace_var
                  | apply replace_var_trace, (Hother "4"); discriminate
                  | apply part_same_replace_var; discriminate]. }
  apply keeps_bind; [exact _ | | intros _].
  { apply keeps_guarded_at. intros w Hw.
    destruct (replace_home_skipped ih root (ld ++ "p5") w Hw) as [line ->]. cbn [snd].
    split; [exact Hw|]. split; [apply trace_within_nothing | apply part_same_nothing]. }
  apply keeps_bind; [exact _ | apply Hprint | intros _].
  apply keeps_bind; [exact _ | apply Hprint | intros _].
  apply Hprint.
Qed.

Lemma absent_steps iv root sub root' iv' ih' dev :
  keeps (guarded (absent iv root sub) (fun _ _ => True))
        (Run.track_loop dev ;;
         Run.replace_rootfs root' (dev ++ "p3") ;;
         Run.replace_var iv' root' (dev ++ "p4") ;;
         Run.replace_home ih' root' (dev ++ "p5") ;;
         print "[+] Sync and detach ..." ;;
         print "[OK] Repack complete:" ;;
         print "NOTE: ESP/EFI partitions were kept as-is from the old superimage.").
Proof.
  keeps_split ltac:(first [ apply absent_replace_rootfs | apply absent_replace_var
                          | apply absent_replace_home | absent_prim ]).
Qed.

(** Over a whole run in which a step is to be skipped, no command
    mounts the partition of that step. *)
Lemma main_skipping ld old root out iv ih (I : world -> Prop) (dev4 : string) :
  (forall prefix, keeps (guarded I (fun _ _ => True)) (mkdtemp prefix)) ->
  (forall f, keeps (guarded I (fun _ _ => True)) (modify (upd_build f))) ->
  (forall t, keeps (guarded I (fun _ _ => True)) (modify (set_atexit t))) ->
  (forall line, keeps (guarded I (fun _ _ => True)) (print line)) ->
  keeps (guarded I (fun _ _ => True)) (Run.copy2 old out) ->
  keeps (guarded I (fun _ _ => True)) (Run.losetup_attach out) ->
  (forall t, keeps (guarded I (fun _ _ => True)) (Run.cleanup t)) ->
  (forall dev s1, I s1 ->
      I (snd ((Run.track_loop dev ;;
               Run.replace_rootfs root (dev ++ "p3") ;;
               Run.replace_var iv root (dev ++ "p4") ;;
               Run.replace_home ih root (dev ++ "p5") ;;
               print "[+] Sync and detach ..." ;;
               print "[OK] Repack complete:" ;;
               print "NOTE: ESP/EFI partitions were kept as-is from the old superimage.") s1)) /\
      (dev = ld ->
       trace_within ld (avoids dev4) s1
         (snd ((Run.track_loop dev ;;
                Run.replace_rootfs root (dev ++ "p3") ;;
                Run.replace_var iv root (dev ++ "p4") ;;
                Run.replace_home ih root (dev ++ "p5") ;;
                print "[+] Sync and detach ..." ;;
                print "[OK] Repack complete:" ;;
                print "NOTE: ESP/EFI partitions were kept as-is from the old superimage.") s1)))) ->
  keeps (guarded I (trace_within ld (avoids dev4))) (Run.main old root out iv ih).
Proof.
  intros Htmp Hbuild Hreg Hprint Hcopy Hattach Hclean Hsteps.
  apply main_keeps; [exact _ | |].
  - apply repack_keeps; [exact _ | | | | | | |].
    + intros prefix. apply keeps_guarded; [apply Htmp | trace_prim ltac:(fail)].
    + intros f. apply keeps_guarded; [apply Hbuild | trace_prim ltac:(fail)].
    + intros t. apply keeps_guarded; [apply Hreg | trace_prim ltac:(fail)].
    + intros line. apply keeps_guarded; [apply Hprint | unfold print; trace_prim ltac:(fail)].
    + apply keeps_guarded; [apply Hcopy | apply copy2_trace].
    + apply keeps_guarded; [apply Hattach | now apply losetup_attach_trace].
    + intros s0 u s dev s1 _ Hat HI. destruct (Hsteps dev s1 HI) as [H1 H2].
      split; [exact H1|]. intros Hnl.
      destruct (losetup_attach_dev _ _ _ _ Hat) as [Hd Hn].
      apply H2; [congruence | exact Hnl].
  - intros t. apply keeps_guarded; [apply Hclean | apply cleanup_trace]. now intros [d m|f m|m|img|d|d].
Qed.

Lemma main_skipping_var ld old root out iv ih :
  keeps (guarded (absent iv root ["var"]) (trace_within ld (avoids (ld ++ "p4"))))
        (Run.main old root out iv ih).
Proof.
  apply main_skipping.
  - intros; absent_prim.
  - intros; absent_prim.
  - intros; absent_prim.
  - intros; unfold print; absent_prim.
  - apply absent_copy2.
  - apply absent_losetup_attach.
  - apply absent_cleanup.
  - intros dev s1 HI. split.
    + now apply (absent_steps iv root ["var"] root iv ih dev s1).
    + intros ->. now apply (steps_skipping_var ld out root iv ih s1).
Qed.

Lemma main_skipping_home ld old root out iv ih :
  keeps (guarded (absent ih root ["home"]) (trace_within ld (avoids (ld ++ "p5"))))
        (Run.main old root out iv ih).
Proof.
  apply main_skipping.
  - intros; absent_prim.
  - intros; absent_prim.
  - intros; absent_prim.
  - intros; unfold print; absent_prim.
  - apply absent_copy2.
  - apply absent_losetup_attach.
  - apply absent_cleanup.
  - intros dev s1 HI. split.
    + now apply (absent_steps ih root ["home"] root iv ih dev s1).
    + intros ->. now apply (steps_skipping_home ld out root iv ih s1).
Qed.

Lemma append_cons_neq (s t : string) c : s ++ String c t <> s.
Proof.
  intros H. apply (f_equal String.length) in H. rewrite length_append in H.
  simpl in H. lia.
Qed.

(** An attach succeeds on a regular file only. *)
Lemma losetup_attach_file img w dev w1 :
  Run.losetup_attach img w = (Ok dev, w1) ->
  forall t, lookup img (host w) <> Some (Tree t).
Proof.
  unfold Run.losetup_attach, bind, issue, modify, next_outcome, gets, raise, ret.
  cbn [fst snd plan host upd_calls].
  destruct (plan w) as [|[k|] rest]; cbn [fst snd plan host upd_calls set_plan];
    destruct (lookup img (host w)) as [[?|? ?|?|? ?]|];
    try discriminate; intros _ t; discriminate.
Qed.

(** A copy into a directory leaves the directory in place. *)
Lemma copy2_into_directory old out w u w1 t :
  Run.copy2 old out w = (Ok u, w1) ->
  lookup out (host w) = Some (Tree t) ->
  lookup out (host w1) = Some (Tree t).
Proof.
  intros Hc Ho. revert Hc.
  unfold Run.copy2, bind, gets, raise, next_outcome, modify. cbn [fst snd]. rewrite Ho.
  assert (Hne : out <> out ++ "/" ++ Run.basename old).
  { intros E. symmetry in E. revert E. apply append_cons_neq. }
  destruct (lookup old (host w)) as [[t'|boot parts|c|whole k]|]; try discriminate;
    (destruct (String.eqb old (out ++ "/" ++ Run.basename old)); [discriminate|]);
    cbn [fst snd host];
    (destruct (lookup (out ++ "/" ++ Run.basename old) (host w)) as [[?|? ?|?|? ?]|];
     try discriminate);
    destruct (plan w) as [|[j|] rest]; cbn [fst snd host upd_host set_plan];
    try discriminate; intros H; inversion H; subst; cbn [host upd_host set_plan];
    rewrite lookup_upsert_other by exact Hne; exact Ho.
Qed.

(** Once the copy and the attach have both succeeded, the attached file
    is the copy of the old image, and it is another file. *)
Lemma copy2_then_attach old out s0 u s dev s1 :
  Run.copy2 old out s0 = (Ok u, s) ->
  Run.losetup_attach out s = (Ok dev, s1) ->
  lookup out (host s1) = lookup old (host s0) /\ old <> out /\
  hd_error (loops s1) = Some (dev, out) /\ dev = next_loop s0.
Proof.
  intros Hc Ha.
  destruct (losetup_attach_head _ _ _ _ Ha) as [Hhd Hh].
  destruct (losetup_attach_dev _ _ _ _ Ha) as [Hd _].
  assert (Hn : next_loop s = next_loop s0).
  { pose proof (copy2_trace (next_loop s0) (fun _ => True) old out s0 eq_refl) as [Hn _].
    now rewrite Hc in Hn. }
  assert (Hfile : forall t, lookup out (host s0) <> Some (Tree t)).
  { intros t Ho. apply (losetup_attach_file _ _ _ _ Ha t).
    now apply (copy2_into_directory old out s0 u s t). }
  destruct (copy2_copies old out s0 u s Hc Hfile) as [Hcp Hne].
  rewrite Hh. repeat split; auto; congruence.
Qed.

(** What a successful [repack] went through. *)
Lemma repack_ok_inv old root out iv ih w u w' :
  Run.repack old root out iv ih w = (Ok u, w') ->
  exists s0 s dev s1,
    host s0 = host w /\ next_loop s0 = next_loop w /\
    Run.copy2 old out s0 = (Ok tt, s) /\
    Run.losetup_attach out s = (Ok dev, s1) /\
    (Run.track_loop dev ;;
     Run.replace_rootfs root (dev ++ "p3") ;;
     Run.replace_var iv root (dev ++ "p4") ;;
     Run.replace_home ih root (dev ++ "p5") ;;
     print "[+] Sync and detach ..." ;;
     print "[OK] Repack complete:" ;;
     print "NOTE: ESP/EFI partitions were kept as-is from the old superimage.") s1
    = (Ok u, w').
Proof.
  unfold Run.repack. intros H.
  apply bind_ok in H as (old_there & a & Ha & H). inversion Ha; subst a. clear Ha.
  destruct (negb _); [discriminate|].
  apply bind_ok in H as (root_there & a & Ha & H). inversion Ha; subst a. clear Ha.
  destruct (negb _); [discriminate|].
  apply bind_ok in H as (workdir & a1 & Ha1 & H). inversion Ha1; subst a1. clear Ha1.
  apply bind_ok in H as (? & a2 & Ha2 & H). inversion Ha2; subst a2. clear Ha2.
  apply bind_ok in H as (? & a3 & Ha3 & H). inversion Ha3; subst a3. clear Ha3.
  apply bind_ok in H as (? & a4 & Ha4 & H). inversion Ha4; subst a4. clear Ha4.
  apply bind_ok in H as ([] & s & Hc & H).
  apply bind_ok in H as (dev & s1 & Hat & H).
  destruct (String.eqb dev ""); [discriminate|].
  eexists _, s, dev, s1. split; [|split; [|split; [exact Hc | split; [exact Hat | exact H]]]];
    reflexivity.
Qed.

(** After a successful [repack] that was to skip a step, the partition
    of that step is the one the old image had. *)
Lemma repack_skipped_partition old root out iv ih (I : world -> Prop) sfx w u w' boot parts :
  (forall a b, host a = host b -> I b -> I a) ->
  keeps (guarded I (fun _ _ => True)) (Run.copy2 old out) ->
  keeps (guarded I (fun _ _ => True)) (Run.losetup_attach out) ->
  (forall ld, keeps (guarded I (part_same ld out sfx))
        (Run.track_loop ld ;;
         Run.replace_rootfs root (ld ++ "p3") ;;
         Run.replace_var iv root (ld ++ "p4") ;;
         Run.replace_home ih root (ld ++ "p5") ;;
         print "[+] Sync and detach ..." ;;
         print "[OK] Repack complete:" ;;
         print "NOTE: ESP/EFI partitions were kept as-is from the old superimage.")) ->
  I w ->
  lookup old (host w) = Some (Superimage boot parts) ->
  Run.repack old root out iv ih w = (Ok u, w') ->
  get_part (next_loop w ++ String "p" sfx) w'
  = option_map snd (partition_of (next_loop w) (next_loop w ++ String "p" sfx) parts).
Proof.
  intros Hhost Hcopy Hattach Hsteps HI Hold Hr.
  apply repack_ok_inv in Hr as (s0 & s & dev & s1 & Hh0 & Hn0 & Hc & Hat & Hk).
  destruct (copy2_then_attach old out s0 tt s dev s1 Hc Hat) as (Hcp & Hne & Hhd & Hdev).
  assert (HI0 : I s0) by (now apply (Hhost s0 w)).
  assert (HIs : I s) by (pose proof (Hcopy s0 HI0) as [Hx _]; now rewrite Hc in Hx).
  assert (HI1 : I s1) by (pose proof (Hattach s HIs) as [Hx _]; now rewrite Hat in Hx).
  destruct (Hsteps dev s1 HI1) as [_ [_ Hsame]]. rewrite Hk in Hsame. cbn [snd] in Hsame.
  rewrite <- Hn0, <- Hdev. rewrite (Hsame Hhd).
  unfold get_part. rewrite (loop_of_head dev out sfx s1 Hhd), Hcp, Hh0, Hold. reflexivity.
Qed.

Lemma absent_host_only iv root sub a b : host a = host b -> absent iv root sub b -> absent iv root sub a.
Proof. unfold absent, source_node. intros ->. auto. Qed.

Lemma keeps_guarded_right {A} (I : world -> Prop) (T P : world -> world -> Prop) (m : St world A) :
  keeps (guarded I (fun w w' => T w w' /\ P w w')) m -> keeps (guarded I P) m.
Proof. intros H w Hw. destruct (H w Hw) as [Hi [_ Hp]]. now split. Qed.

(** C8: a var or home step that is switched off, or whose subtree is
    missing from the source tree, returns normally after printing one
    line (a notice, or a warning for a missing subtree) and changes
    nothing else, so the run goes on to the next step.  Over the whole of
    such a run, finalizer included, no command mounts the partition of
    the skipped step (4 for var, 5 for home), and when [repack] returns
    that partition of the output image is the partition the old image
    had. *)
Theorem skipped_steps_leave_partition_alone :
  forall (w : world) (old_img root_tree out_img : string) (include_var include_home : bool),
    let ld := next_loop w in
    let r := Run.main old_img root_tree out_img include_var include_home w in
    let says line s := (Ok tt, upd_stdout (fun l => (l ++ [line])%list) s) in
    (forall s dev,
        Run.replace_var false root_tree dev s = says "[+] Skipping /var (per --no-var)" s) /\
    (forall s dev,
        source_node root_tree ["var"] s = None ->
        Run.replace_var true root_tree dev s
        = says "    - WARNING: /var tree not found in root tree; skipping var" s) /\
    (forall s dev,
        Run.replace_home false root_tree dev s = says "[+] Skipping /home (per --no-home)" s) /\
    (forall s dev,
        source_node root_tree ["home"] s = None ->
        Run.replace_home true root_tree dev s
        = says "    - WARNING: /home tree not found; skipping home" s) /\
    (absent include_var root_tree ["var"] w ->
       (exists extra, calls (snd r) = (calls w ++ extra)%list /\
                      Forall (avoids (ld ++ "p4")) extra) /\
       (forall boot parts u w',
           lookup old_img (host w) = Some (Superimage boot parts) ->
           Run.repack old_img root_tree out_img include_var include_home w = (Ok u, w') ->
           get_part (ld ++ "p4") w' = option_map snd (partition_of ld (ld ++ "p4") parts))) /\
    (absent include_home root_tree ["home"] w ->
       (exists extra, calls (snd r) = (calls w ++ extra)%list /\
                      Forall (avoids (ld ++ "p5")) extra) /\
       (forall boot parts u w',
           lookup old_img (host w) = Some (Superimage boot parts) ->
           Run.repack old_img root_tree out_img include_var include_home w = (Ok u, w') ->
           get_part (ld ++ "p5") w' = option_map snd (partition_of ld (ld ++ "p5") parts))).
Proof.
  intros w old root out iv ih. cbv zeta.
  split; [reflexivity|].
  split; [intros s dev Hs; unfold Run.replace_var, bind, gets; now rewrite Hs|].
  split; [reflexivity|].
  split; [intros s dev Hs; unfold Run.replace_home, bind, gets; now rewrite Hs|].
  split.
  - intros Habs. split.
    + now destruct (main_skipping_var (next_loop w) old root out iv ih w Habs)
        as [_ [_ He]].
    + intros boot parts u w' Hold Hr.
      apply (repack_skipped_partition old root out iv ih (absent iv root ["var"]) "4"
               w u w' boot parts); auto.
      * apply absent_host_only.
      * apply absent_copy2.
      * apply absent_losetup_attach.
      * intros ld. apply (keeps_guarded_right _ _ _ _ (steps_skipping_var ld out root iv ih)).
  - intros Habs. split.
    + now destruct (main_skipping_home (next_loop w) old root out iv ih w Habs)
        as [_ [_ He]].
    + intros boot parts u w' Hold Hr.
      apply (repack_skipped_partition old root out iv ih (absent ih root ["home"]) "5"
               w u w' boot parts); auto.
      * apply absent_host_only.
      * apply absent_copy2.
      * apply absent_losetup_attach.
      * intros ld. apply (keeps_guarded_right _ _ _ _ (steps_skipping_home ld out root iv ih)).
Qed.

Lemma skipped_steps_leave_partition_alone_witness :
  get_part "/dev/loop0p5"
    (snd (Run.repack "steamdeck.img" "/mnt/steamOS" "new.img" true false (Samples.machine [])))
  = Some (mkPart [("home.img", File Samples.ext_image)] 1048576 4096 true []).
Proof.
  destruct (skipped_steps_leave_partition_alone (Samples.machine [])
              "steamdeck.img" "/mnt/steamOS" "new.img" true false)
    as (_ & _ & _ & _ & _ & H).
  destruct (H (or_introl eq_refl)) as [_ Hp].
  apply (Hp [x45; x46; x49]
            [(3%nat, mkPart Samples.nested_root 1048576 4096 true []);
             (4%nat, mkPart Samples.direct_var 1048576 4096 true []);
             (5%nat, mkPart [("home.img", File Samples.ext_image)] 1048576 4096 true [])]
            tt
            (snd (Run.repack "steamdeck.img" "/mnt/steamOS" "new.img" true false
                    (Samples.machine [])))).
  - reflexivity.
  - vm_compute. reflexivity.
Defined.

(* ================================================================== *)
(** * Further properties of the code *)

(** X1: for a positive block, [round_up n block] is the least multiple
    of [block] that is at least [n]; a multiple of [block] comes back
    unchanged, so rounding twice is rounding once. *)
Theorem round_up_least_multiple :
  forall n block : Z,
    0 < block ->
    (block | round_up n block) /\
    n <= round_up n block /\
    (forall m, (block | m) -> n <= m -> round_up n block <= m) /\
    ((block | n) -> round_up n block = n) /\
    round_up (round_up n block) block = round_up n block.
Proof.
  intros n block Hb.
  assert (Hleast : forall a, (exists q, round_up a block = q * block) /\
                             a <= round_up a block < a + block)
    by (intros a; now apply round_up_spec).
  assert (Hmin : forall a m, (block | m) -> a <= m -> round_up a block <= m).
  { intros a m [k ->] Hle. destruct (Hleast a) as [[q Hq] Hr]. rewrite Hq in *.
    assert (q < k + 1) by (apply (Z.mul_lt_mono_pos_r block); lia). nia. }
  assert (Hfix : forall a, (block | a) -> round_up a block = a).
  { intros a Ha. pose proof (Hmin a a Ha ltac:(lia)). destruct (Hleast a) as [_ Hr]. lia. }
  destruct (Hleast n) as [[q Hq] Hr].
  split; [exists q; exact Hq|]. split; [lia|]. split; [apply Hmin|]. split; [apply Hfix|].
  apply Hfix. exists q. exact Hq.
Qed.

Lemma round_up_least_multiple_witness : round_up 4096 4096 = 4096.
Proof.
  destruct (round_up_least_multiple 4096 4096 ltac:(lia)) as (_ & _ & _ & H & _).
  apply H. exists 1. reflexivity.
Defined.

Lemma round_up_monotone a b block : 0 < block -> a <= b -> round_up a block <= round_up b block.
Proof.
  intros Hb Hab. unfold round_up.
  apply Z.mul_le_mono_nonneg_r; [lia|]. apply Z.div_le_mono; lia.
Qed.

Lemma ext4_image_size_mono a b : a <= b -> ext4_image_size a <= ext4_image_size b.
Proof.
  intros Hab. unfold ext4_image_size. cbv zeta.
  apply round_up_monotone; [reflexivity|].
  pose proof (Z.div_le_mono a b 6 ltac:(lia) Hab). lia.
Qed.

(** X2: the size computed for an ext4 image never goes down when the
    size of the data goes up. *)
Theorem ext4_image_size_monotone :
  forall a b : Z, a <= b -> ext4_image_size a <= ext4_image_size b.
Proof. exact ext4_image_size_mono. Qed.

Lemma ext4_image_size_monotone_witness :
  ext4_image_size 0 <= ext4_image_size 1000000000.
Proof. apply (ext4_image_size_monotone 0 1000000000). lia. Defined.

(** largest file *)
Lemma max_by_size_first l : forall best pre0 post0,
  (forall x, In x pre0 -> st_size (snd x) < st_size (snd best)) ->
  (forall x, In x post0 -> st_size (snd x) <= st_size (snd best)) ->
  exists pre post,
    (pre0 ++ best :: post0 ++ l)%list = (pre ++ max_by_size best l :: post)%list /\
    (forall x, In x pre -> st_size (snd x) < st_size (snd (max_by_size best l))) /\
    (forall x, In x post -> st_size (snd x) <= st_size (snd (max_by_size best l))).
Proof.
  induction l as [|x l IH]; intros best pre0 post0 Hpre Hpost.
  - exists pre0, post0. rewrite app_nil_r. auto.
  - cbn [max_by_size]. destruct (Z.ltb_spec (st_size (snd best)) (st_size (snd x))) as [Hlt|Hge].
    + destruct (IH x (pre0 ++ best :: post0)%list []) as (pre & post & E & H1 & H2).
      * intros y Hy. apply in_app_or in Hy as [Hy|[<-|Hy]];
          [specialize (Hpre y Hy) | | specialize (Hpost y Hy)]; lia.
      * intros y [].
      * exists pre, post. split; [|auto]. rewrite <- E. cbn [app].
        rewrite <- app_assoc. reflexivity.
    + destruct (IH best pre0 (post0 ++ [x])%list) as (pre & post & E & H1 & H2).
      * exact Hpre.
      * intros y Hy. apply in_app_or in Hy as [Hy|[<-|[]]]; [now apply Hpost | lia].
      * exists pre, post. split; [|auto]. rewrite <- E.
        rewrite <- app_assoc. reflexivity.
Qed.

(** X4: the file picked by the largest-file fallback is a regular file
    of the directory; every regular file listed before it is strictly
    smaller and none listed after it is larger: of several largest
    files, the first in [iterdir] order is chosen. *)
Theorem largest_file_is_first_maximum :
  forall (d : listing) (nm : string) (f : file),
    largest_file d = Some (nm, f) ->
    In (nm, File f) d /\
    exists pre post,
      regular_files d = (pre ++ (nm, f) :: post)%list /\
      (forall x, In x pre -> st_size (snd x) < st_size f) /\
      (forall x, In x post -> st_size (snd x) <= st_size f).
Proof.
  intros d nm f H. split; [now apply largest_file_In|].
  unfold largest_file in H. destruct (regular_files d) as [|x xs]; [discriminate|].
  inversion H as [E]. clear H.
  destruct (max_by_size_first xs x [] []) as (pre & post & Hl & H1 & H2);
    try (intros y []).
  rewrite E in *. exists pre, post. auto.
Qed.

Lemma largest_file_is_first_maximum_witness :
  In ("system.sqfs", File Samples.squash_image) Samples.renamed_root.
Proof.
  apply (largest_file_is_first_maximum Samples.renamed_root "system.sqfs" Samples.squash_image).
  reflexivity.
Defined.

Lemma lookup_In {A} nm (x : A) d : lookup nm d = Some x -> In (nm, x) d.
Proof.
  induction d as [|[n y] d IH]; simpl; [discriminate|].
  destruct (String.eqb_spec n nm) as [->|Hne]; intros H; [inversion H; now left | right; auto].
Qed.

Lemma first_preferred_none d nms :
  first_preferred d nms = None ->
  forall nm f, In nm nms -> lookup nm d <> Some (File f).
Proof.
  induction nms as [|n nms IH]; simpl; intros H nm f Hin; [contradiction|].
  destruct (lookup n d) as [[g| | |]|] eqn:E; try discriminate;
    (destruct Hin as [<-|Hin]; [congruence | now apply IH]).
Qed.

(** X5: [detect_existing_inner] answers with a path only for a regular
    file that is in the directory, and then the flag is the squashfs
    probe of that very file; the file either goes by a preferred name or
    probes as squashfs or ext2/3/4.  When it answers with no path the
    flag is false, no preferred name is a regular file, and the largest
    file, if there is one, probes as neither. *)
Theorem detect_existing_inner_sound :
  forall (d : listing) (preferred_names : list string),
    match detect_existing_inner d preferred_names with
    | (Some nm, sq) =>
        exists f, In (nm, File f) d /\ sq = is_squashfs f /\
                  (In nm preferred_names \/ is_squashfs f || is_ext_image f = true)
    | (None, sq) =>
        sq = false /\
        (forall nm f, In nm preferred_names -> lookup nm d <> Some (File f)) /\
        (forall nm f, largest_file d = Some (nm, f) ->
                      is_squashfs f = false /\ is_ext_image f = false)
    end.
Proof.
  intros d nms. unfold detect_existing_inner.
  destruct (first_preferred d nms) as [[n f]|] eqn:Hp.
  - apply first_preferred_lookup in Hp as [Hl Hin].
    exists f. split; [now apply lookup_In | auto].
  - pose proof (first_preferred_none d nms Hp) as Hnone.
    destruct (largest_file d) as [[n f]|] eqn:Hl.
    + destruct (is_squashfs f || is_ext_image f) eqn:Hk.
      * exists f. split; [now apply largest_file_In | auto].
      * split; [reflexivity|]. split; [exact Hnone|].
        intros nm g Hg. inversion Hg; subst. now apply orb_false_iff.
    + split; [reflexivity|]. split; [exact Hnone | discriminate].
Qed.

Lemma first_preferred_skip d pre nm post f :
  (forall n g, In n pre -> lookup n d <> Some (File g)) ->
  lookup nm d = Some (File f) ->
  first_preferred d (pre ++ nm :: post) = Some (nm, f).
Proof.
  intros Hpre Hnm. induction pre as [|n pre IH]; cbn [app first_preferred].
  - now rewrite Hnm.
  - destruct (lookup n d) as [[g| | |]|] eqn:E;
      try (apply IH; intros m g' Hm; apply Hpre; now right).
    exfalso. apply (Hpre n g); [now left | exact E].
Qed.

(** X6: the order of the preferred names is their priority: a regular
    file under a name is chosen as soon as no earlier name of the list
    is a regular file, whatever the sizes of the files and without
    probing for ext2/3/4, by the detection and by the replacement
    alike. *)
Theorem earlier_preferred_name_wins :
  forall (d : listing) (pre : list string) (nm : string) (post : list string) (f : file),
    (forall n g, In n pre -> lookup n d <> Some (File g)) ->
    lookup nm d = Some (File f) ->
    detect_existing_inner d (pre ++ nm :: post) = (Some nm, is_squashfs f) /\
    resolve_target d (pre ++ nm :: post) = Ok nm.
Proof.
  intros d pre nm post f Hpre Hnm.
  pose proof (first_preferred_skip d pre nm post f Hpre Hnm) as Hp.
  unfold detect_existing_inner, resolve_target. now rewrite Hp.
Qed.

Lemma earlier_preferred_name_wins_witness :
  resolve_target Samples.odd_root preferred_root_names = Ok "rootfs.img".
Proof.
  apply (earlier_preferred_name_wins Samples.odd_root ["rootfs-A.img"] "rootfs.img"
           ["rootfs.squashfs"; "filesystem.squashfs"; "arch.squashfs"] Samples.plain_text).
  - intros n g [<-|[]]. discriminate.
  - reflexivity.
Defined.

(** X7: the target resolution of [replace_nested_image_in_partition]
    raises only [IndexError], and exactly when the list of names is
    empty and the partition holds no regular file; in that case the call
    raises it and leaves the partition untouched.  A name that is
    resolved is a regular file of the partition or, on a partition
    without regular files, the first name of the list. *)
Theorem resolve_target_fails_only_on_empty :
  forall (d : listing) (name_candidates : list string),
    (resolve_target d name_candidates = Raise IndexError <->
       name_candidates = [] /\ regular_files d = []) /\
    (forall e, resolve_target d name_candidates = Raise e -> e = IndexError) /\
    (forall nm, resolve_target d name_candidates = Ok nm ->
       (exists f, In (nm, File f) d) \/
       (regular_files d = [] /\ exists rest, name_candidates = nm :: rest)) /\
    (forall p new_inner cut,
       entries p = d -> name_candidates = [] -> regular_files d = [] ->
       replace_nested_image_in_partition name_candidates new_inner cut p
       = (Raise IndexError, p)).
Proof.
  intros d nms.
  assert (Hshape : forall r, resolve_target d nms = r ->
            match r with
            | Ok nm => (exists f, In (nm, File f) d) \/
                       (regular_files d = [] /\ exists rest, nms = nm :: rest)
            | Raise e => e = IndexError /\ nms = [] /\ regular_files d = []
            end).
  { intros r <-. unfold resolve_target.
    destruct (first_preferred d nms) as [[n f]|] eqn:Hp.
    - left. exists f. apply first_preferred_lookup in Hp as [Hl _]. now apply lookup_In.
    - unfold largest_file. destruct (regular_files d) as [|x xs] eqn:Hr.
      + destruct nms as [|n rest]; [auto | right; split; [reflexivity | now exists rest]].
      + destruct (max_by_size x xs) as [n f] eqn:Hm. left. exists f.
        apply regular_files_In. rewrite Hr, <- Hm. apply max_by_size_In. }
  split; [split|split; [|split]].
  - intros H. now destruct (Hshape _ H) as (_ & H1 & H2).
  - intros [-> Hr]. unfold resolve_target, largest_file. now rewrite Hr.
  - intros e H. now destruct (Hshape _ H).
  - intros nm H. exact (Hshape _ H).
  - intros p art cut <- -> Hr. unfold replace_nested_image_in_partition, resolve_target,
      largest_file. now rewrite Hr.
Qed.

(** replace then detect *)
Lemma first_preferred_after d d' nms nm f a :
  first_preferred d nms = Some (nm, f) ->
  (forall n, n <> nm -> lookup n d' = lookup n d \/ lookup n d' = None) ->
  lookup nm d' = Some (File a) ->
  first_preferred d' nms = Some (nm, a).
Proof.
  intros Hp Hother Hnm. induction nms as [|n nms IH]; [discriminate|].
  cbn [first_preferred] in *.
  destruct (String.eqb_spec n nm) as [->|Hne].
  - now rewrite Hnm.
  - destruct (Hother n Hne) as [E|E]; rewrite E.
    + destruct (lookup n d) as [[g| | |]|]; try (now apply IH).
      inversion Hp; subst. contradiction.
    + apply IH. destruct (lookup n d) as [[g| | |]|]; try exact Hp.
      inversion Hp; subst. contradiction.
Qed.

Lemma copy_atomically_ok target a p p' :
  copy_atomically target (Some a) None p = (Ok tt, p') ->
  is_locked target p = false /\ locked p' = locked p /\
  (forall c, lookup target (entries p) <> Some (Dir c)).
Proof.
  pose proof (tmp_name_fresh target) as Hfresh.
  unfold copy_atomically, path_exists, when, copy2, os_replace, unlink, bind, gets, modify, ret.
  destruct (lookup (tmp_name target) (entries p)) as [x|] eqn:Et; cbn [fst snd].
  - rewrite Et. destruct x as [g|c|t|]; try discriminate;
      (destruct (is_locked (tmp_name target) p); [discriminate|]);
      cbn [fst snd entries set_entries locked];
      rewrite lookup_upsert_same;
      rewrite lookup_upsert_other, lookup_remove_other by congruence;
      (destruct (lookup target (entries p)) as [[g'|c'|t'|]|]; try discriminate);
      unfold is_locked; cbn [locked set_entries];
      (destruct (locked_under (locked p) target); [discriminate|]);
      intros H; inversion H; subst; cbn [locked set_entries]; repeat split; discriminate.
  - cbn [fst snd entries set_entries locked]. rewrite lookup_upsert_same.
    rewrite lookup_upsert_other by congruence.
    destruct (lookup target (entries p)) as [[g'|c'|t'|]|]; try discriminate;
      unfold is_locked; cbn [locked set_entries];
      (destruct (locked_under (locked p) target); [discriminate|]);
      intros H; inversion H; subst; cbn [locked set_entries]; repeat split; discriminate.
Qed.

Lemma copy_atomically_runs target a q :
  lookup (tmp_name target) (entries q) = None ->
  is_locked target q = false ->
  (forall c, lookup target (entries q) <> Some (Dir c)) ->
  fst (copy_atomically target (Some a) None q) = Ok tt.
Proof.
  pose proof (tmp_name_fresh target) as Hfresh.
  intros Ht Hl Hd.
  unfold copy_atomically, path_exists, when, copy2, os_replace, bind, gets, modify, ret.
  rewrite Ht. cbn [fst snd entries set_entries].
  rewrite lookup_upsert_same, lookup_upsert_other by congruence.
  unfold is_locked in *. cbn [locked set_entries]. rewrite Hl.
  destruct (lookup target (entries q)) as [[g'|c'|t'|]|]; try reflexivity.
  now destruct (Hd c').
Qed.

(** X8: after a replacement that returned, of an image found under a
    preferred name, detection finds the new image under the same name
    (with the probe of the new image as its flag), the replacement would
    target the same name again, and replacing once more with the same
    artifact succeeds and changes no entry. *)
Theorem replaced_image_is_found_again :
  forall (p : part) (names : list string) (nm : string) (f art : file),
    first_preferred (entries p) names = Some (nm, f) ->
    fst (replace_nested_image_in_partition names (Some art) None p) = Ok tt ->
    let p' := snd (replace_nested_image_in_partition names (Some art) None p) in
    let again := replace_nested_image_in_partition names (Some art) None p' in
    detect_existing_inner (entries p') names = (Some nm, is_squashfs art) /\
    resolve_target (entries p') names = Ok nm /\
    fst again = Ok tt /\
    (forall n, lookup n (entries (snd again)) = lookup n (entries p')).
Proof.
  intros p nms nm f art Hp Hok. cbv zeta.
  assert (Ht : resolve_target (entries p) nms = Ok nm)
    by (unfold resolve_target; now rewrite Hp).
  assert (Heq : forall q, resolve_target (entries q) nms = Ok nm ->
                  replace_nested_image_in_partition nms (Some art) None q
                  = copy_atomically nm (Some art) None q).
  { intros q Hq. unfold replace_nested_image_in_partition. rewrite Hq.
    unfold bind at 1. now rewrite ensure_free_space_passes. }
  rewrite (Heq p Ht) in *.
  pose proof (copy_atomically_frame nm art None p) as (F1 & F2 & _). cbv zeta in F1, F2.
  destruct (F2 Hok) as [Hnew Htmp].
  destruct (copy_atomically nm (Some art) None p) as [r p'] eqn:E. cbn [fst snd] in *. subst r.
  destruct (copy_atomically_ok nm art p p' E) as (Hl & Hlk & _).
  assert (Hp' : first_preferred (entries p') nms = Some (nm, art)).
  { apply (first_preferred_after (entries p) (entries p') nms nm f art Hp); [|exact Hnew].
    intros n Hn. destruct (String.eqb_spec n (tmp_name nm)) as [->|Hn2]; [now right | left].
    now apply F1. }
  assert (Ht' : resolve_target (entries p') nms = Ok nm)
    by (unfold resolve_target; now rewrite Hp').
  split; [unfold detect_existing_inner; now rewrite Hp'|]. split; [exact Ht'|].
  rewrite (Heq p' Ht').
  assert (Hok2 : fst (copy_atomically nm (Some art) None p') = Ok tt).
  { apply copy_atomically_runs; [exact Htmp | unfold is_locked in *; now rewrite Hlk |].
    intros c. rewrite Hnew. discriminate. }
  split; [exact Hok2|].
  pose proof (copy_atomically_frame nm art None p') as (G1 & G2 & _). cbv zeta in G1, G2.
  destruct (G2 Hok2) as [Gnew Gtmp].
  intros n. destruct (String.eqb_spec n nm) as [->|Hn]; [congruence|].
  destruct (String.eqb_spec n (tmp_name nm)) as [->|Hn2]; [congruence | now apply G1].
Qed.

Lemma replaced_image_is_found_again_witness :
  resolve_target
    (entries (snd (replace_nested_image_in_partition preferred_root_names
                     (Some Samples.new_image) None (Samples.roomy_part Samples.nested_root))))
    preferred_root_names = Ok "rootfs-A.img".
Proof.
  apply (replaced_image_is_found_again (Samples.roomy_part Samples.nested_root)
           preferred_root_names "rootfs-A.img" Samples.ext_image Samples.new_image);
    reflexivity.
Defined.

Lemma files_only_preorder : PreOrder files_only.
Proof.
  split.
  - intros w. repeat split.
  - intros a b c (A1 & A2 & A3 & A4 & A5 & A6 & A7) (B1 & B2 & B3 & B4 & B5 & B6 & B7).
    repeat split; congruence.
Qed.
#[local] Existing Instance files_only_preorder.

Lemma on_part_files_only {A} dev (body : St part A) : keeps files_only (on_part dev body).
Proof.
  intros w. unfold on_part. destruct (get_part dev w) as [p|]; [|apply files_only_preorder].
  destruct (body p) as [r p']. cbn [snd]. unfold put_part.
  destruct (loop_of dev w) as [[l img]|]; [|apply files_only_preorder].
  destruct (lookup img (host w)) as [[?|boot parts|?|? ?]|]; try apply files_only_preorder.
  destruct (partition_of l dev parts) as [[k q]|]; [|apply files_only_preorder].
  repeat split.
Qed.

(** Writing back the partition that was read changes nothing. *)
Lemma upsert_same {A} nm (x : A) d : lookup nm d = Some x -> upsert nm x d = d.
Proof.
  induction d as [|[n y] d IH]; simpl; [discriminate|].
  destruct (String.eqb_spec n nm) as [->|Hne]; intros H; [now inversion H | now rewrite IH].
Qed.

Lemma set_nth_part_same (named : nat * part -> bool) k p parts :
  (forall x y, named (k, x) = named (k, y)) ->
  find named parts = Some (k, p) ->
  set_nth_part k p parts = parts.
Proof.
  intros Hk. induction parts as [|[k' q] parts IH]; cbn [find set_nth_part]; [reflexivity|].
  destruct (named (k', q)) eqn:En.
  - intros H. inversion H; subst. now rewrite Nat.eqb_refl.
  - intros H. destruct (Nat.eqb_spec k' k) as [->|Hne].
    + apply find_some in H as [_ H]. rewrite (Hk q p) in En. congruence.
    + now rewrite IH.
Qed.

Lemma put_part_same dev p w : get_part dev w = Some p -> put_part dev p w = w.
Proof.
  unfold get_part, put_part.
  destruct (loop_of dev w) as [[l img]|]; [|discriminate].
  destruct (lookup img (host w)) as [[?|boot parts|?|? ?]|] eqn:Ei; try discriminate.
  destruct (partition_of l dev parts) as [[k q]|] eqn:Ep; [|discriminate].
  cbn [option_map snd]. intros H. inversion H; subst q.
  unfold partition_of in Ep.
  rewrite (set_nth_part_same
             (fun kp : nat * part => String.eqb dev (l ++ "p" ++ decimal (fst kp))) k p parts);
    [|reflexivity | exact Ep].
  unfold upd_host. rewrite (upsert_same img _ (host w) Ei). now destruct w.
Qed.

(** The frame of [in_partition], for a body that issues no command. *)
Lemma in_partition_frame {A} prefix dev (body : string -> St world A) w :
  (forall mnt, keeps files_only (body mnt)) ->
  let mnt := next_tmp prefix w in
  let r := in_partition prefix dev body w in
  calls (snd r) = (calls w ++ [Mount dev mnt; Umount mnt; Rmtree mnt])%list /\
  loops (snd r) = loops w /\ atexit (snd r) = atexit w /\
  next_loop (snd r) = next_loop w /\ stdout (snd r) = stdout w /\
  seq (snd r) = S (seq w) /\
  (lookup mnt (mounted w) = None -> mounted (snd r) = mounted w).
Proof.
  intros Hbody. cbv zeta.
  unfold in_partition, mkdtemp, try_finally_do, mount_rw, umount, rmtree_tmp, issue,
    next_outcome, bind, gets, modify, raise. fold (next_tmp prefix w).
  set (mnt := next_tmp prefix w).
  cbn [fst snd plan upd_calls set_seq].
  destruct (plan w) as [|[k|] rest] eqn:Ep; cbn [fst snd];
    try match goal with
    | |- context [is_some (get_part dev ?s)] => destruct (is_some (get_part dev s))
    end; cbn [fst snd];
    try match goal with
    | |- context [body mnt ?s] =>
        let H := fresh "H" in
        pose proof (Hbody mnt s) as H; destruct (body mnt s) as [r w3]; cbn [snd] in H;
        destruct H as (H1 & H2 & H3 & H4 & H5 & H6 & H7)
    end;
    cbn [fst snd calls loops atexit next_loop stdout seq mounted
         upd_calls upd_mounted set_plan set_seq] in *;
    rewrite ?H1, ?H2, ?H3, ?H4, ?H5, ?H6, ?H7;
    cbn [drop_first]; rewrite ?String.eqb_refl, <- ?app_assoc; cbn [app];
    repeat split; try reflexivity; try (intros Hf; now apply drop_first_absent).
Qed.

(** The same for the loop mount of [build_ext4_image]. *)
Lemma image_scope_frame {A} img (body : St world A) w :
  keeps files_only body ->
  let mnt := next_tmp "extimg_" w in
  let r := (mnt <- mkdtemp "extimg_" ;;
            try_finally_do (mount_rw_loop img mnt ;; body) (umount mnt ;; rmtree_tmp mnt)) w in
  calls (snd r) = (calls w ++ [MountImage img mnt; Umount mnt; Rmtree mnt])%list /\
  loops (snd r) = loops w /\ atexit (snd r) = atexit w /\
  next_loop (snd r) = next_loop w /\ stdout (snd r) = stdout w /\
  seq (snd r) = S (seq w) /\
  (lookup mnt (mounted w) = None -> mounted (snd r) = mounted w).
Proof.
  intros Hbody. cbv zeta.
  unfold mkdtemp, try_finally_do, mount_rw_loop, umount, rmtree_tmp, issue,
    next_outcome, bind, gets, modify, raise. fold (next_tmp "extimg_" w).
  set (mnt := next_tmp "extimg_" w).
  cbn [fst snd plan upd_calls set_seq].
  destruct (plan w) as [|[k|] rest] eqn:Ep; cbn [fst snd];
    try match goal with
    | |- context [is_some (lookup img (build ?s))] => destruct (is_some (lookup img (build s)))
    end; cbn [fst snd];
    try match goal with
    | |- context [body ?s] =>
        let H := fresh "H" in
        pose proof (Hbody s) as H; destruct (body s) as [r w3]; cbn [snd] in H;
        destruct H as (H1 & H2 & H3 & H4 & H5 & H6 & H7)
    end;
    cbn [fst snd calls loops atexit next_loop stdout seq mounted
         upd_calls upd_mounted set_plan set_seq] in *;
    rewrite ?H1, ?H2, ?H3, ?H4, ?H5, ?H6, ?H7;
    cbn [drop_first]; rewrite ?String.eqb_refl, <- ?app_assoc; cbn [app];
    repeat split; try reflexivity; try (intros Hf; now apply drop_first_absent).
Qed.

(** A mount that fails: the helper raises what [mount] raised, after the
    finalizer, and no file has changed. *)
Lemma in_partition_mount_fails {A} prefix dev (body : string -> St world A) w :
  (exists k, hd_error (plan w) = Some (Some k)) \/ get_part dev w = None ->
  fst (in_partition prefix dev body w)
  = Raise (CalledProcessError ["mount"; "-o"; "rw"; dev; next_tmp prefix w]) /\
  host (snd (in_partition prefix dev body w)) = host w /\
  build (snd (in_partition prefix dev body w)) = build w.
Proof.
  intros Hf.
  unfold in_partition, mkdtemp, try_finally_do, mount_rw, umount, rmtree_tmp, issue,
    next_outcome, bind, gets, modify, raise. fold (next_tmp prefix w).
  cbn [fst snd plan upd_calls set_seq].
  destruct (plan w) as [|[k|] rest] eqn:Ep; cbn [fst snd hd_error] in *;
    try (repeat split; reflexivity);
    (destruct Hf as [[k' Hf]|Hf]; [discriminate|]);
    match goal with
    | |- context [is_some (get_part dev ?s)] =>
        change (get_part dev s) with (get_part dev w)
    end; rewrite Hf; repeat split; reflexivity.
Qed.

(** A mount that succeeds: the body runs on a state with the same files. *)
Lemma in_partition_mounted {A} prefix dev (body : string -> St world A) w p :
  hd_error (plan w) = Some None \/ plan w = [] ->
  get_part dev w = Some p ->
  exists w2,
    get_part dev w2 = Some p /\ host w2 = host w /\ build w2 = build w /\
    loops w2 = loops w /\ plan w2 = tl (plan w) /\
    fst (in_partition prefix dev body w) = fst (body (next_tmp prefix w) w2) /\
    host (snd (in_partition prefix dev body w)) = host (snd (body (next_tmp prefix w) w2)) /\
    build (snd (in_partition prefix dev body w)) = build (snd (body (next_tmp prefix w) w2)).
Proof.
  intros Hpl Hp.
  unfold in_partition, mkdtemp, try_finally_do, mount_rw, umount, rmtree_tmp, issue,
    next_outcome, bind, gets, modify, raise. fold (next_tmp prefix w).
  cbn [fst snd plan upd_calls set_seq].
  destruct (plan w) as [|[k|] rest] eqn:Ep; cbn [fst snd hd_error] in *;
    try (destruct Hpl; discriminate);
    match goal with
    | |- context [is_some (get_part dev ?s)] =>
        change (get_part dev s) with (get_part dev w)
    end; rewrite Hp; cbn [is_some fst snd];
    match goal with
    | |- context [body _ ?s] => exists s; destruct (body (next_tmp prefix w) s) as [r w3]
    end; cbn [fst snd]; repeat split; assumption.
Qed.

Ltac quiet_prim :=
  idtac;
  match goal with
  | |- keeps _ next_outcome =>
      let w := fresh "w" in
      intros w; unfold next_outcome; destruct (plan w); repeat split
  | |- keeps _ (on_part _ _) => apply on_part_files_only
  | |- keeps _ (modify (upd_build _)) => apply keeps_modify; intros ?; repeat split
  | |- keeps _ (modify (upd_host _)) => apply keeps_modify; intros ?; repeat split
  | |- keeps _ (Run.write _ _) => unfold Run.write
  | |- keeps _ (Run.rename _ _) =>
      let w := fresh "w" in
      intros w; unfold Run.rename; destruct (lookup _ (build w)); repeat split
  end.

Lemma detect_body_quiet (dev : string) (names : list string) (mnt : string) :
  keeps files_only
    (on_part dev (fun p : part =>
       let (path, sq) := Part.detect_existing_inner (entries p) names in
       (Ok (option_map (fun nm : string => (mnt, nm)) path, sq), p))).
Proof. apply on_part_files_only. Qed.

Lemma replace_body_quiet (dev : string) (names : list string) (new_inner : string) :
  keeps files_only
    (artifact <- gets (fun w => lookup new_inner (build w)) ;;
     o <- next_outcome ;;
     on_part dev (Part.replace_nested_image_in_partition names artifact (option_map Z.of_nat o))).
Proof. keeps_split quiet_prim. Qed.

Lemma wipe_body_quiet (dev root : string) (sub : srcpath) :
  keeps files_only
    (src <- gets (source_listing root sub) ;;
     o <- next_outcome ;;
     on_part dev (Part.wipe_and_fill_partition_direct src o)).
Proof. keeps_split quiet_prim. Qed.

(** What [detect_existing_inner] does to the machine, and what its
    answer is. *)
Lemma detect_existing_inner_frame :
  forall (w : world) (part_dev : string) (preferred_names : list string),
    let mnt := next_tmp "detmnt_" w in
    let r := Run.detect_existing_inner part_dev preferred_names w in
    host (snd r) = host w /\ build (snd r) = build w /\ loops (snd r) = loops w /\
    calls (snd r) = (calls w ++ [Mount part_dev mnt; Umount mnt; Rmtree mnt])%list /\
    (lookup mnt (mounted w) = None -> mounted (snd r) = mounted w) /\
    (forall path sq,
        fst r = Ok (path, sq) ->
        exists p,
          get_part part_dev w = Some p /\
          Part.detect_existing_inner (entries p) preferred_names = (option_map snd path, sq) /\
          (forall ep, path = Some ep -> fst ep = mnt)).
Proof.
  intros w dev names. cbv zeta. unfold Run.detect_existing_inner.
  destruct (in_partition_frame "detmnt_" dev _ w
              (fun mnt => detect_body_quiet dev names mnt))
    as (Hc & Hl & _ & _ & _ & _ & Hm).
  assert (Hcases : (exists k, hd_error (plan w) = Some (Some k)) \/ get_part dev w = None \/
                   ((hd_error (plan w) = Some None \/ plan w = []) /\
                    exists p, get_part dev w = Some p)).
  { destruct (get_part dev w) as [p|]; [|auto].
    destruct (plan w) as [|[k|] rest]; cbn [hd_error]; eauto 6. }
  destruct Hcases as [Hf|[Hf|[Hpl [p Hp]]]].
  - destruct (in_partition_mount_fails "detmnt_" dev
                (fun mnt => on_part dev (fun p : part =>
                   let (path, sq) := Part.detect_existing_inner (entries p) names in
                   (Ok (option_map (fun nm : string => (mnt, nm)) path, sq), p))) w (or_introl Hf))
      as (Hr & Hh & Hb).
    repeat split; auto. intros path sq E. rewrite Hr in E. discriminate.
  - destruct (in_partition_mount_fails "detmnt_" dev
                (fun mnt => on_part dev (fun p : part =>
                   let (path, sq) := Part.detect_existing_inner (entries p) names in
                   (Ok (option_map (fun nm : string => (mnt, nm)) path, sq), p))) w (or_intror Hf))
      as (Hr & Hh & Hb).
    repeat split; auto. intros path sq E. rewrite Hr in E. discriminate.
  - destruct (in_partition_mounted "detmnt_" dev
                (fun mnt => on_part dev (fun p : part =>
                   let (path, sq) := Part.detect_existing_inner (entries p) names in
                   (Ok (option_map (fun nm : string => (mnt, nm)) path, sq), p))) w p Hpl Hp)
      as (w2 & Hp2 & Hh2 & Hb2 & _ & _ & Hr & Hh & Hb).
    rewrite Hr, Hh, Hb. unfold on_part. rewrite Hp2.
    destruct (Part.detect_existing_inner (entries p) names) as [path0 sq0] eqn:Ed.
    cbn [fst snd]. rewrite (put_part_same dev p w2 Hp2).
    repeat split; auto.
    intros path sq E. inversion E; subst. exists p. split; [exact Hp|].
    split; [|intros ep Hep; destruct path0; inversion Hep; reflexivity].
    rewrite Ed. now destruct path0.
Qed.

(** X10: [detect_existing_inner] issues exactly three commands, whether
    it returns or raises: the mount of the partition on a fresh
    directory, then the unmount and the removal of that directory.  With
    the partition there and a mount that succeeds it returns the answer
    of the search in the partition's top-level directory, and the path
    it returns lies below the directory whose unmount and removal have
    been issued, so that only its name is of use to the caller.
    Otherwise it raises the [CalledProcessError] of the mount, and no
    file has changed. *)
Theorem detect_existing_inner_mounts_once :
  forall (w : world) (part_dev : string) (preferred_names : list string),
    let mnt := next_tmp "detmnt_" w in
    let r := Run.detect_existing_inner part_dev preferred_names w in
    calls (snd r) = (calls w ++ [Mount part_dev mnt; Umount mnt; Rmtree mnt])%list /\
    (forall p,
        hd_error (plan w) = Some None \/ plan w = [] ->
        get_part part_dev w = Some p ->
        let found := Part.detect_existing_inner (entries p) preferred_names in
        fst r = Ok (option_map (fun nm => (mnt, nm)) (fst found), snd found)) /\
    (forall path sq,
        fst r = Ok (path, sq) ->
        exists p,
          get_part part_dev w = Some p /\
          Part.detect_existing_inner (entries p) preferred_names = (option_map snd path, sq) /\
          (forall ep, path = Some ep -> fst ep = mnt)) /\
    ((exists k, hd_error (plan w) = Some (Some k)) \/ get_part part_dev w = None ->
     fst r = Raise (CalledProcessError ["mount"; "-o"; "rw"; part_dev; mnt]) /\
     host (snd r) = host w).
Proof.
  intros w dev names. cbv zeta.
  destruct (detect_existing_inner_frame w dev names) as (_ & _ & _ & Hc & _ & Hans).
  split; [exact Hc|]. split; [|split; [exact Hans|]]; unfold Run.detect_existing_inner.
  - intros p Hpl Hp.
    destruct (in_partition_mounted "detmnt_" dev
                (fun mnt => on_part dev (fun p : part =>
                   let (path, sq) := Part.detect_existing_inner (entries p) names in
                   (Ok (option_map (fun nm : string => (mnt, nm)) path, sq), p))) w p Hpl Hp)
      as (w2 & Hp2 & _ & _ & _ & _ & Hr & _).
    rewrite Hr. unfold on_part. rewrite Hp2.
    now destruct (Part.detect_existing_inner (entries p) names).
  - intros Hf.
    destruct (in_partition_mount_fails "detmnt_" dev
                (fun mnt => on_part dev (fun p : part =>
                   let (path, sq) := Part.detect_existing_inner (entries p) names in
                   (Ok (option_map (fun nm : string => (mnt, nm)) path, sq), p))) w Hf)
      as (Hr & Hh & _).
    split; assumption.
Qed.

(** X11: [replace_nested_image_in_partition] and
    [wipe_and_fill_partition_direct] each issue exactly three commands,
    whether they return or raise: the mount of the partition on a fresh
    directory, then the unmount and the removal of that directory.  They
    leave the build directory as it is.  If the mount fails they raise
    its [CalledProcessError] and no file has changed. *)
Theorem partition_helpers_mount_once :
  forall (w : world) (part_dev : string) (name_candidates : list string)
         (new_inner root_tree : string) (sub : srcpath),
    let mnt := next_tmp "partmnt_" w in
    let r1 := Run.replace_nested_image_in_partition part_dev name_candidates new_inner w in
    let r2 := Run.wipe_and_fill_partition_direct part_dev root_tree sub w in
    let visited (s : world) :=
      calls s = (calls w ++ [Mount part_dev mnt; Umount mnt; Rmtree mnt])%list /\
      build s = build w in
    let refused (r : res unit * world) :=
      fst r = Raise (CalledProcessError ["mount"; "-o"; "rw"; part_dev; mnt]) /\
      host (snd r) = host w in
    visited (snd r1) /\ visited (snd r2) /\
    ((exists k, hd_error (plan w) = Some (Some k)) \/ get_part part_dev w = None ->
     refused r1 /\ refused r2).
Proof.
  intros w dev names new_inner root sub. cbv zeta.
  unfold Run.replace_nested_image_in_partition, Run.wipe_and_fill_partition_direct.
  destruct (in_partition_frame "partmnt_" dev _ w
              (fun _ => replace_body_quiet dev names new_inner))
    as (Hc1 & Hl1 & _ & _ & _ & _ & Hm1).
  destruct (in_partition_frame "partmnt_" dev _ w
              (fun _ => wipe_body_quiet dev root sub))
    as (Hc2 & Hl2 & _ & _ & _ & _ & Hm2).
  assert (Hb : forall (body : string -> St world unit),
             (forall mnt, keeps (fun a b => build b = build a) (body mnt)) ->
             build (snd (in_partition "partmnt_" dev body w)) = build w).
  { intros body Hbody.
    assert (Hk : keeps (fun a b => build b = build a) (in_partition "partmnt_" dev body)).
    { assert (HP : PreOrder (fun a b : world => build b = build a))
        by (split; [intros a; reflexivity | intros a b c H1 H2; congruence]).
      unfold in_partition, mount_rw, umount, rmtree_tmp, issue.
      keeps_split ltac:(first
        [ apply Hbody
        | apply keeps_modify; intros ?; reflexivity
        | match goal with
          | |- keeps _ next_outcome =>
              let v := fresh "v" in
              intros v; unfold next_outcome; destruct (plan v); reflexivity
          | |- keeps _ (mkdtemp _) => intros ?; reflexivity
          end ]). }
    apply Hk. }
  assert (Hon : forall {A} (body : St part A),
             keeps (fun a b => build b = build a) (on_part dev body)).
  { intros A body v. unfold on_part. destruct (get_part dev v) as [p|]; [|reflexivity].
    destruct (body p) as [r p']. cbn [snd]. unfold put_part.
    destruct (loop_of dev v) as [[l img]|]; [|reflexivity].
    destruct (lookup img (host v)) as [[?|boot parts|?|? ?]|]; try reflexivity.
    destruct (partition_of l dev parts) as [[k q]|]; reflexivity. }
  assert (HP : PreOrder (fun a b : world => build b = build a))
    by (split; [intros a; reflexivity | intros a b c H1 H2; congruence]).
  split; [|split].
  - repeat split; auto. apply Hb. intros _.
    keeps_split ltac:(first
      [ apply Hon
      | match goal with
        | |- keeps _ next_outcome =>
            let v := fresh "v" in
            intros v; unfold next_outcome; destruct (plan v); reflexivity
        end ]).
  - repeat split; auto. apply Hb. intros _.
    keeps_split ltac:(first
      [ apply Hon
      | match goal with
        | |- keeps _ next_outcome =>
            let v := fresh "v" in
            intros v; unfold next_outcome; destruct (plan v); reflexivity
        end ]).
  - intros Hf. split.
    + now destruct (in_partition_mount_fails "partmnt_" dev
                      (fun _ => artifact <- gets (fun w => lookup new_inner (build w)) ;;
                                o <- next_outcome ;;
                                on_part dev (Part.replace_nested_image_in_partition names artifact
                                               (option_map Z.of_nat o))) w Hf) as (H1 & H2 & _).
    + now destruct (in_partition_mount_fails "partmnt_" dev
                      (fun _ => src <- gets (source_listing root sub) ;;
                                o <- next_outcome ;;
                                on_part dev (Part.wipe_and_fill_partition_direct src o)) w Hf)
        as (H1 & H2 & _).
Qed.

Lemma one_image_mount_after img w s w' :
  files_only w s -> host s = host w -> one_image_mount img s w' -> one_image_mount img w w'.
Proof.
  intros (A1 & A2 & A3 & A4 & A5 & A6 & A7) Hh (B1 & B2 & B3 & B4 & B5 & B6 & B7 & B8).
  unfold one_image_mount, next_tmp in *. rewrite A1, A2, A3, A4, A5, A6, A7, Hh in *.
  repeat split; auto.
Qed.

Lemma one_image_mount_before img w s w' :
  one_image_mount img w s -> files_only s w' -> host w' = host s -> one_image_mount img w w'.
Proof.
  intros (B1 & B2 & B3 & B4 & B5 & B6 & B7 & B8) (A1 & A2 & A3 & A4 & A5 & A6 & A7) Hh.
  unfold one_image_mount, next_tmp in *. rewrite A1, A2, A3, A4, A5, A6, A7, Hh in *.
  repeat split; auto.
Qed.

Lemma one_image_mount_none img w w' : files_only w w' -> host w' = host w -> one_image_mount img w w'.
Proof.
  intros (A1 & A2 & A3 & A4 & A5 & A6 & A7) Hh. unfold one_image_mount.
  rewrite A1, A2, A3, A4, A5, A6, A7. repeat split; auto.
Qed.

Lemma one_image_mount_bind {A B} img (m : St world A) (k : A -> St world B) w :
  keeps files_only m -> keeps (fun a b => host b = host a) m ->
  (forall a s, one_image_mount img s (snd (k a s))) ->
  one_image_mount img w (snd (bind m k w)).
Proof.
  intros Hm Hh Hk. unfold bind. specialize (Hm w). specialize (Hh w).
  destruct (m w) as [[a|e] s]; cbn [snd] in *.
  - eapply one_image_mount_after; [exact Hm | exact Hh | apply Hk].
  - now apply one_image_mount_none.
Qed.

Lemma host_eq_preorder : PreOrder (fun a b : world => host b = host a).
Proof. split; [intros a; reflexivity | intros a b c H1 H2; congruence]. Qed.
#[local] Existing Instance host_eq_preorder.

Ltac hosteq_prim :=
  idtac;
  match goal with
  | |- keeps _ (modify _) => apply keeps_modify; intros ?; reflexivity
  | |- keeps _ next_outcome =>
      let w := fresh "w" in
      intros w; unfold next_outcome; destruct (plan w); reflexivity
  | |- keeps _ (mkdtemp _) => intros ?; reflexivity
  | |- keeps _ (Run.write _ _) => unfold Run.write
  | |- keeps _ (print _) => unfold print
  | |- keeps _ (issue _) => unfold issue
  | |- keeps _ (Run.rename _ _) =>
      let w := fresh "w" in
      intros w; unfold Run.rename; destruct (lookup _ (build w)); reflexivity
  end.

(** The builders write no file of the host. *)
Lemma build_ext4_image_keeps_host root sub out label :
  keeps (fun a b => host b = host a) (Run.build_ext4_image root sub out label).
Proof.
  unfold Run.build_ext4_image, Run.du_bytes, Run.unlink_stale, Run.mkfs_ext4, Run.rsync_image,
    mount_rw_loop, umount, rmtree_tmp.
  keeps_split hosteq_prim.
Qed.

Lemma build_squashfs_keeps_host root sub out :
  keeps (fun a b => host b = host a) (Run.build_squashfs root sub out).
Proof.
  unfold Run.build_squashfs, Run.unlink_stale, Run.mksquashfs.
  keeps_split hosteq_prim.
Qed.

Lemma du_bytes_quiet root sub : keeps files_only (Run.du_bytes root sub).
Proof. unfold Run.du_bytes. keeps_split quiet_prim. Qed.

Lemma unlink_stale_quiet tmp : keeps files_only (Run.unlink_stale tmp).
Proof. unfold Run.unlink_stale. keeps_split quiet_prim. Qed.

Lemma write_quiet tmp f : keeps files_only (Run.write tmp f).
Proof. keeps_split quiet_prim. Qed.

Lemma mkfs_ext4_quiet label size tmp : keeps files_only (Run.mkfs_ext4 label size tmp).
Proof. unfold Run.mkfs_ext4. keeps_split quiet_prim. Qed.

Lemma rsync_image_quiet root sub label size tmp :
  keeps files_only (Run.rsync_image root sub label size tmp).
Proof. unfold Run.rsync_image. keeps_split quiet_prim. Qed.

Lemma rename_quiet a b : keeps files_only (Run.rename a b).
Proof. quiet_prim. Qed.

Lemma ext4_steps_one_mount root sub out label w :
  one_image_mount (tmp_name out) w (snd (ext4_steps root sub out label w)).
Proof.
  unfold ext4_steps.
  apply one_image_mount_bind;
    [apply du_bytes_quiet | unfold Run.du_bytes; keeps_split hosteq_prim | intros data s0].
  apply one_image_mount_bind;
    [apply unlink_stale_quiet | unfold Run.unlink_stale; keeps_split hosteq_prim | intros _ s1].
  apply one_image_mount_bind;
    [apply write_quiet | keeps_split hosteq_prim | intros _ s2].
  apply one_image_mount_bind;
    [apply mkfs_ext4_quiet | unfold Run.mkfs_ext4; keeps_split hosteq_prim | intros _ s3].
  destruct (image_scope_frame (tmp_name out)
              (Run.rsync_image root sub label (ext4_image_size data) (tmp_name out)) s3
              (rsync_image_quiet _ _ _ _ _)) as (Hc & Hl & Ha & Hn & Hs & Hq & Hm).
  assert (Hh : keeps (fun a b => host b = host a)
                 (mnt <- mkdtemp "extimg_" ;;
                  try_finally_do
                    (mount_rw_loop (tmp_name out) mnt ;;
                     Run.rsync_image root sub label (ext4_image_size data) (tmp_name out))
                    (umount mnt ;; rmtree_tmp mnt))).
  { unfold Run.rsync_image, mount_rw_loop, umount, rmtree_tmp. keeps_split hosteq_prim. }
  unfold one_image_mount.
  split; [apply Hh|]. split; [exact Hl|]. split; [exact Ha|]. split; [exact Hn|].
  split; [exact Hs|]. split; [rewrite Hq; lia|]. split; [exact Hm | now right].
Qed.

Lemma build_ext4_image_one_mount root sub out label w :
  one_image_mount (tmp_name out) w (snd (Run.build_ext4_image root sub out label w)).
Proof.
  rewrite build_ext4_image_commits. unfold bind.
  pose proof (ext4_steps_one_mount root sub out label w) as Hs.
  destruct (ext4_steps root sub out label w) as [[a|e] s]; cbn [snd] in *; [|exact Hs].
  eapply one_image_mount_before; [exact Hs | apply rename_quiet |].
  unfold Run.rename. destruct (lookup _ (build s)); reflexivity.
Qed.

(** X12: [build_ext4_image] writes no file of the host.  It issues no
    command at all, when a step before the mount fails, or exactly
    three: the loop mount of its temporary file on a fresh directory,
    then the unmount and the removal of that directory, whether the
    mount and the copy succeed or not.  A call that returns has gone
    through the mount. *)
Theorem build_ext4_image_mounts_once :
  forall (w : world) (root_tree : string) (src_dir : srcpath) (out_file label : string),
    let mnt := next_tmp "extimg_" w in
    let tmp := tmp_name out_file in
    let r := Run.build_ext4_image root_tree src_dir out_file label w in
    host (snd r) = host w /\
    (calls (snd r) = calls w \/
     calls (snd r) = (calls w ++ [MountImage tmp mnt; Umount mnt; Rmtree mnt])%list) /\
    (fst r = Ok tt ->
     calls (snd r) = (calls w ++ [MountImage tmp mnt; Umount mnt; Rmtree mnt])%list).
Proof.
  intros w root sub out label. cbv zeta.
  destruct (build_ext4_image_one_mount root sub out label w)
    as (H1 & _ & _ & _ & _ & _ & _ & H8).
  split; [exact H1|]. split; [exact H8|].
  intros Hok.
  destruct (Run.build_ext4_image root sub out label w) as [r w'] eqn:E.
  cbn [fst snd] in *. subst r.
  rewrite build_ext4_image_commits in E.
  apply bind_ok in E as (u & w1 & E & Hr). unfold ext4_steps in E.
  apply bind_ok in E as (D & s0 & H0 & E). pose proof (du_bytes_quiet root sub w) as Q0.
  rewrite H0 in Q0. cbn [snd] in Q0.
  apply bind_ok in E as (? & s1 & H1' & E). pose proof (unlink_stale_quiet (tmp_name out) s0) as Q1.
  rewrite H1' in Q1. cbn [snd] in Q1.
  apply bind_ok in E as (? & s2 & H2' & E).
  pose proof (write_quiet (tmp_name out) (mkFile (Zeros (ext4_image_size D)) (Some "data")) s1) as Q2.
  rewrite H2' in Q2. cbn [snd] in Q2.
  apply bind_ok in E as (? & s3 & H3' & E).
  pose proof (mkfs_ext4_quiet label (ext4_image_size D) (tmp_name out) s2) as Q3.
  rewrite H3' in Q3. cbn [snd] in Q3.
  destruct (image_scope_frame (tmp_name out)
              (Run.rsync_image root sub label (ext4_image_size D) (tmp_name out)) s3
              (rsync_image_quiet _ _ _ _ _)) as (Hc & _).
  rewrite E in Hc. cbn [snd] in Hc.
  pose proof (rename_quiet (tmp_name out) out w1) as Q4. rewrite Hr in Q4. cbn [snd] in Q4.
  assert (Q : files_only w s3) by (repeat (etransitivity; [eassumption|]); reflexivity).
  destruct Q as (C1 & _ & _ & C4 & _). destruct Q4 as (D1 & _).
  rewrite D1, Hc, C1. unfold next_tmp. now rewrite C4.
Qed.

Lemma visits_only_preorder : PreOrder visits_only.
Proof.
  split.
  - intros w. repeat split. exists []. split; [constructor | now rewrite app_nil_r].
  - intros a b c (A1 & A2 & va & Va & Ca) (B1 & B2 & vb & Vb & Cb).
    split; [congruence|]. split; [congruence|].
    exists (va ++ vb)%list. split; [now apply Forall_app|].
    rewrite Cb, Ca, List.concat_app, app_assoc. reflexivity.
Qed.
#[local] Existing Instance visits_only_preorder.

Lemma visits_none w w' :
  calls w' = calls w -> atexit w' = atexit w -> next_loop w' = next_loop w ->
  visits_only w w'.
Proof.
  intros Hc Ha Hn. split; [exact Ha|]. split; [exact Hn|].
  exists []. split; [constructor | now rewrite Hc, app_nil_r].
Qed.

Lemma in_partition_visits {A} prefix dev (body : string -> St world A) :
  (forall mnt, keeps files_only (body mnt)) ->
  keeps visits_only (in_partition prefix dev body).
Proof.
  intros Hbody w.
  destruct (in_partition_frame prefix dev body w Hbody) as (Hc & _ & Ha & Hn & _).
  split; [exact Ha|]. split; [exact Hn|].
  exists [[Mount dev (next_tmp prefix w); Umount (next_tmp prefix w);
           Rmtree (next_tmp prefix w)]].
  split; [|rewrite Hc; reflexivity].
  constructor; [|constructor]. exists (next_tmp prefix w). left. now exists dev.
Qed.

Lemma build_ext4_image_visits root sub out label :
  keeps visits_only (Run.build_ext4_image root sub out label).
Proof.
  intros w.
  destruct (build_ext4_image_one_mount root sub out label w)
    as (_ & _ & Ha & Hn & _ & _ & _ & [Hc|Hc]).
  - now apply visits_none.
  - split; [exact Ha|]. split; [exact Hn|].
    exists [[MountImage (tmp_name out) (next_tmp "extimg_" w); Umount (next_tmp "extimg_" w);
             Rmtree (next_tmp "extimg_" w)]].
    split; [|rewrite Hc; reflexivity].
    constructor; [|constructor]. exists (next_tmp "extimg_" w). right. now exists (tmp_name out).
Qed.

Ltac visits_prim :=
  idtac;
  match goal with
  | |- keeps _ (in_partition _ _ _) =>
      apply in_partition_visits; intros ?; keeps_split quiet_prim
  | |- keeps _ (Run.build_ext4_image _ _ _ _) => apply build_ext4_image_visits
  | |- keeps _ (modify _) => apply keeps_modify; intros ?; apply visits_none; reflexivity
  | |- keeps _ next_outcome =>
      let w := fresh "w" in
      intros w; unfold next_outcome; destruct (plan w); apply visits_none; reflexivity
  | |- keeps _ (mkdtemp _) => intros ?; apply visits_none; reflexivity
  | |- keeps _ (Run.rename _ _) =>
      let w := fresh "w" in
      intros w; unfold Run.rename; destruct (lookup _ (build w));
      apply visits_none; reflexivity
  | |- keeps _ (Run.write _ _) => unfold Run.write
  | |- keeps _ (print _) => unfold print
  end.

(** The three replacement steps issue visits and nothing else. *)
Lemma steps_visit root iv ih dev :
  keeps visits_only
        (Run.replace_rootfs root (dev ++ "p3") ;;
         Run.replace_var iv root (dev ++ "p4") ;;
         Run.replace_home ih root (dev ++ "p5") ;;
         print "[+] Sync and detach ..." ;;
         print "[OK] Repack complete:" ;;
         print "NOTE: ESP/EFI partitions were kept as-is from the old superimage.").
Proof.
  unfold Run.replace_rootfs, Run.replace_var, Run.replace_home, Run.replace_subtree,
    Run.detect_existing_inner, Run.replace_nested_image_in_partition,
    Run.wipe_and_fill_partition_direct, Run.build_squashfs, Run.unlink_stale, Run.mksquashfs.
  keeps_split visits_prim.
Qed.

Lemma bind_det {S A B} (m : St S A) (k : A -> St S B) s a s1 :
  m s = (Ok a, s1) -> bind m k s = k a s1.
Proof. intros H. unfold bind. now rewrite H. Qed.

Lemma bind_raises {S A B} (m : St S A) (k : A -> St S B) s e s1 :
  m s = (Raise e, s1) -> bind m k s = (Raise e, s1).
Proof. intros H. unfold bind. now rewrite H. Qed.

Lemma copy2_quiet old out : keeps files_only (Run.copy2 old out).
Proof. unfold Run.copy2. keeps_split quiet_prim. Qed.

(** What an attach issues and answers. *)
Lemma losetup_attach_cases img w :
  let r := Run.losetup_attach img w in
  calls (snd r) = (calls w ++ [LosetupAttach img])%list /\
  atexit (snd r) = atexit w /\ next_loop (snd r) = next_loop w /\
  forall dev, fst r = Ok dev -> dev = next_loop w.
Proof.
  cbv zeta. unfold Run.losetup_attach, bind, issue, modify, next_outcome, gets, raise, ret.
  cbn [fst snd plan host upd_calls].
  destruct (plan w) as [|[k|] rest]; cbn [fst snd plan host upd_calls set_plan];
    destruct (lookup img (host w)) as [[?|? ?|?|? ?]|]; cbn [fst snd]; repeat split;
    intros dev H; first [discriminate H | now inversion H].
Qed.

(** Where [repack] leaves the finalizer's lists, and what it has issued
    by then. *)
Lemma repack_trace old root out iv ih w :
  atexit w = None ->
  let r := Run.repack old root out iv ih w in
  let wd := next_tmp "repack_" w in
  (fst r <> Ok tt /\ atexit (snd r) = None /\ calls (snd r) = calls w) \/
  (fst r <> Ok tt /\ atexit (snd r) = Some (mkTracker wd [] []) /\
   (calls (snd r) = calls w \/ calls (snd r) = (calls w ++ [LosetupAttach out])%list)) \/
  (exists vs, atexit (snd r) = Some (mkTracker wd [] [next_loop w]) /\ Forall visit vs /\
              calls (snd r) = (calls w ++ [LosetupAttach out] ++ List.concat vs)%list).
Proof.
  intros Hat. cbv zeta. unfold Run.repack.
  rewrite (bind_det (gets _) _ w _ w eq_refl).
  destruct (negb (is_some (lookup old (host w))));
    [cbn [raise fst snd]; left; repeat split; [discriminate | exact Hat]|].
  rewrite (bind_det (gets _) _ w _ w eq_refl).
  destruct (negb (is_some (lookup root (host w))));
    [cbn [raise fst snd]; left; repeat split; [discriminate | exact Hat]|].
  rewrite (bind_det (mkdtemp "repack_") _ w _ _ eq_refl).
  rewrite (bind_det (modify _) _ _ _ _ eq_refl).
  rewrite (bind_det (Run.register _) _ _ _ _ eq_refl).
  rewrite (bind_det (print _) _ _ _ _ eq_refl).
  fold (next_tmp "repack_" w).
  set (wd := next_tmp "repack_" w).
  set (w4 := upd_stdout _ _).
  assert (H4 : calls w4 = calls w /\ atexit w4 = Some (mkTracker wd [] []) /\
               next_loop w4 = next_loop w) by (repeat split).
  clearbody w4. destruct H4 as (C4 & A4 & N4).
  pose proof (copy2_quiet old out w4) as (C5 & _ & _ & _ & A5 & N5 & _).
  destruct (Run.copy2 old out w4) as [[u|e] w5] eqn:Ec; cbn [snd] in *.
  2:{ rewrite (bind_raises _ _ _ _ _ Ec). cbn [fst snd]. right; left.
      split; [discriminate|]. split; [congruence | left; congruence]. }
  rewrite (bind_det _ _ _ _ _ Ec).
  pose proof (losetup_attach_cases out w5) as (C6 & A6 & N6 & D6). cbv zeta in *.
  destruct (Run.losetup_attach out w5) as [[dev|e] w6] eqn:Ea; cbn [fst snd] in *.
  2:{ rewrite (bind_raises _ _ _ _ _ Ea). cbn [fst snd]. right; left.
      split; [discriminate|]. split; [congruence | right; congruence]. }
  rewrite (bind_det _ _ _ _ _ Ea). specialize (D6 dev eq_refl).
  destruct (String.eqb dev "").
  { cbn [raise fst snd]. right; left.
    split; [discriminate|]. split; [congruence | right; congruence]. }
  assert (Et : Run.track_loop dev w6
               = (Ok tt, set_atexit (Some (mkTracker wd [] [dev])) w6)).
  { unfold Run.track_loop, modify. rewrite A6, A5, A4. reflexivity. }
  rewrite (bind_det _ _ _ _ _ Et).
  set (w7 := set_atexit _ w6).
  destruct (steps_visit root iv ih dev w7) as (A8 & _ & vs & V8 & C8).
  right; right. exists vs. split; [rewrite A8; cbn [w7 set_atexit atexit]; congruence|].
  split; [exact V8|]. rewrite C8. cbn [w7 set_atexit calls].
  rewrite C6, C5, C4, <- app_assoc. reflexivity.
Qed.

(** X13: the commands a whole run issues, finalizer included, in their
    order: the attach of the output image; then visits, each the mount
    of a partition or of an image file on a directory followed at once
    by the unmount and the removal of that directory; then the detach
    of the attached device and the removal of the working directory.  So
    no mount is issued while an earlier one is open, none is left
    without its unmount, and the device is detached after the last of
    them.  A run that fails before the steps issues less: nothing, the
    removal of the working directory, or the attach and that removal;
    a run that returns has issued the full sequence. *)
Theorem run_closes_every_mount :
  forall (w : world) (old_img root_tree out_img : string) (include_var include_home : bool),
    atexit w = None ->
    let r := Run.main old_img root_tree out_img include_var include_home w in
    let wd := next_tmp "repack_" w in
    let full :=
      exists vs, Forall visit vs /\
        calls (snd r) = (calls w ++ [LosetupAttach out_img] ++ List.concat vs
                                 ++ [LosetupDetach (next_loop w); Rmtree wd])%list in
    (calls (snd r) = calls w \/
     calls (snd r) = (calls w ++ [Rmtree wd])%list \/
     calls (snd r) = (calls w ++ [LosetupAttach out_img; Rmtree wd])%list \/
     full) /\
    (fst r = Ok tt -> full).
Proof.
  intros w old root out iv ih Hat. cbv zeta.
  pose proof (repack_trace old root out iv ih w Hat) as Hshape. cbv zeta in Hshape.
  unfold Run.main, try_finally_do.
  destruct (Run.repack old root out iv ih w) as [r s]. cbn [fst snd] in *.
  set (wd := next_tmp "repack_" w) in *. clearbody wd.
  unfold Run.at_exit, bind, gets.
  destruct Hshape as [(Hr & Ha & Hc)|[(Hr & Ha & Hc)|(vs & Ha & Hv & Hc)]]; rewrite Ha.
  - cbn [ret fst snd]. split; [now left | intros H; contradiction].
  - destruct (cleanup_once (mkTracker wd [] []) s) as (H1 & H2 & _).
    destruct (Run.cleanup (mkTracker wd [] []) s) as [[[]|e] s2]; cbn [fst snd] in *;
      [|discriminate].
    split; [|intros H; contradiction].
    rewrite H2. cbn [mounts tloops workdir rev map app].
    destruct Hc as [Hc|Hc]; rewrite Hc; [right; left; reflexivity|].
    right; right; left. now rewrite <- app_assoc.
  - destruct (cleanup_once (mkTracker wd [] [next_loop w]) s) as (H1 & H2 & _).
    destruct (Run.cleanup (mkTracker wd [] [next_loop w]) s) as [[[]|e] s2];
      cbn [fst snd] in *; [|discriminate].
    assert (Hfull : exists vs0, Forall visit vs0 /\
              calls s2 = (calls w ++ [LosetupAttach out] ++ List.concat vs0
                                  ++ [LosetupDetach (next_loop w); Rmtree wd])%list).
    { exists vs. split; [exact Hv|]. rewrite H2, Hc.
      cbn [mounts tloops workdir rev map app]. now rewrite <- !app_assoc. }
    split; [right; right; right; exact Hfull | intros _; exact Hfull].
Qed.

Lemma run_closes_every_mount_witness :
  exists vs, Forall visit vs /\
    calls (snd (Run.main "steamdeck.img" "/mnt/steamOS" "new.img" true true (Samples.machine [])))
    = ([LosetupAttach "new.img"] ++ List.concat vs
       ++ [LosetupDetach "/dev/loop0"; Rmtree "/tmp/repack__"])%list.
Proof.
  apply (run_closes_every_mount (Samples.machine [])
           "steamdeck.img" "/mnt/steamOS" "new.img" true true eq_refl).
  reflexivity.
Defined.

(* ---------- the layout of the output image ---------- *)

Lemma same_layout_preorder img : PreOrder (same_layout img).
Proof.
  split.
  - intros w boot parts H. now exists parts.
  - intros a b c Hab Hbc boot parts H.
    destruct (Hab boot parts H) as (p1 & H1 & E1).
    destruct (Hbc boot p1 H1) as (p2 & H2 & E2).
    exists p2. split; [exact H2 | congruence].
Qed.
#[local] Existing Instance same_layout_preorder.








(* ---------- the working directory ---------- *)

Lemma workdir_preorder :
  PreOrder (fun a b : world => option_map workdir (atexit b) = option_map workdir (atexit a)).
Proof. split; [intros a; reflexivity | intros a b c H1 H2; congruence]. Qed.
#[local] Existing Instance workdir_preorder.

Lemma on_part_keeps_atexit {A} dev (body : St part A) :
  keeps (fun a b => option_map workdir (atexit b) = option_map workdir (atexit a))
        (on_part dev body).
Proof.
  intros w. destruct (on_part_files_only dev body w) as (_ & _ & _ & _ & H & _). now rewrite H.
Qed.

Ltac workdir_prim :=
  idtac;
  match goal with
  | |- keeps _ (on_part _ _) => apply on_part_keeps_atexit
  | |- keeps _ (modify _) => apply keeps_modify; intros ?; reflexivity
  | |- keeps _ next_outcome =>
      let w := fresh "w" in
      intros w; unfold next_outcome; destruct (plan w); reflexivity
  | |- keeps _ (mkdtemp _) => intros ?; reflexivity
  | |- keeps _ (Run.rename _ _) =>
      let w := fresh "w" in
      intros w; unfold Run.rename; destruct (lookup _ (build w)); reflexivity
  | |- keeps _ (Run.track_loop _) =>
      let w := fresh "w" in
      let E := fresh "E" in
      intros w; unfold Run.track_loop, modify; cbn [snd];
      destruct (atexit w) eqn:E; cbn [atexit set_atexit option_map workdir];
      rewrite ?E; reflexivity
  | |- keeps _ (Run.write _ _) => unfold Run.write
  | |- keeps _ (print _) => unfold print
  | |- keeps _ (issue _) => unfold issue
  end.

Lemma repack_registers old root out iv ih w :
  lookup old (host w) <> None -> lookup root (host w) <> None ->
  option_map workdir (atexit (snd (Run.repack old root out iv ih w)))
  = Some (next_tmp "repack_" w).
Proof.
  intros Ho Hr. unfold Run.repack.
  rewrite (bind_det (gets _) _ w _ w eq_refl).
  destruct (lookup old (host w)) as [x|]; [cbn [is_some negb]|congruence].
  rewrite (bind_det (gets _) _ w _ w eq_refl).
  destruct (lookup root (host w)) as [y|]; [cbn [is_some negb]|congruence].
  rewrite (bind_det (mkdtemp "repack_") _ w _ _ eq_refl).
  rewrite (bind_det (modify _) _ _ _ _ eq_refl).
  rewrite (bind_det (Run.register _) _ _ _ _ eq_refl).
  match goal with
  | |- option_map workdir (atexit (snd (?m ?s))) = _ =>
      assert (Hk : keeps (fun a b => option_map workdir (atexit b)
                                     = option_map workdir (atexit a)) m)
  end.
  { unfold Run.copy2, Run.losetup_attach, Run.replace_rootfs, Run.replace_var,
      Run.replace_home, Run.replace_subtree.
    unfold_helpers.
    keeps_split workdir_prim. }
  rewrite Hk. reflexivity.
Qed.

(** X15: [repack] checks its inputs before it touches anything: with
    the old image or the source tree missing, the run raises
    [FileNotFoundError] for the first that is missing and ends in the
    state it started from.  With both present, however the run ends, its
    last command is the removal of the working directory [mkdtemp] gave
    it, and the build directory is gone. *)
Theorem working_directory_is_always_removed :
  forall (w : world) (old_img root_tree out_img : string) (include_var include_home : bool),
    atexit w = None ->
    let r := Run.main old_img root_tree out_img include_var include_home w in
    (lookup old_img (host w) = None -> r = (Raise (FileNotFoundError old_img), w)) /\
    (lookup old_img (host w) <> None -> lookup root_tree (host w) = None ->
       r = (Raise (FileNotFoundError root_tree), w)) /\
    (lookup old_img (host w) <> None -> lookup root_tree (host w) <> None ->
       build (snd r) = [] /\
       exists before,
         calls (snd r) = (before ++ [Rmtree (next_tmp "repack_" w)])%list).
Proof.
  intros w old root out iv ih Hat. cbv zeta. unfold Run.main, try_finally_do.
  split; [|split].
  - intros Ho. unfold Run.repack. rewrite (bind_det (gets _) _ w _ w eq_refl), Ho.
    cbn [is_some negb raise]. unfold Run.at_exit, bind, gets. now rewrite Hat.
  - intros Ho Hr. unfold Run.repack. rewrite (bind_det (gets _) _ w _ w eq_refl).
    destruct (lookup old (host w)); [cbn [is_some negb]|congruence].
    rewrite (bind_det (gets _) _ w _ w eq_refl), Hr.
    cbn [is_some negb raise]. unfold Run.at_exit, bind, gets. now rewrite Hat.
  - intros Ho Hr. pose proof (repack_registers old root out iv ih w Ho Hr) as Hreg.
    destruct (Run.repack old root out iv ih w) as [r s]. cbn [snd] in Hreg.
    unfold Run.at_exit, bind, gets. destruct (atexit s) as [t|]; [|discriminate].
    cbn [option_map] in Hreg. inversion Hreg as [Hwd].
    destruct (cleanup_once t s) as (H1 & H2 & H3 & _).
    destruct (Run.cleanup t s) as [[[]|e] s2]; cbn [fst snd] in *; [|discriminate].
    split; [exact H3|]. rewrite H2, Hwd.
    eexists. rewrite !app_assoc. reflexivity.
Qed.

Lemma working_directory_is_always_removed_witness :
  build (snd (Run.main "steamdeck.img" "/mnt/steamOS" "new.img" true true (Samples.machine [])))
  = [].
Proof.
  destruct (working_directory_is_always_removed (Samples.machine [])
              "steamdeck.img" "/mnt/steamOS" "new.img" true true eq_refl) as (_ & _ & H).
  apply H; discriminate.
Defined.

(* ---------- build first, write second ---------- *)

(** What a successful [build_squashfs] leaves at the final path. *)
(** X16: a step writes to its partition only after its builder has
    returned.  In the var and home steps, when detection raises, the
    step raises the same and ends there; when [build_ext4_image] raises,
    the step raises the same and ends there too, and no file of the host
    has changed since detection.  The root step likewise, for whichever
    of [build_squashfs] and [build_ext4_image] the detection selects. *)
Theorem partition_is_written_only_after_the_build :
  forall (w : world) (sub part_dev : string) (preferred : list string)
         (default label banner root_tree : string),
    let step := Run.replace_subtree sub part_dev preferred default label banner root_tree w in
    let det := Run.detect_existing_inner part_dev preferred (snd (print banner w)) in
    let root_step := Run.replace_rootfs root_tree part_dev w in
    let root_det :=
      Run.detect_existing_inner part_dev preferred_root_names
        (snd (print "[+] Replacing rootfs ..." w)) in
    (forall e, fst det = Raise e -> step = (Raise e, snd det)) /\
    (forall found e,
        fst det = Ok found ->
        let new_inner := match fst found with Some ep => snd ep | None => default end in
        let b := Run.build_ext4_image root_tree [sub] new_inner label (snd det) in
        fst b = Raise e ->
        step = (Raise e, snd b) /\ host (snd step) = host (snd det)) /\
    (forall e, fst root_det = Raise e -> root_step = (Raise e, snd root_det)) /\
    (forall found e,
        fst root_det = Ok found ->
        let b :=
          if snd found ||
             match fst found with Some ep => Run.is_squashfs_gone ep | None => false end
          then
            Run.build_squashfs root_tree []
              (match fst found with Some ep => snd ep | None => "rootfs.squashfs" end)
              (snd (print "    - Detected squashfs root; rebuilding squashfs ..."
                      (snd root_det)))
          else
            Run.build_ext4_image root_tree []
              (match fst found with
               | Some ep => if Run.is_ext_image_gone ep then snd ep else "rootfs-A.img"
               | None => "rootfs-A.img"
               end) "rootfs-A"
              (snd (print "    - Using ext4 image for root; building ext4 ..."
                      (snd root_det))) in
        fst b = Raise e ->
        root_step = (Raise e, snd b) /\ host (snd root_step) = host (snd root_det)).
Proof.
  intros w sub dev preferred default label banner root. cbv zeta.
  unfold Run.replace_subtree, Run.replace_rootfs.
  rewrite !(bind_det (print _) _ w _ _ eq_refl).
  change (snd (print banner w)) with (upd_stdout (fun l => (l ++ [banner])%list) w).
  change (snd (print "[+] Replacing rootfs ..." w))
    with (upd_stdout (fun l => (l ++ ["[+] Replacing rootfs ..."])%list) w).
  set (w1 := upd_stdout _ w). set (w1' := upd_stdout _ w). clearbody w1 w1'.
  split; [|split; [|split]].
  - intros e He.
    destruct (Run.detect_existing_inner dev preferred w1) as [[found|e'] s] eqn:Ed;
      cbn [fst snd] in *; [discriminate|].
    inversion He; subst. now rewrite (bind_raises _ _ _ _ _ Ed).
  - intros found e Hd.
    destruct (Run.detect_existing_inner dev preferred w1) as [[found'|e'] s] eqn:Ed;
      cbn [fst snd] in *; [|discriminate].
    inversion Hd; subst found'. rewrite (bind_det _ _ _ _ _ Ed). cbv zeta.
    set (nm := match fst found with Some ep => snd ep | None => default end).
    pose proof (build_ext4_image_keeps_host root [sub] nm label s) as Hh. cbn beta in Hh.
    destruct (Run.build_ext4_image root [sub] nm label s) as [[u|e'] s'] eqn:Eb;
      cbn [fst snd] in *; intros Hb; [discriminate|].
    inversion Hb; subst. rewrite (bind_raises _ _ _ _ _ Eb). split; [reflexivity | exact Hh].
  - intros e He.
    destruct (Run.detect_existing_inner dev preferred_root_names w1') as [[found|e'] s] eqn:Ed;
      cbn [fst snd] in *; [discriminate|].
    inversion He; subst. now rewrite (bind_raises _ _ _ _ _ Ed).
  - intros found e Hd.
    destruct (Run.detect_existing_inner dev preferred_root_names w1') as [[found'|e'] s] eqn:Ed;
      cbn [fst snd] in *; [|discriminate].
    inversion Hd; subst found'. rewrite (bind_det _ _ _ _ _ Ed). cbv zeta.
    match goal with
    | |- context [if ?c then _ else _] => destruct c
    end.
    + set (nm := match fst found with Some ep => snd ep | None => "rootfs.squashfs" end).
      rewrite bind_assoc, (bind_det (print _) _ s _ _ eq_refl).
      change (snd (print "    - Detected squashfs root; rebuilding squashfs ..." s))
        with (upd_stdout
                (fun l => (l ++ ["    - Detected squashfs root; rebuilding squashfs ..."])%list) s).
      set (s1 := upd_stdout _ s).
      assert (H1 : host s1 = host s) by reflexivity. clearbody s1.
      rewrite bind_assoc.
      pose proof (build_squashfs_keeps_host root [] nm s1) as Hh. cbn beta in Hh.
      destruct (Run.build_squashfs root [] nm s1) as [[u|e'] s'] eqn:Eb;
        cbn [fst snd] in *; intros Hb; [discriminate|].
      inversion Hb; subst. rewrite (bind_raises _ _ _ _ _ Eb).
      split; [reflexivity | cbn [snd]; congruence].
    + set (nm := match fst found with
                 | Some ep => if Run.is_ext_image_gone ep then snd ep else "rootfs-A.img"
                 | None => "rootfs-A.img"
                 end).
      rewrite bind_assoc, (bind_det (print _) _ s _ _ eq_refl).
      change (snd (print "    - Using ext4 image for root; building ext4 ..." s))
        with (upd_stdout
                (fun l => (l ++ ["    - Using ext4 image for root; building ext4 ..."])%list) s).
      set (s1 := upd_stdout _ s).
      assert (H1 : host s1 = host s) by reflexivity. clearbody s1.
      rewrite bind_assoc.
      pose proof (build_ext4_image_keeps_host root [] nm "rootfs-A" s1) as Hh. cbn beta in Hh.
      destruct (Run.build_ext4_image root [] nm "rootfs-A" s1) as [[u|e'] s'] eqn:Eb;
        cbn [fst snd] in *; intros Hb; [discriminate|].
      inversion Hb; subst. rewrite (bind_raises _ _ _ _ _ Eb).
      split; [reflexivity | cbn [snd]; congruence].
Qed.

(** On a machine where [mkfs.ext4] fails, the var step raises what the
    builder raised. *)
Lemma partition_is_written_only_after_the_build_witness :
  fst (Run.replace_subtree "var" "/dev/loop0p4" preferred_var_names "var-A.img" "var-A"
         "[+] Replacing /var ..." "/mnt/steamOS"
         (upd_loops (cons ("/dev/loop0", "steamdeck.img"))
            (Samples.machine [None; None; Some 0%nat])))
  = Raise (CalledProcessError ["mkfs.ext4"]).
Proof.
  destruct (partition_is_written_only_after_the_build
              (upd_loops (cons ("/dev/loop0", "steamdeck.img"))
                 (Samples.machine [None; None; Some 0%nat]))
              "var" "/dev/loop0p4" preferred_var_names "var-A.img" "var-A"
              "[+] Replacing /var ..." "/mnt/steamOS") as (_ & H & _).
  destruct (H (None, false) (CalledProcessError ["mkfs.ext4"]) eq_refl eq_refl) as [E _].
  now rewrite E.
Defined.

(** wipe, then a failing rsync *)
Lemma NoDup_names_firstn {A} k (t : list (string * A)) :
  NoDup (names t) -> NoDup (names (firstn k t)).
Proof.
  revert k. induction t as [|[n x] t IH]; intros [|k] H; cbn; try constructor.
  - inversion H as [|? ? Hn Ht]; subst. intros Hin. apply Hn.
    clear -Hin. revert k Hin. induction t as [|[m y] t IHt]; intros [|k]; cbn; try tauto.
    intros [->|Hin]; [now left | right; eauto].
  - inversion H; subst. now apply IH.
Qed.

(** X9: [wipe_and_fill_partition_direct] wipes before it copies.  When
    the source is not a directory, or rsync fails after some entries,
    the call raises [CalledProcessError] and every entry that could be
    removed is gone: afterwards such a name holds only what rsync had
    copied by then, and [lost+found] is what it was unless rsync copied
    into it. *)
Theorem failed_fill_leaves_the_partition_wiped :
  forall (p : part) (src_dir : option listing) (cut : option nat),
    src_dir = None \/ cut <> None ->
    (forall t, src_dir = Some t -> NoDup (names t)) ->
    let r := wipe_and_fill_partition_direct src_dir cut p in
    let copied :=
      match src_dir, cut with
      | Some t, Some k => firstn k t
      | _, _ => []
      end in
    fst r = Raise (CalledProcessError ["rsync"]) /\
    (forall n, n <> recovery_dir -> is_locked n p = false ->
               (forall t, lookup n (entries p) <> Some (DirLink t)) ->
               lookup n (entries (snd r)) = lookup n copied) /\
    (lookup recovery_dir copied = None ->
     lookup recovery_dir (entries (snd r)) = lookup recovery_dir (entries p)).
Proof.
  intros p src cut Hfail Hnd. cbv zeta. rewrite wipe_and_fill_unfolded.
  set (q := snd (wipe_loop (entries p) p)).
  assert (Hgone : forall n, n <> recovery_dir -> is_locked n p = false ->
                    (forall t, lookup n (entries p) <> Some (DirLink t)) ->
                    lookup n (entries q) = None).
  { intros n Hrec Hl Hlink. apply wipe_loop_frees. repeat split; assumption. }
  assert (Hkeep : lookup recovery_dir (entries q) = lookup recovery_dir (entries p))
    by apply wipe_loop_keeps.
  destruct src as [t|]; [destruct cut as [k|]|].
  - pose proof (NoDup_names_firstn k t (Hnd t eq_refl)) as Hk. unfold rsync.
    pose proof (rsync_tree_fresh (locked q) (firstn k t) (entries q)) as Hfresh.
    pose proof (rsync_tree_other (locked q) (firstn k t) (entries q)) as Hother.
    destruct (rsync_tree (locked q) (firstn k t) (entries q)) as [d ok].
    cbn [fst snd entries set_entries] in *.
    split; [reflexivity|]. split.
    + intros n Hrec Hl Hlink. apply Hfresh; [exact Hk | now apply Hgone].
    + intros Hno. now rewrite Hother.
  - destruct Hfail as [H|H]; [discriminate | congruence].
  - unfold rsync, raise. cbn [fst snd]. split; [reflexivity|]. split; [|intros _; exact Hkeep].
    intros n Hrec Hl Hlink. now rewrite (Hgone n Hrec Hl Hlink).
Qed.

Lemma failed_fill_leaves_the_partition_wiped_witness :
  lookup "journal.log"
    (entries (snd (wipe_and_fill_partition_direct None None
                     (Samples.roomy_part Samples.direct_var))))
  = None.
Proof.
  destruct (failed_fill_leaves_the_partition_wiped (Samples.roomy_part Samples.direct_var)
              None None (or_introl eq_refl)) as (_ & H & _).
  - intros t E. discriminate E.
  - apply (H "journal.log"); [discriminate | reflexivity | discriminate].
Defined.

(* ---------- the extractor's choice ---------- *)

Lemma insert_by_size_head x l :
  hd_error (insert_by_size x l) =
  match hd_error l with
  | Some y => if st_size (snd x) <? st_size (snd y) then Some y else Some x
  | None => Some x
  end.
Proof. destruct l as [|y l]; cbn; [reflexivity|]. now destruct (_ <? _). Qed.

(** The head of the sorted list of a non-empty list, as a first maximum. *)
Lemma sorted_head_first x xs :
  exists h pre post,
    hd_error (sorted_by_size_desc (x :: xs)) = Some h /\
    x :: xs = (pre ++ h :: post)%list /\
    (forall y, In y pre -> st_size (snd y) < st_size (snd h)) /\
    (forall y, In y post -> st_size (snd y) <= st_size (snd h)).
Proof.
  revert x. induction xs as [|z xs IH]; intros x.
  - exists x, [], []. cbn. repeat split; intros y [].
  - destruct (IH z) as (h & pre & post & Hh & Hl & Hpre & Hpost).
    change (sorted_by_size_desc (x :: z :: xs))
      with (insert_by_size x (sorted_by_size_desc (z :: xs))).
    rewrite insert_by_size_head, Hh.
    destruct (Z.ltb_spec (st_size (snd x)) (st_size (snd h))) as [Hlt|Hge].
    + exists h, (x :: pre), post. split; [reflexivity|]. split; [now rewrite Hl|].
      split; [|exact Hpost]. intros y [<-|Hy]; [exact Hlt | now apply Hpre].
    + exists x, [], (z :: xs). split; [reflexivity|]. split; [reflexivity|].
      split; [intros y []|]. intros y Hy. rewrite Hl in Hy.
      apply in_app_or in Hy as [Hy|[<-|Hy]];
        [specialize (Hpre y Hy) | | specialize (Hpost y Hy)]; lia.
Qed.

(** A list has one first maximum. *)
Lemma first_maximum_unique (l : list (string * file)) :
  forall pre h post pre' h' post',
    l = (pre ++ h :: post)%list -> l = (pre' ++ h' :: post')%list ->
    (forall y, In y pre -> st_size (snd y) < st_size (snd h)) ->
    (forall y, In y post -> st_size (snd y) <= st_size (snd h)) ->
    (forall y, In y pre' -> st_size (snd y) < st_size (snd h')) ->
    (forall y, In y post' -> st_size (snd y) <= st_size (snd h')) ->
    h = h'.
Proof.
  induction l as [|a l IH]; intros pre h post pre' h' post' E E' H1 H2 H1' H2'.
  - destruct pre; discriminate.
  - destruct pre as [|b pre], pre' as [|b' pre']; cbn [app] in E, E'.
    + injection E as Ea _. injection E' as Ea' _. congruence.
    + exfalso. injection E as Ea El. injection E' as Ea' El'.
      assert (Hin : In h' post) by (rewrite <- El, El'; apply in_elt).
      specialize (H2 h' Hin). specialize (H1' b' (or_introl eq_refl)).
      assert (b' = h) by congruence. subst. lia.
    + exfalso. injection E as Ea El. injection E' as Ea' El'.
      assert (Hin : In h post') by (rewrite <- El', El; apply in_elt).
      specialize (H2' h Hin). specialize (H1 b (or_introl eq_refl)).
      assert (b = h') by congruence. subst. lia.
    + injection E as Ea El. injection E' as Ea' El'.
      apply (IH pre h post pre' h' post'); auto.
      * intros y Hy. apply H1. now right.
      * intros y Hy. apply H1'. now right.
Qed.

Lemma max_by_size_is_first x xs :
  exists pre post,
    x :: xs = (pre ++ max_by_size x xs :: post)%list /\
    (forall y, In y pre -> st_size (snd y) < st_size (snd (max_by_size x xs))) /\
    (forall y, In y post -> st_size (snd y) <= st_size (snd (max_by_size x xs))).
Proof.
  destruct (max_by_size_first xs x [] []) as (pre & post & Hl & H1 & H2);
    try (intros y []).
  exists pre, post. auto.
Qed.

Lemma sorted_head_first_largest :
  forall d : listing,
    hd_error (sorted_by_size_desc (regular_files d)) = largest_file d.
Proof.
  intros d. unfold largest_file. destruct (regular_files d) as [|x xs]; [reflexivity|].
  destruct (sorted_head_first x xs) as (h & pre & post & Hh & Hl & Hpre & Hpost).
  destruct (max_by_size_is_first x xs) as (pre' & post' & Hl' & Hpre' & Hpost').
  rewrite Hh. f_equal.
  exact (first_maximum_unique (x :: xs) pre h post pre' (max_by_size x xs) post'
           Hl Hl' Hpre Hpost Hpre' Hpost').
Qed.

(** X17: the first file of [sorted(files, key=size, reverse=True)], the
    candidate of the extractor's [_extract_into_subdir], is the file
    that [max(files, key=size)] picks in the repacker, ties included; it
    is a regular file of the directory and no regular file is larger. *)
Theorem sorted_head_is_the_largest_file :
  forall d : listing,
    hd_error (sorted_by_size_desc (regular_files d)) = largest_file d /\
    (forall nm f rest,
        sorted_by_size_desc (regular_files d) = (nm, f) :: rest ->
        In (nm, File f) d /\
        forall x, In x (regular_files d) -> st_size (snd x) <= st_size f).
Proof.
  intros d. split; [apply sorted_head_first_largest|].
  intros nm f rest E.
  assert (Hl : largest_file d = Some (nm, f))
    by (rewrite <- sorted_head_first_largest, E; reflexivity).
  split; [now apply largest_file_In|].
  unfold largest_file in Hl. destruct (regular_files d) as [|x xs]; [discriminate|].
  inversion Hl as [Hm].
  destruct (max_by_size_is_first x xs) as (pre & post & Hlist & Hpre & Hpost).
  rewrite Hm in *. rewrite Hlist. intros y Hy.
  apply in_app_or in Hy as [Hy|[<-|Hy]];
    [specialize (Hpre y Hy); cbn [snd] in Hpre; lia | cbn [snd]; lia
    | specialize (Hpost y Hy); exact Hpost].
Qed.

(** X18: on the root partition the extractor and the repacker agree
    wherever the extractor found a nested image: a file the extractor
    unpacks is detected as a nested squashfs under the same name, a file
    it loop-mounts as a nested ext image under the same name, and a
    partition the detection calls direct is copied as a tree.  They part
    only on a file under a preferred name that probes as neither: the
    extractor copies the partition, the detection still names the
    file. *)
Theorem root_extraction_agrees_with_detection :
  forall d : listing,
    (forall nm, root_source d = Unsquash nm ->
                detect_existing_inner d preferred_root_names = (Some nm, true)) /\
    (forall nm, root_source d = LoopMount nm ->
                detect_existing_inner d preferred_root_names = (Some nm, false)) /\
    (classify d preferred_root_names = DirectFilesystem -> root_source d = CopyPartition) /\
    (forall nm sq,
        root_source d = CopyPartition ->
        detect_existing_inner d preferred_root_names = (Some nm, sq) ->
        sq = false /\
        exists f, first_preferred d preferred_root_names = Some (nm, f) /\
                  is_squashfs f = false /\ is_ext_image f = false).
Proof.
  intros d. unfold root_source, inner_root, classify, detect_existing_inner.
  assert (Hsolve : forall (c : option (string * file)) (e : extraction)
                          (r : option string * bool),
             (forall nm, e = Unsquash nm -> r = (Some nm, true)) ->
             (forall nm, e = LoopMount nm -> r = (Some nm, false)) ->
             (shape_of r = DirectFilesystem -> e = CopyPartition) ->
             (forall nm sq, e = CopyPartition -> r = (Some nm, sq) ->
                sq = false /\ exists f, c = Some (nm, f) /\
                                        is_squashfs f = false /\ is_ext_image f = false) ->
             (forall nm, e = Unsquash nm -> r = (Some nm, true)) /\
             (forall nm, e = LoopMount nm -> r = (Some nm, false)) /\
             (shape_of r = DirectFilesystem -> e = CopyPartition) /\
             (forall nm sq, e = CopyPartition -> r = (Some nm, sq) ->
                sq = false /\ exists f, c = Some (nm, f) /\
                                        is_squashfs f = false /\ is_ext_image f = false))
    by (intros; auto).
  destruct (first_preferred d preferred_root_names) as [[n f]|].
  - destruct (is_squashfs f) eqn:Es; [|destruct (is_ext_image f) eqn:Ee]; apply Hsolve;
      try (intros nm H; first [discriminate H | now inversion H]);
      try (intros H; first [discriminate H | reflexivity]);
      intros nm sq H H'; first [discriminate H | inversion H'; subst].
    split; [reflexivity | now exists f].
  - destruct (largest_file d) as [[n f]|].
    + destruct (is_squashfs f) eqn:Es; [|destruct (is_ext_image f) eqn:Ee]; cbn [orb];
        apply Hsolve;
        try (intros nm H; first [discriminate H | now inversion H]);
        try (intros H; first [discriminate H | reflexivity]);
        intros nm sq H H'; first [discriminate H | discriminate H'].
    + apply Hsolve;
        try (intros nm H; discriminate H);
        try (intros H; reflexivity);
        intros nm sq H H'; discriminate H'.
Qed.

(** X19: on the var and home partitions the extractor never unpacks a
    squashfs.  When no preferred name is a regular file, an image the
    extractor loop-mounts is the one detection names and the replacement
    targets; a partition the detection calls direct is copied as a tree;
    and a largest file that probes as squashfs only is copied with the
    partition by the extractor, while detection reports it as a nested
    squashfs. *)
Theorem subdir_extraction_agrees_with_detection :
  forall (d : listing) (preferred_names : list string),
    (forall nm, subdir_source d <> Unsquash nm) /\
    (forall nm,
        subdir_source d = LoopMount nm ->
        first_preferred d preferred_names = None ->
        exists sq,
          detect_existing_inner d preferred_names = (Some nm, sq) /\
          resolve_target d preferred_names = Ok nm) /\
    (classify d preferred_names = DirectFilesystem -> subdir_source d = CopyPartition) /\
    (forall nm f,
        first_preferred d preferred_names = None ->
        largest_file d = Some (nm, f) -> is_squashfs f = true -> is_ext_image f = false ->
        subdir_source d = CopyPartition /\
        classify d preferred_names = NestedSquashfs nm).
Proof.
  intros d nms. unfold subdir_source.
  pose proof (sorted_head_first_largest d) as Hh.
  split; [|split; [|split]].
  - intros nm. destruct (sorted_by_size_desc (regular_files d)) as [|[n f] l];
      [discriminate|]. destruct (is_ext_image f); discriminate.
  - intros nm Hx Hp. unfold detect_existing_inner, resolve_target. rewrite Hp, <- Hh.
    destruct (sorted_by_size_desc (regular_files d)) as [|[n f] l]; [discriminate|].
    cbn [hd_error]. destruct (is_ext_image f) eqn:Ee; [|discriminate].
    inversion Hx; subst. rewrite orb_true_r. eauto.
  - unfold classify, detect_existing_inner. rewrite <- Hh.
    destruct (first_preferred d nms) as [[n f]|]; [destruct (is_squashfs f); discriminate|].
    destruct (sorted_by_size_desc (regular_files d)) as [|[n f] l]; [reflexivity|].
    cbn [hd_error]. destruct (is_squashfs f), (is_ext_image f); cbn; try discriminate.
    reflexivity.
  - intros nm f Hp Hl Hs He. unfold classify, detect_existing_inner. rewrite Hp, Hl, Hs.
    split; [|reflexivity]. rewrite <- Hh in Hl.
    destruct (sorted_by_size_desc (regular_files d)) as [|[n g] l]; [discriminate|].
    inversion Hl; subst. now rewrite He.
Qed.

(* ---------- the log of the front ends ---------- *)

(** X20: the log label of the front ends of [img2dsk_fedora.py] and
    [grepack_steamOS.py] holds the last 25000 characters of the old text
    joined with the new line: it is a suffix of that text, as long as
    the text or 25000 characters, whichever is less.  So it is all of the
    text when that fits, and it ends with the whole of the new line
    whenever the line itself fits. *)
Theorem append_log_keeps_the_tail :
  forall (A : Type) (newline : A) (prev line : list A),
    let s := joined newline prev line in
    let new := append_log newline prev line in
    List.length new = Nat.min (List.length s) tail_limit /\
    (exists dropped, s = (dropped ++ new)%list) /\
    ((List.length s <= tail_limit)%nat -> new = s) /\
    ((List.length line <= tail_limit)%nat -> exists before, new = (before ++ line)%list).
Proof.
  intros A newline prev line. cbv zeta. unfold append_log.
  set (s := joined newline prev line). set (L := tail_limit). clearbody L.
  split; [rewrite length_skipn; lia|].
  split; [exists (firstn (List.length s - L) s); now rewrite firstn_skipn|].
  split.
  - intros H. replace (List.length s - L)%nat with 0%nat by lia. reflexivity.
  - intros H. unfold s, joined. rewrite app_assoc.
    set (p := (prev ++ match prev with [] => [] | _ :: _ => [newline] end)%list).
    rewrite skipn_app.
    replace (List.length (p ++ line) - L - List.length p)%nat with 0%nat
      by (rewrite length_app; lia).
    eexists. reflexivity.
Qed.

(** X21: the log label of [img2dsk_gui.py] holds the first 20000
    characters of the old text joined with the new line: it is a prefix
    of that text, as long as the text or 20000 characters, whichever is
    less.  So it is all of the text when that fits; a line that does not
    fit whole is cut; and once the old text has reached the limit a new
    line changes nothing, so it is never shown. *)
Theorem append_log_head_stops_growing :
  forall (A : Type) (newline : A) (prev line : list A),
    let s := joined newline prev line in
    let new := append_log_head newline prev line in
    List.length new = Nat.min (List.length s) head_limit /\
    (exists dropped, s = (new ++ dropped)%list) /\
    ((List.length s <= head_limit)%nat -> new = s) /\
    ((head_limit <= List.length prev)%nat -> new = firstn head_limit prev) /\
    (List.length prev = head_limit -> new = prev).
Proof.
  intros A newline prev line. cbv zeta. unfold append_log_head.
  set (L := head_limit). clearbody L.
  assert (Hfull : (L <= List.length prev)%nat ->
                  firstn L (joined newline prev line) = firstn L prev).
  { intros H. unfold joined. rewrite firstn_app.
    replace (L - List.length prev)%nat with 0%nat by lia.
    cbn [firstn]. now rewrite app_nil_r. }
  split; [rewrite length_firstn; lia|].
  split; [exists (skipn L (joined newline prev line)); now rewrite firstn_skipn|].
  split; [intros H; now apply firstn_all2|].
  split; [exact Hfull|].
  intros H. rewrite Hfull by lia. apply firstn_all2. lia.
Qed.
